(** * The replacement transformer of airshipctl, embedded in Rocq

    Source: [pkg/document/plugin/replacement/transformer.go]; further
    down, the validation of the command-line options
    ([pkg/config/options.go]) and the input check of the ISO builder
    ([verifyInputs] of package [isogen]).

    The file follows the Go code function by function.  Go strings are
    modelled as [string] (a sequence of one-byte characters), the
    dynamically typed document tree ([interface{}]) as the inductive type
    [node], Go maps as [gmap string node], Go slices as [list node].
    The code mutates documents in place and may fail half-way, so every
    mutating function returns the document as the call leaves it together
    with the [status] the Go function returns.  A resource is named by its
    position in the collection, so that what [Select] returns denotes the
    documents of the collection themselves.  [updateField] does not
    terminate on every input (a filter step applied to a field that holds
    a mapping calls itself for ever), so it takes the depth it may recurse
    to and answers [OutOfFuel] beyond it.  A replacement value that is a
    mapping or a sequence is copied into each target.  The Go code stores
    the value itself, so that the target and the place the value was read
    from hold one and the same mapping or sequence, and a later write
    through one of them shows in the other.  A document is a tree here and
    cannot hold such sharing; the results below are about the place a call
    writes and about the outcome of a call, and none of them states that
    another place is left as it was. *)

From Stdlib Require Import ZArith Ascii String List Lia SpecFloat DecimalString.
From stdpp Require Import base option list strings gmap fin_maps.

Set Warnings "-register-all".
#[local] Arguments String.append !s1 s2 /.
#[local] Open Scope Z_scope.

(** ** Go's [strings] package *)

Module strings.

Definition singleton (c : ascii) : string := String c "".

(** All characters of a string, as one-character strings. *)
Fixpoint explode (s : string) : list string :=
  match s with
  | "" => []
  | String c s' => singleton c :: explode s'
  end.

Definition HasPrefix (s prefix : string) : bool := String.prefix prefix s.

(** [strings.Contains(s, substr)] *)
Fixpoint Contains (s substr : string) : bool :=
  HasPrefix s substr ||
  match s with
  | "" => false
  | String _ s' => Contains s' substr
  end.

Definition consHead (c : ascii) (l : list string) : list string :=
  match l with
  | [] => [singleton c]
  | h :: t => String c h :: t
  end.

(** The scan of [Split] for a non-empty separator: [skip] counts the
    characters of a separator occurrence that are still to be passed. *)
Fixpoint splitGo (sep : string) (skip : nat) (s : string) : list string :=
  match s with
  | "" => [""]
  | String c s' =>
      match skip with
      | S k => splitGo sep k s'
      | O =>
          if HasPrefix s sep
          then "" :: splitGo sep (Nat.pred (String.length sep)) s'
          else consHead c (splitGo sep O s')
      end
  end.

(** [strings.Split(s, sep)] *)
Definition Split (s sep : string) : list string :=
  match sep with
  | "" => explode s
  | _ => splitGo sep O s
  end.

(** [strings.Join(elems, sep)] *)
Definition Join (elems : list string) (sep : string) : string :=
  String.concat sep elems.

Fixpoint replaceGo (old new : string) (skip : nat) (s : string) : string :=
  match s with
  | "" => ""
  | String c s' =>
      match skip with
      | S k => replaceGo old new k s'
      | O =>
          if HasPrefix s old
          then new +:+ replaceGo old new (Nat.pred (String.length old)) s'
          else String c (replaceGo old new O s')
      end
  end.

Fixpoint intersperse (new : string) (s : string) : string :=
  match s with
  | "" => ""
  | String c s' => String c (new +:+ intersperse new s')
  end.

(** [strings.ReplaceAll(s, old, new)]; with an empty [old] Go inserts
    [new] before every character and at the end. *)
Definition ReplaceAll (s old new : string) : string :=
  match old with
  | "" => new +:+ intersperse new s
  | _ => replaceGo old new O s
  end.

Fixpoint allChars (p : ascii -> bool) (s : string) : bool :=
  match s with
  | "" => true
  | String c s' => p c && allChars p s'
  end.

End strings.

(** ** Go's [strconv] and [fmt] on integers *)

Module strconv.

Definition digit (c : ascii) : option Z :=
  let n := Z.of_nat (nat_of_ascii c) in
  if (48 <=? n) && (n <=? 57) then Some (n - 48) else None.

Fixpoint digits (acc : Z) (s : string) : option Z :=
  match s with
  | "" => Some acc
  | String c s' =>
      match digit c with
      | Some d => digits (10 * acc + d) s'
      | None => None
      end
  end.

Definition unsigned (s : string) : option Z :=
  match s with
  | "" => None
  | _ => digits 0 s
  end.

Definition inInt (z : Z) : bool :=
  (- 2 ^ 63 <=? z) && (z <=? 2 ^ 63 - 1).

(** [strconv.Atoi]: an optional sign and decimal digits, within the
    range of a 64-bit [int]; [None] stands for the [*NumError]. *)
Definition Atoi (s : string) : option Z :=
  let r :=
    match s with
    | String "+" s' => unsigned s'
    | String "-" s' => option_map Z.opp (unsigned s')
    | _ => unsigned s
    end in
  match r with
  | Some z => if inInt z then Some z else None
  | None => None
  end.

(** [fmt.Sprint] of an integer. *)
Definition FormatInt (z : Z) : string :=
  NilZero.string_of_int (Z.to_int z).

End strconv.

(** ** Go's [regexp] package

    A regular expression is kept as its syntax tree.  Matching is the
    backtracking search that defines Go's leftmost-first semantics: the
    match starts as early as possible and, among the matches starting
    there, is the one a backtracking search finds first.  The fragment
    covers what the transformer's own patterns use: literals, the Perl
    character classes, concatenation, alternation, greedy repetition,
    numbered groups and the end-of-text anchor.  A pattern with anything
    else ([^], bracket classes, counted or lazy repetition, word
    boundaries, flags) has no syntax tree here.  Matching goes character
    by character, which is Go's matching rune by rune on a text of
    one-byte runes, that is, on ASCII text; results that depend on what a
    match is say so. *)

Module regexp.

Inductive cclass : Type :=
| Digit | NotDigit | Space | NotSpace | Word | NotWord | AnyNoNL.

Definition isDigit (c : ascii) : bool :=
  let n := nat_of_ascii c in (48 <=? n)%nat && (n <=? 57)%nat.

(** [\s] is [[\t\n\f\r ]]. *)
Definition isSpace (c : ascii) : bool :=
  let n := nat_of_ascii c in
  (n =? 9)%nat || (n =? 10)%nat || (n =? 12)%nat || (n =? 13)%nat || (n =? 32)%nat.

Definition isWord (c : ascii) : bool :=
  let n := nat_of_ascii c in
  isDigit c || ((65 <=? n)%nat && (n <=? 90)%nat)
  || ((97 <=? n)%nat && (n <=? 122)%nat) || (n =? 95)%nat.

Definition inClass (cc : cclass) (c : ascii) : bool :=
  match cc with
  | Digit => isDigit c
  | NotDigit => negb (isDigit c)
  | Space => isSpace c
  | NotSpace => negb (isSpace c)
  | Word => isWord c
  | NotWord => negb (isWord c)
  | AnyNoNL => negb (nat_of_ascii c =? 10)%nat
  end.

Inductive regex : Type :=
| Empty
| Lit (a : ascii)
| Class (cc : cclass)
| Cat (r1 r2 : regex)
| Alt (r1 r2 : regex)
| Star (r : regex)
| Group (n : nat) (r : regex)
| Eol.

(** [x+] and [x?], both greedy. *)
Definition Plus (r : regex) : regex := Cat r (Star r).
Definition Quest (r : regex) : regex := Alt r Empty.

(** Submatches found so far, the latest first. *)
Definition caps : Type := list (nat * string).

Fixpoint capture (n : nat) (c : caps) : option string :=
  match c with
  | [] => None
  | (m, s) :: c' => if (m =? n)%nat then Some s else capture n c'
  end.

(** The text consumed between the suffix [s] and its suffix [s']. *)
Definition taken (s s' : string) : string :=
  String.substring 0 (String.length s - String.length s') s.

Section Exec.
Context {R : Type}.

Definition cont : Type := string -> caps -> option R.

(** Greedy iteration: another round first, leaving the loop second.
    A round has to consume input. *)
Fixpoint starLoop (body : string -> caps -> cont -> option R)
    (n : nat) (s : string) (c : caps) (k : cont) : option R :=
  match n with
  | O => k s c
  | S n' =>
      match body s c (fun s1 c1 =>
              if (String.length s1 <? String.length s)%nat
              then starLoop body n' s1 c1 k else None) with
      | Some x => Some x
      | None => k s c
      end
  end.

Fixpoint exec (r : regex) (s : string) (c : caps) (k : cont) : option R :=
  match r with
  | Empty => k s c
  | Lit a =>
      match s with
      | String b s' => if Ascii.eqb a b then k s' c else None
      | "" => None
      end
  | Class cc =>
      match s with
      | String b s' => if inClass cc b then k s' c else None
      | "" => None
      end
  | Cat r1 r2 => exec r1 s c (fun s1 c1 => exec r2 s1 c1 k)
  | Alt r1 r2 =>
      match exec r1 s c k with
      | Some x => Some x
      | None => exec r2 s c k
      end
  | Star r1 => starLoop (exec r1) (S (String.length s)) s c k
  | Group n r1 => exec r1 s c (fun s1 c1 => k s1 ((n, taken s s1) :: c1))
  | Eol =>
      match s with
      | "" => k s c
      | _ => None
      end
  end.
End Exec.

(** One match: the text before it, the match, the text after it and
    the submatches. *)
Record found : Type := Found {
  before : string;
  matched : string;
  after : string;
  groups : caps
}.

Definition matchHere (r : regex) (s : string) : option found :=
  exec r s [] (fun s' c => Some (Found "" (taken s s') s' c)).

Definition shift (a : ascii) (f : found) : found :=
  Found (String a (before f)) (matched f) (after f) (groups f).

(** The leftmost match in [s]. *)
Fixpoint find (r : regex) (s : string) : option found :=
  match matchHere r s with
  | Some f => Some f
  | None =>
      match s with
      | "" => None
      | String a s' => option_map (shift a) (find r s')
      end
  end.

Fixpoint NumSubexp (r : regex) : nat :=
  match r with
  | Cat r1 r2 | Alt r1 r2 => Nat.max (NumSubexp r1) (NumSubexp r2)
  | Star r1 => NumSubexp r1
  | Group n r1 => Nat.max n (NumSubexp r1)
  | _ => O
  end.

Definition MatchString (r : regex) (s : string) : bool :=
  match find r s with Some _ => true | None => false end.

(** [FindStringSubmatch]: the match and the text of every group, or
    the nil slice. *)
Definition FindStringSubmatch (r : regex) (s : string) : list string :=
  match find r s with
  | None => []
  | Some f =>
      matched f ::
      map (fun i => default "" (capture i (groups f))) (seq 1 (NumSubexp r))
  end.

(** *** Replacement templates ([Regexp.Expand]) *)

Definition isNameChar (c : ascii) : bool := isWord c.

Fixpoint spanName (s : string) : string * string :=
  match s with
  | "" => ("", "")
  | String c s' =>
      if isNameChar c
      then let '(n, rest) := spanName s' in (String c n, rest)
      else ("", s)
  end.

(** The number a name stands for; [None] is Go's [-1]. *)
Fixpoint nameNum (acc : Z) (s : string) : option Z :=
  match s with
  | "" => Some acc
  | String c s' =>
      if negb (isDigit c) || (100000000 <=? acc) then None
      else nameNum (10 * acc + (Z.of_nat (nat_of_ascii c) - 48)) s'
  end.

(** [extract]: the name after a [$], its number and the rest. *)
Definition extract (str : string) : option (string * option Z * string) :=
  let '(brace, str1) :=
    match str with
    | String "{" t => (true, t)
    | _ => (false, str)
    end in
  let '(name, rest) := spanName str1 in
  match name with
  | "" => None
  | String c0 name' =>
      let num :=
        match name' with
        | String _ _ => if Ascii.eqb c0 "0" then None else nameNum 0 name
        | "" => nameNum 0 name
        end in
      if brace
      then match rest with
           | String "}" rest' => Some (name, num, rest')
           | _ => None
           end
      else Some (name, num, rest)
  end.

(** [strings.Cut(s, "$")] *)
Fixpoint cutDollar (s : string) : option (string * string) :=
  match s with
  | "" => None
  | String c s' =>
      if Ascii.eqb c "$" then Some ("", s')
      else option_map (fun '(b, a) => (String c b, a)) (cutDollar s')
  end.

(** The text of submatch [n] of a pattern with [nsub] groups; a
    number out of range or a group that did not take part gives the
    empty string. *)
Definition submatch (nsub : nat) (f : found) (n : Z) : string :=
  if n =? 0 then matched f
  else if n <=? Z.of_nat nsub then default "" (capture (Z.to_nat n) (groups f))
  else "".

Fixpoint expandGo (nsub fuel : nat) (template : string) (f : found) : string :=
  match fuel with
  | O => template
  | S fuel' =>
      match cutDollar template with
      | None => template
      | Some (b, a) =>
          b +:+
          match a with
          | String "$" t => String "$" (expandGo nsub fuel' t f)
          | _ =>
              match extract a with
              | None => String "$" (expandGo nsub fuel' a f)
              | Some (_, Some n, rest) =>
                  submatch nsub f n +:+ expandGo nsub fuel' rest f
              | Some (_, None, rest) => expandGo nsub fuel' rest f
              end
          end
      end
  end.

Definition expand (r : regex) (template : string) (f : found) : string :=
  expandGo (NumSubexp r) (S (String.length template)) template f.

(** *** [ReplaceAllString]

    [gap] is the text between the end of the last match and the place
    where the search goes on; [first] holds for the first search only. *)
Fixpoint replaceAll (r : regex) (repl : string) (fuel : nat)
    (first : bool) (gap s : string) : string :=
  match fuel with
  | O => gap +:+ s
  | S fuel' =>
      match find r s with
      | None => gap +:+ s
      | Some f =>
          let here := match before f, matched f with "", "" => true | _, _ => false end in
          let adjacent := match gap with "" => here | _ => false end in
          let out :=
            gap +:+ before f +:+
            (if adjacent && negb first then "" else expand r repl f) in
          if here
          then match s with
               | "" => out
               | String a s' => out +:+ replaceAll r repl fuel' false (String a "") s'
               end
          else out +:+ replaceAll r repl fuel' false "" (after f)
      end
  end.

Definition ReplaceAllString (r : regex) (src repl : string) : string :=
  replaceAll r repl (S (String.length src)) true "" src.

(** *** Pattern syntax

    [Compile] reads the pattern syntax of the fragment: literals,
    [\d \D \s \S \w \W], escaped punctuation, [.], [$], groups,
    [|] and the postfix operators [* + ?].  Groups are numbered by
    their opening parenthesis. *)

Definition parsed : Type := option (regex * string * nat).

Definition cat (r1 r2 : regex) : regex :=
  match r2 with
  | Empty => r1
  | _ => Cat r1 r2
  end.

Definition escape (c : ascii) : option regex :=
  match c with
  | "d" => Some (Class Digit)
  | "D" => Some (Class NotDigit)
  | "s" => Some (Class Space)
  | "S" => Some (Class NotSpace)
  | "w" => Some (Class Word)
  | "W" => Some (Class NotWord)
  | _ => if isWord c then None else Some (Lit c)
  end%char.

Definition postfix (r : regex) (s : string) (n : nat) : parsed :=
  let reject (t : string) : bool :=
    match t with
    | String "*" _ | String "+" _ | String "?" _ => true
    | _ => false
    end in
  match s with
  | String "*" t => if reject t then None else Some (Star r, t, n)
  | String "+" t => if reject t then None else Some (Plus r, t, n)
  | String "?" t => if reject t then None else Some (Quest r, t, n)
  | _ => Some (r, s, n)
  end.

Fixpoint parseAlt (fuel : nat) (s : string) (n : nat) : parsed :=
  match fuel with
  | O => None
  | S fuel' =>
      match parseCat fuel' s n with
      | Some (r1, String "|" s1, n1) =>
          match parseAlt fuel' s1 n1 with
          | Some (r2, s2, n2) => Some (Alt r1 r2, s2, n2)
          | None => None
          end
      | other => other
      end
  end
with parseCat (fuel : nat) (s : string) (n : nat) : parsed :=
  match fuel with
  | O => None
  | S fuel' =>
      match s with
      | "" | String "|" _ | String ")" _ => Some (Empty, s, n)
      | _ =>
          match parseRep fuel' s n with
          | Some (r1, s1, n1) =>
              match parseCat fuel' s1 n1 with
              | Some (r2, s2, n2) => Some (cat r1 r2, s2, n2)
              | None => None
              end
          | None => None
          end
      end
  end
with parseRep (fuel : nat) (s : string) (n : nat) : parsed :=
  match fuel with
  | O => None
  | S fuel' =>
      match s with
      | "" => None
      | String "(" s1 =>
          match parseAlt fuel' s1 (S n) with
          | Some (r, String ")" s2, n2) => postfix (Group n r) s2 n2
          | _ => None
          end
      | String "\" (String c s1) =>
          match escape c with
          | Some r => postfix r s1 n
          | None => None
          end
      | String "." s1 => postfix (Class AnyNoNL) s1 n
      | String "$" s1 => postfix Eol s1 n
      | String c s1 =>
          match c with
          | "*" | "+" | "?" | "[" | "{" | "^" | "\" | ")" | "|" => None
          | _ => postfix (Lit c) s1 n
          end%char
      end
  end.

(** [regexp.Compile] on the fragment; [None] when the pattern is not
    in it. *)
Definition Compile (pat : string) : option regex :=
  match parseAlt (4 * String.length pat + 4) pat 1 with
  | Some (r, "", _) => Some r
  | _ => None
  end.

End regexp.

(** ** Documents, rules and errors *)

(** A decoded document node: what an [interface{}] of a document holds. *)
Inductive node : Type :=
| VNil
| VStr (s : string)
| VInt (z : Z)
| VFloat (f : spec_float)
| VBool (b : bool)
| VMap (m : gmap string node)
| VSlice (l : list node).

(** Modelled from the spec: the rule types of the configuration
    ([pkg/api/v1alpha1] and the [types] package are not among the
    sources).  The fields are those of the configuration schema, which
    are the ones the code reads. *)
Record Gvk : Type := { Group : string; Version : string; Kind : string }.

(** [types.Target], the object reference of a source. *)
Record Target : Type := {
  tgtGvk : Gvk; tgtName : string; tgtNamespace : string
}.

(** [types.Selector], the query of [ResMap.Select]. *)
Record Selector : Type := {
  selGvk : Gvk; selName : string; selNamespace : string;
  AnnotationSelector : string; LabelSelector : string
}.

Record ReplSource : Type := {
  srcObjRef : option Target; FieldRef : string; Value : string
}.

Record ReplTarget : Type := {
  toObjRef : option Selector; FieldRefs : list string
}.

(** A rule; [Target_] is its field [Target]. *)
Record Replacement : Type := {
  Source : option ReplSource; Target_ : option ReplTarget
}.

(** The plugin: the decoded [ReplacementTransformer]. *)
Record plugin : Type := { Replacements : list Replacement }.

(** The collection behind a [resmap.ResMap]: the documents in order.  A
    resource pointer is a position in the collection. *)
Abbreviation ResMap := (list node).

(** Modelled from the spec: the error kinds of the package (its
    [errors.go] is not among the sources), with the fields the code
    fills in; [ErrNumError] is the error of [strconv.Atoi] and
    [ErrExternal] an error of a collaborator. *)
Inductive error : Type :=
| ErrBadConfiguration (Msg : string)
| ErrMultipleResources (ResList : list nat)
| ErrSourceNotFound (ObjRef : Target)
| ErrTargetNotFound (ObjRef : Selector)
| ErrTypeMismatch (Actual : node) (Expectation : string)
| ErrIndexOutOfBound (Index Length : Z)
| ErrMapNotFound (Key Value ListKey : string)
| ErrPatternSubstring (Msg : string)
| ErrNumError (input : string)
| ErrExternal (msg : string).

(** Run-time panics the code can raise. *)
Inductive panic : Type :=
| IndexOutOfRange (index length : Z)
| NilDereference
| RegexpCompile (pat : string).

(** What a call comes back with: a result, a returned error, a panic, or
    no answer within the recursion depth allowed. *)
Inductive result (A : Type) : Type :=
| Ok (a : A)
| Err (e : error)
| Panic (p : panic)
| OutOfFuel.
Arguments Ok {A} a.
Arguments Err {A} e.
Arguments Panic {A} p.
Arguments OutOfFuel {A}.

(** The [error] result of a Go function; [Nil] is [err == nil]. *)
Abbreviation status := (result unit).
Abbreviation Nil := (Ok tt).

(** A failure passed on to the caller as it is (used on failures only). *)
Definition passOn {A B : Type} (r : result A) : result B :=
  match r with
  | Err e => Err e
  | Panic p => Panic p
  | _ => OutOfFuel
  end.

Definition isNil (v : node) : bool :=
  match v with VNil => true | _ => false end.

Definition isMap (v : node) : bool :=
  match v with VMap _ => true | _ => false end.

Definition len {A : Type} (l : list A) : Z := Z.of_nat (length l).

(** [pattern] is [(\S+)\[(\S+)=(\S+)\]]. *)
Definition pattern : regexp.regex :=
  let word := regexp.Plus (regexp.Class regexp.NotSpace) in
  regexp.Cat (regexp.Group 1 word)
    (regexp.Cat (regexp.Lit "[")
       (regexp.Cat (regexp.Group 2 word)
          (regexp.Cat (regexp.Lit "=")
             (regexp.Cat (regexp.Group 3 word) (regexp.Lit "]"))))).

(** [substringPatternRegex] is [(\S+)%(\S+)%$]. *)
Definition substringPatternRegex : regexp.regex :=
  let word := regexp.Plus (regexp.Class regexp.NotSpace) in
  regexp.Cat (regexp.Group 1 word)
    (regexp.Cat (regexp.Lit "%")
       (regexp.Cat (regexp.Group 2 word)
          (regexp.Cat (regexp.Lit "%") regexp.Eol))).

Definition dotReplacer : string := "$$$$".

Definition getFirstPathSegment (path : string) : string * string * string * bool :=
  match regexp.FindStringSubmatch pattern path with
  | [_; g1; g2; g3] => (g1, g2, g3, negb (String.eqb g2 ""))
  | _ => (path, "", "", false)
  end.

(** Extract the substring pattern (if present) from the target path spec *)
Definition extractSubstringPattern (path : string) : string * string :=
  match regexp.FindStringSubmatch substringPatternRegex path with
  | [_; g1; g2] => (g1, g2)
  | _ => (path, "")
  end.

Definition msgReplacementKind : string :=
  "pattern-based substitution can only be applied with string or numeric replacement values".

Definition msgTargetKind : string :=
  "pattern-based substitution can only be applied to string target fields".

Definition msgNotFound (substringPattern tgt : string) : string :=
  "pattern '" +:+ substringPattern +:+
  "' is defined in configuration but was not found in target value " +:+ tgt.

Definition msgMapExpected : string := "is expected to be map[string]interface {}".
Definition msgPrimitive : string := "is not expected be a primitive type".
Definition msgNil : string := "is not expected be nil".

(** The loop both list scans share: the first element whose field [key]
    holds the string [value], with its position; an element that is not a
    map stops the scan with a type mismatch. *)
Fixpoint findItem (key value : string) (l : list node)
    : error + option (nat * gmap string node) :=
  match l with
  | [] => inr None
  | item :: l' =>
      match item with
      | VMap typedItem =>
          match typedItem !! key with
          | Some (VStr actualValue) =>
              if String.eqb value actualValue then inr (Some (O, typedItem))
              else
                match findItem key value l' with
                | inr (Some (i, it)) => inr (Some (S i, it))
                | other => other
                end
          | _ =>
              match findItem key value l' with
              | inr (Some (i, it)) => inr (Some (S i, it))
              | other => other
              end
          end
      | _ => inl (ErrTypeMismatch item msgMapExpected)
      end
  end.

(** The path slice [substitute] computes from one field reference. *)
Definition protectFilter (part : string) : string :=
  if strings.Contains part "]"
  then
    match strings.Split part "]" with
    | f0 :: filter => strings.Join (strings.ReplaceAll f0 "." dotReplacer :: filter) "]"
    | [] => part
    end
  else part.

Fixpoint appendLast (l : list string) (suffix : string) : list string :=
  match l with
  | [] => []
  | [x] => [x +:+ suffix]
  | x :: l' => x :: appendLast l' suffix
  end.

Definition pathSlice (p : string) : list string :=
  let parts := strings.Split p "[" in
  let tmp := map protectFilter parts in
  let p := strings.Join tmp "[" in
  let '(p, substringPattern) := extractSubstringPattern p in
  let pathSlice := strings.Split p "." in
  let pathSlice :=
    if (0 <? String.length substringPattern)%nat
    then appendLast pathSlice ("%" +:+ substringPattern +:+ "%")
    else pathSlice in
  map (fun part => strings.ReplaceAll part dotReplacer ".") pathSlice.

(** The selector [getReplacement] builds from the object reference of a
    source. *)
Definition sourceSelector (objRef : Target) : Selector :=
  {| selGvk := tgtGvk objRef; selName := tgtName objRef;
     selNamespace := tgtNamespace objRef;
     AnnotationSelector := ""; LabelSelector := "" |}.

(** ** The transformer *)

Section Transformer.

(** The collaborators of the package: the pattern compiler of [regexp]
    ([None] when [MustCompile] panics), the query of the resource
    collection (the positions of the selected documents, in order), the
    field reader of a resource and the decoder of the plugin
    configuration. *)
Variable MustCompile : string -> option regexp.regex.
Variable Select : ResMap -> Selector -> string + list nat.
Variable GetFieldValue : node -> string -> string + node.
Variable FromUnstructured : gmap string node -> string + plugin.

(** The loop of [New] over the rules: the error for the first rule it
    refuses. *)
Fixpoint validate (rs : list Replacement) : option error :=
  match rs with
  | [] => None
  | r :: rs' =>
      match Source r, Target_ r with
      | None, _ =>
          Some (ErrBadConfiguration "`from` must be specified in one replacement")
      | Some _, None =>
          Some (ErrBadConfiguration "`to` must be specified in one replacement")
      | Some src, Some _ =>
          match srcObjRef src with
          | Some _ =>
              if negb (String.eqb (Value src) "")
              then Some (ErrBadConfiguration
                           "only one of fieldref and value is allowed in one replacement")
              else validate rs'
          | None => validate rs'
          end
      end
  end.

(** New creates new instance of the plugin *)
Definition New (obj : gmap string node) : error + plugin :=
  match FromUnstructured obj with
  | inl e => inl (ErrExternal e)
  | inr p =>
      match validate (Replacements p) with
      | Some e => inl e
      | None => inr p
      end
  end.

(** apply a substring substitution based on a pattern *)
Definition applySubstringPattern (target replacement : node)
    (substringPattern : string) : result node :=
  if String.eqb substringPattern "" then Ok replacement
  else
    let withString (replacementString : string) : result node :=
      match target with
      | VStr tgt =>
          match MustCompile substringPattern with
          | None => Panic (RegexpCompile substringPattern)
          | Some p =>
              if negb (regexp.MatchString p tgt)
              then Err (ErrPatternSubstring (msgNotFound substringPattern tgt))
              else Ok (VStr (regexp.ReplaceAllString p tgt replacementString))
          end
      | _ => Err (ErrPatternSubstring msgTargetKind)
      end in
    match replacement with
    | VInt t => withString (strconv.FormatInt t)
    | VStr t => withString t
    | _ => Err (ErrPatternSubstring msgReplacementKind)
    end.

Section Fields.

(** The recursive call [updateField(...)] made by the two functions
    below. *)
Variable updateField : node -> list string -> node -> node * status.

Definition updateMapField (m : gmap string node) (pathToField : list string)
    (replacement : node) : gmap string node * status :=
  match pathToField with
  | [] => (m, Panic (IndexOutOfRange 0 0))
  | segment :: rest =>
      let '(path, key, value, isArray) := getFirstPathSegment segment in
      let '(path, substringPattern) := extractSubstringPattern path in
      let '(m, v) :=
        match m !! path with
        | Some v => (m, v)
        | None => (<[path := VMap ∅]> m, VMap ∅)
        end in
      let descend (v : node) (pathToField : list string) :=
        let '(v', st) := updateField v pathToField replacement in
        (<[path := v']> m, st) in
      if isNil v then (m, Err (ErrTypeMismatch v msgNil))
      else
        match rest with
        | [] =>
            if negb isArray
            then
              match applySubstringPattern v replacement substringPattern with
              | Ok renderedRepl => (<[path := renderedRepl]> m, Nil)
              | other => (m, passOn other)
              end
            else
              match v with
              | VSlice typedV =>
                  match findItem key value typedV with
                  | inl e => (m, Err e)
                  | inr (Some (i, _)) =>
                      (<[path := VSlice (<[i := replacement]> typedV)]> m, Nil)
                  | inr None => descend v pathToField
                  end
              | _ => (m, Err (ErrTypeMismatch v msgPrimitive))
              end
        | _ :: _ =>
            if isArray then descend v pathToField else descend v rest
        end
  end.

Definition updateSliceField (m : list node) (pathToField : list string)
    (replacement : node) : list node * status :=
  match pathToField with
  | [] => (m, Nil)
  | segment :: rest =>
      let '(path, key, value, isArray) := getFirstPathSegment segment in
      if isArray
      then
        match findItem key value m with
        | inl e => (m, Err e)
        | inr (Some (i, typedItem)) =>
            let '(v', st) := updateField (VMap typedItem) rest replacement in
            (<[i := v']> m, st)
        | inr None => (m, Err (ErrMapNotFound key value path))
        end
      else
        match strconv.Atoi segment with
        | None => (m, Err (ErrNumError segment))
        | Some index =>
            if (len m <? index) || (index <? 0)
            then (m, Err (ErrIndexOutOfBound index (len m)))
            else
              match m !! Z.to_nat index with
              | None => (m, Panic (IndexOutOfRange index (len m)))
              | Some item =>
                  match rest with
                  | [] => (<[Z.to_nat index := replacement]> m, Nil)
                  | _ :: _ =>
                      let '(v', st) := updateField item rest replacement in
                      (<[Z.to_nat index := v']> m, st)
                  end
              end
        end
  end.

End Fields.

(** [fuel] bounds the depth of the recursion. *)
Fixpoint updateField (fuel : nat) (m : node) (pathToField : list string)
    (replacement : node) : node * status :=
  match fuel with
  | O => (m, OutOfFuel)
  | S fuel' =>
      match pathToField with
      | [] => (m, Nil)
      | _ :: _ =>
          match m with
          | VMap typedM =>
              let '(m', st) :=
                updateMapField (updateField fuel') typedM pathToField replacement in
              (VMap m', st)
          | VSlice typedM =>
              let '(m', st) :=
                updateSliceField (updateField fuel') typedM pathToField replacement in
              (VSlice m', st)
          | _ => (m, Err (ErrTypeMismatch m msgPrimitive))
          end
      end
  end.

Definition getReplacement (m : ResMap) (objRef : Target) (fieldRef : string)
    : result node :=
  let s := sourceSelector objRef in
  match Select m s with
  | inl e => Err (ErrExternal e)
  | inr resources =>
      if (1 <? len resources) then Err (ErrMultipleResources resources)
      else
        match resources with
        | [] => Err (ErrSourceNotFound objRef)
        | r0 :: _ =>
            let fieldRef :=
              if String.eqb fieldRef "" then "metadata.name" else fieldRef in
            match m !! r0 with
            | None => Panic NilDereference
            | Some doc =>
                match GetFieldValue doc fieldRef with
                | inl e => Err (ErrExternal e)
                | inr v => Ok v
                end
            end
        end
  end.

(** The inner loop of [substitute]: the field references applied in
    turn to the document at position [r].  The replacement is written
    into the document as a value of its own (see the head of the file
    for what the Go code shares). *)
Fixpoint substituteFields (fuel : nat) (m : ResMap) (r : nat)
    (fieldRefs : list string) (replacement : node) : ResMap * status :=
  match fieldRefs with
  | [] => (m, Nil)
  | p :: fieldRefs' =>
      match m !! r with
      | None => (m, Panic NilDereference)
      | Some doc =>
          let '(doc', st) := updateField fuel doc (pathSlice p) replacement in
          let m' := <[r := doc']> m in
          match st with
          | Ok _ => substituteFields fuel m' r fieldRefs' replacement
          | _ => (m', st)
          end
      end
  end.

(** The outer loop of [substitute], over the selected documents. *)
Fixpoint substituteResources (fuel : nat) (m : ResMap) (resources : list nat)
    (fieldRefs : list string) (replacement : node) : ResMap * status :=
  match resources with
  | [] => (m, Nil)
  | r :: resources' =>
      match substituteFields fuel m r fieldRefs replacement with
      | (m', Ok _) => substituteResources fuel m' resources' fieldRefs replacement
      | other => other
      end
  end.

Definition substitute (fuel : nat) (m : ResMap) (to : option ReplTarget)
    (replacement : node) : ResMap * status :=
  match to with
  | None => (m, Panic NilDereference)
  | Some to =>
      match toObjRef to with
      | None => (m, Panic NilDereference)
      | Some objRef =>
          match Select m objRef with
          | inl e => (m, Err (ErrExternal e))
          | inr resources =>
              match resources with
              | [] => (m, Err (ErrTargetNotFound objRef))
              | _ :: _ =>
                  substituteResources fuel m resources (FieldRefs to) replacement
              end
          end
      end
  end.

(** One round of the loop of [Transform]. *)
Definition transformOne (fuel : nat) (m : ResMap) (r : Replacement)
    : ResMap * status :=
  match Source r with
  | None => (m, Panic NilDereference)
  | Some src =>
      let resolved : result node :=
        match srcObjRef src with
        | Some objRef => getReplacement m objRef (FieldRef src)
        | None => Ok VNil
        end in
      match resolved with
      | Ok replacement =>
          let replacement :=
            if negb (String.eqb (Value src) "") then VStr (Value src)
            else replacement in
          substitute fuel m (Target_ r) replacement
      | other => (m, passOn other)
      end
  end.

(** Transform resources using configured replacements *)
Fixpoint Transform (fuel : nat) (rs : list Replacement) (m : ResMap)
    : ResMap * status :=
  match rs with
  | [] => (m, Nil)
  | r :: rs' =>
      match transformOne fuel m r with
      | (m', Ok _) => Transform fuel rs' m'
      | other => other
      end
  end.

End Transformer.

(** ** Validation of the command-line options ([pkg/config/options.go]) *)

Module config.

(** The error types of package [config] and [errors.ErrNotImplemented]
    are declared outside the sources at hand; one constructor stands
    for each type the code returns, with the fields the code fills in.
    [InternalErr] is the text of the error of [os.Stat]. *)
Inductive error : Type :=
| ErrConflictingAuthOptions
| ErrEmptyContextName
| ErrConflictingContextOptions
| ErrEmptyClusterName
| ErrConflictingClusterOptions
| ErrMissingFlag (FlagName : string)
| ErrCheckFile (FlagName Path InternalErr : string)
| ErrMissingManifestName
| ErrNotImplemented (What : string)
| ErrMissingRepositoryName
| ErrMutuallyExclusiveCheckout
| ErrMissingEncryptionConfigName
| ErrMutuallyExclusiveEncryptionConfigType
| ErrInvalidEncryptionKeyPath
| ErrInvalidEncryptionKey
| ErrMissingConfig (What : string)
| ErrInvalidConfig (What : string).

(** [s != ""] *)
Definition given (s : string) : bool := negb (String.eqb s "").

Section FileSystem.

(** [os.Stat] on the file system as the call finds it: [None] when the
    path is there, the text of the error otherwise. *)
Variable Stat : string -> option string.

Definition checkExists (flagName path : string) : option error :=
  if String.eqb path "" then Some (ErrMissingFlag flagName)
  else
    match Stat path with
    | Some err => Some (ErrCheckFile flagName path err)
    | None => None
    end.

End FileSystem.

Module AuthInfoOptions.

(** AuthInfoOptions holds all configurable options for
    authentication information or credential *)
Record t : Type := {
  Name : string;
  ClientCertificate : string;
  ClientKey : string;
  Token : string;
  Username : string;
  Password : string;
  EmbedCertData : bool
}.

(** Validate checks for the possible authentication values and returns
    Error when invalid value or incompatible choice of values given *)
Definition Validate (Stat : string -> option string) (o : t) : option error :=
  if given (Token o) && (given (Username o) || given (Password o))
  then Some ErrConflictingAuthOptions
  else if negb (EmbedCertData o) then None
  else
    match checkExists Stat "client-certificate" (ClientCertificate o) with
    | Some err => Some err
    | None =>
        match checkExists Stat "client-key" (ClientKey o) with
        | Some err => Some err
        | None => None
        end
    end.

End AuthInfoOptions.

Module ContextOptions.

(** ContextOptions holds all configurable options for context *)
Record t : Type := {
  Name : string;
  ClusterType : string;
  CurrentContext : bool;
  Cluster : string;
  AuthInfo : string;
  Manifest : string;
  EncryptionConfig : string;
  Namespace : string;
  Current : bool
}.

(** Validate checks for the possible context option values and returns
    Error when invalid value or incompatible choice of values given.
    [ValidClusterType] is a function of the package outside the sources
    at hand. *)
Definition Validate (ValidClusterType : string -> option error) (o : t)
    : option error :=
  if negb (Current o) && String.eqb (Name o) "" then Some ErrEmptyContextName
  else if Current o && given (Name o) then Some ErrConflictingContextOptions
  else if CurrentContext o then None
  else if given (ClusterType o)
  then
    match ValidClusterType (ClusterType o) with
    | Some err => Some err
    | None => None
    end
  else None.

End ContextOptions.

Module ClusterOptions.

(** ClusterOptions holds all configurable options for cluster configuration *)
Record t : Type := {
  Name : string;
  ClusterType : string;
  Server : string;
  InsecureSkipTLSVerify : bool;
  CertificateAuthority : string;
  EmbedCAData : bool
}.

(** Validate checks for the possible cluster option values and returns
    Error when invalid value or incompatible choice of values given *)
Definition Validate (ValidClusterType : string -> option error)
    (Stat : string -> option string) (o : t) : option error :=
  if String.eqb (Name o) "" then Some ErrEmptyClusterName
  else
    match ValidClusterType (ClusterType o) with
    | Some err => Some err
    | None =>
        if InsecureSkipTLSVerify o && given (CertificateAuthority o)
        then Some ErrConflictingClusterOptions
        else if negb (EmbedCAData o) then None
        else
          match checkExists Stat "certificate-authority" (CertificateAuthority o) with
          | Some err => Some err
          | None => None
          end
    end.

End ClusterOptions.

Module ManifestOptions.

(** ManifestOptions holds all configurable options for manifest configuration *)
Record t : Type := {
  Name : string;
  RepoName : string;
  URL : string;
  Branch : string;
  CommitHash : string;
  Tag : string;
  RemoteRef : string;
  Force : bool;
  IsPrimary : bool;
  SubPath : string;
  TargetPath : string
}.

(** The loop of [Validate]: how many of the values are given. *)
Fixpoint countGiven (count : Z) (possibleValues : list string) : Z :=
  match possibleValues with
  | [] => count
  | val :: rest => countGiven (if given val then count + 1 else count) rest
  end.

(** Validate checks for the possible manifest option values and returns
    Error when invalid value or incompatible choice of values given *)
Definition Validate (o : t) : option error :=
  if String.eqb (Name o) "" then Some ErrMissingManifestName
  else if given (RemoteRef o)
  then Some (ErrNotImplemented "repository checkout by RemoteRef")
  else if IsPrimary o && String.eqb (RepoName o) ""
  then Some ErrMissingRepositoryName
  else
    let possibleValues := [CommitHash o; Branch o; Tag o] in
    let count := countGiven 0 possibleValues in
    if 1 <? count then Some ErrMutuallyExclusiveCheckout else None.

End ManifestOptions.

Module EncryptionConfigOptions.

(** EncryptionConfigOptions holds all configurable options for encryption configuration *)
Record t : Type := {
  Name : string;
  EncryptionKeyPath : string;
  DecryptionKeyPath : string;
  KeySecretName : string;
  KeySecretNamespace : string
}.

Definition backedByFileSystem (o : t) : bool :=
  given (EncryptionKeyPath o) || given (DecryptionKeyPath o).

Definition backedByAPIServer (o : t) : bool :=
  given (KeySecretName o) || given (KeySecretNamespace o).

(** The [switch] of [Validate]: the error it returns, if any. *)
Definition validateKind (o : t) : option error :=
  if String.eqb (Name o) "" then Some ErrMissingEncryptionConfigName
  else if Bool.eqb (backedByFileSystem o) (backedByAPIServer o)
  then Some ErrMutuallyExclusiveEncryptionConfigType
  else if backedByFileSystem o
  then
    if String.eqb (EncryptionKeyPath o) "" || String.eqb (DecryptionKeyPath o) ""
    then Some ErrInvalidEncryptionKeyPath
    else None
  else if backedByAPIServer o
  then
    if String.eqb (KeySecretName o) "" || String.eqb (KeySecretNamespace o) ""
    then Some ErrInvalidEncryptionKey
    else None
  else None.

(** Validate checks for the possible errors with encryption config
    Error when invalid value, incompatible choice of values given or if the
    key file paths do not exist in the file system *)
Definition Validate (Stat : string -> option string) (o : t) : option error :=
  match validateKind o with
  | Some err => Some err
  | None =>
      if backedByFileSystem o
      then
        match checkExists Stat "encryption-key-path" (EncryptionKeyPath o) with
        | Some err => Some err
        | None =>
            match checkExists Stat "decryption-key-path" (EncryptionKeyPath o) with
            | Some err => Some err
            | None => None
            end
        end
      else None
  end.

End EncryptionConfigOptions.

End config.

(** ** The inputs of the ISO builder ([verifyInputs] of package [isogen]) *)

Module isogen.

(** The types of [v1alpha1] are declared outside the sources at hand;
    the records hold the fields the code of the package reads.  The
    image configuration points to its container and builder parts, and a
    pointer can be nil. *)
Record Container : Type := {
  Volume : string; Image : string; ContainerRuntime : string
}.

Record Builder : Type := {
  UserDataFileName : string;
  NetworkConfigFileName : string;
  OutputMetadataFileName : string
}.

Record ImageConfiguration : Type := {
  Container_ : option Container; Builder_ : option Builder
}.

(** What [verifyInputs] comes back with: nil, an error, or a panic on a
    nil pointer. *)
Inductive outcome : Type :=
| Passed
| Failed (err : config.error)
| NilPointer.

(** [cfg.Container.Volume = volume] *)
Definition withVolume (cfg : ImageConfiguration) (container : Container)
    (volume : string) : ImageConfiguration :=
  {| Container_ := Some {| Volume := volume; Image := Image container;
                           ContainerRuntime := ContainerRuntime container |};
     Builder_ := Builder_ cfg |}.

(** The configuration as the call leaves it, and the outcome. *)
Definition verifyInputs (cfg : ImageConfiguration) : ImageConfiguration * outcome :=
  match Container_ cfg with
  | None => (cfg, NilPointer)
  | Some container =>
      if String.eqb (Volume container) ""
      then (cfg, Failed (config.ErrMissingConfig
                           "Must specify volume bind for ISO builder container"))
      else
        match Builder_ cfg with
        | None => (cfg, NilPointer)
        | Some builder =>
            if String.eqb (UserDataFileName builder) ""
               || String.eqb (NetworkConfigFileName builder) ""
            then (cfg, Failed (config.ErrMissingConfig
                    "UserDataFileName or NetworkConfigFileName are not specified in ISO builder config"))
            else
              let vols := strings.Split (Volume container) ":" in
              if len vols =? 1
              then
                let vols0 := default "" (head vols) in
                (withVolume cfg container (vols0 +:+ ":" +:+ vols0), Passed)
              else if 2 <? len vols
              then (cfg, Failed (config.ErrInvalidConfig
                      "Bad container volume format. Use hostPath:contPath"))
              else (cfg, Passed)
        end
  end.

(** [strings.Split(cfg.Container.Volume, ":")[i]], as [getContainerCfg],
    [verifyArtifacts] and [createBootstrapIso] take the host and the
    container part of the volume; [None] is the panic of an index out of
    range or of a nil pointer. *)
Definition volumePart (cfg : ImageConfiguration) (i : nat) : option string :=
  match Container_ cfg with
  | None => None
  | Some container => strings.Split (Volume container) ":" !! i
  end.

End isogen.

(** ** Documents used in the examples *)

Module Examples.

Definition obj (fields : list (string * node)) : node :=
  VMap (list_to_map fields).

(** [items: [a, b]] and [items: [a, b, c]] *)
Definition items2 : node := obj [("items", VSlice [VStr "a"; VStr "b"])].
Definition items3 : node :=
  obj [("items", VSlice [VStr "a"; VStr "b"; VStr "c"])].

(** [metadata: {name: cm}], without labels *)
Definition noLabels : node := obj [("metadata", obj [("name", VStr "cm")])].

(** [data: {endpoint: "host:10.0.0.5:8080", name: gateway}] *)
Definition endpoint : node :=
  obj [("data", obj [("endpoint", VStr "host:10.0.0.5:8080");
                     ("name", VStr "gateway")])].

(** [containers: [{name: db}, {name: app, image: old}]] *)
Definition containers : node :=
  obj [("containers",
        VSlice [obj [("name", VStr "db")];
                obj [("name", VStr "app"); ("image", VStr "old")]])].


(** [{name: cm}] *)
Definition cm : gmap string node := <["name" := VStr "cm"]> ∅.

(** A resource collection queried by kind and, when the selector gives
    one, by name; fields read along a dotted path of mapping keys. *)
Fixpoint lookupPath (d : node) (keys : list string) : option node :=
  match keys with
  | [] => Some d
  | k :: keys' =>
      match d with
      | VMap m =>
          match m !! k with
          | Some v => lookupPath v keys'
          | None => None
          end
      | _ => None
      end
  end.

Definition field (d : node) (p : string) : string :=
  match lookupPath d (strings.Split p ".") with
  | Some (VStr s) => s
  | _ => ""
  end.

Definition selects (s : Selector) (d : node) : bool :=
  String.eqb (Kind (selGvk s)) (field d "kind")
  && (String.eqb (selName s) "" || String.eqb (selName s) (field d "metadata.name")).

Fixpoint positions (f : node -> bool) (i : nat) (m : list node) : list nat :=
  match m with
  | [] => []
  | d :: m' => if f d then i :: positions f (S i) m' else positions f (S i) m'
  end.

Definition Select (m : ResMap) (s : Selector) : string + list nat :=
  inr (positions (selects s) O m).

Definition GetFieldValue (d : node) (p : string) : string + node :=
  match lookupPath d (strings.Split p ".") with
  | Some v => inr v
  | None => inl ("no field named " +:+ p)
  end.

Definition kind (k : string) : Gvk := {| Group := ""; Version := ""; Kind := k |}.

Definition ref (k name : string) : Target :=
  {| tgtGvk := kind k; tgtName := name; tgtNamespace := "" |}.

Definition sel (k name : string) : Selector :=
  {| selGvk := kind k; selName := name; selNamespace := "";
     AnnotationSelector := ""; LabelSelector := "" |}.

Definition resource (k name : string) (fields : list (string * node)) : node :=
  obj (("kind", VStr k) :: ("metadata", obj [("name", VStr name)]) :: fields).

(** Rules: a literal written to fields of the documents of a kind, and a
    field of one document copied to fields of the documents of a kind. *)
Definition literal (v k : string) (refs : list string) : Replacement :=
  {| Source := Some {| srcObjRef := None; FieldRef := ""; Value := v |};
     Target_ := Some {| toObjRef := Some (sel k ""); FieldRefs := refs |} |}.

Definition copy (from : Target) (fieldRef k : string) (refs : list string)
  : Replacement :=
  {| Source := Some {| srcObjRef := Some from; FieldRef := fieldRef; Value := "" |};
     Target_ := Some {| toObjRef := Some (sel k ""); FieldRefs := refs |} |}.

(** A decoder of configurations already in rule form. *)
Definition decoded (rs : list Replacement) (_ : gmap string node) : string + plugin :=
  inr {| Replacements := rs |}.

(** Two clusters and one config document. *)
Definition cluster (name host : string) : node :=
  resource "Cluster" name [("spec", obj [("host", VStr host)])].

Definition config : node :=
  resource "Config" "kubeadm"
    [("spec", obj [("sans", VSlice [VStr "old"; VStr "keep"])])].

Definition collection : ResMap := [cluster "c1" "10.0.0.10"; config].
Definition twoClusters : ResMap :=
  [cluster "c1" "10.0.0.10"; cluster "c1" "10.0.0.11"; config].

End Examples.

(** ** Vocabulary of the results *)

(** The call came back within the depth it was allowed. *)
Definition answers {A : Type} (r : A * status) : Prop := snd r <> OutOfFuel.

(** The element is a mapping whose field [key] holds the string [value]. *)
Definition holds (key value : string) (v : node) : bool :=
  match v with
  | VMap typedItem =>
      match typedItem !! key with
      | Some (VStr actualValue) => String.eqb value actualValue
      | _ => false
      end
  | _ => false
  end.

(** A rule that [New] refuses. *)
Definition malformed (r : Replacement) : Prop :=
  Source r = None
  \/ Target_ r = None
  \/ exists src objRef,
       Source r = Some src /\ srcObjRef src = Some objRef /\ Value src <> "".

(** A character that occurs in a string. *)
Fixpoint occurs (c : ascii) (s : string) : bool :=
  match s with
  | "" => false
  | String x s' => Ascii.eqb c x || occurs c s'
  end.

(** The texts a pattern matches: [Lang r a b] when [r] matches [a] with
    [b] following it. *)
Inductive Lang : regexp.regex -> string -> string -> Prop :=
| Lang_Empty b : Lang regexp.Empty "" b
| Lang_Lit x b : Lang (regexp.Lit x) (String x "") b
| Lang_Class cc x b :
    regexp.inClass cc x = true -> Lang (regexp.Class cc) (String x "") b
| Lang_Cat r1 r2 a1 a2 b :
    Lang r1 a1 (a2 +:+ b) -> Lang r2 a2 b -> Lang (regexp.Cat r1 r2) (a1 +:+ a2) b
| Lang_AltL r1 r2 a b : Lang r1 a b -> Lang (regexp.Alt r1 r2) a b
| Lang_AltR r1 r2 a b : Lang r2 a b -> Lang (regexp.Alt r1 r2) a b
| Lang_Star0 r b : Lang (regexp.Star r) "" b
| Lang_StarS r a1 a2 b :
    a1 <> "" -> Lang r a1 (a2 +:+ b) -> Lang (regexp.Star r) a2 b ->
    Lang (regexp.Star r) (a1 +:+ a2) b
| Lang_Group n r a b : Lang r a b -> Lang (regexp.Group n r) a b
| Lang_Eol : Lang regexp.Eol "" "".

(** No match of the pattern starts at position [n] of [s]. *)
Definition noMatchAt (r : regexp.regex) (s : string) (n : nat) : Prop :=
  forall p a b, s = p +:+ a +:+ b -> String.length p = n -> ~ Lang r a b.


(** The text a replacement value stands for under a pattern. *)
Definition replacementString (replacement : node) : option string :=
  match replacement with
  | VStr t => Some t
  | VInt t => Some (strconv.FormatInt t)
  | _ => None
  end.

Definition protectDots (s : string) : string := strings.ReplaceAll s "." dotReplacer.
Definition restoreDots (s : string) : string := strings.ReplaceAll s dotReplacer ".".

(** [Protected p t]: [t] is [p] with some of its dots replaced by the
    sentinel. *)
Inductive Protected : string -> string -> Prop :=
| Protected_nil : Protected "" ""
| Protected_keep x p t : Protected p t -> Protected (String x p) (String x t)
| Protected_dot p t : Protected p t -> Protected (String "." p) (dotReplacer +:+ t).

(** The path with the dots of its filters protected, as [substitute]
    builds it before looking for a substring pattern. *)
Definition protectPath (p : string) : string :=
  strings.Join (map protectFilter (strings.Split p "[")) "[".

Abbreviation notSpace := (regexp.inClass regexp.NotSpace).

(** [%(\S+)%$], the part of [substringPatternRegex] after its first group. *)
Definition patternSuffix : regexp.regex :=
  regexp.Cat (regexp.Lit "%")
    (regexp.Cat (regexp.Group 2 (regexp.Plus (regexp.Class regexp.NotSpace)))
       (regexp.Cat (regexp.Lit "%") regexp.Eol)).

(** A text that ends with a substring pattern: [g1%g2%], both parts
    without white space and not empty. *)
Definition endsWithPattern (t g1 g2 : string) : Prop :=
  t = g1 +:+ String "%" (g2 +:+ "%")
  /\ g1 <> "" /\ g2 <> ""
  /\ strings.allChars notSpace g1 = true
  /\ strings.allChars notSpace g2 = true.

(** The segments [substitute] cuts the protected path into, before the
    dots are restored. *)
Definition segments (t : string) : list string :=
  let '(q, substringPattern) := extractSubstringPattern t in
  if (0 <? String.length substringPattern)%nat
  then appendLast (strings.Split q ".") ("%" +:+ substringPattern +:+ "%")
  else strings.Split q ".".

(** The key of a mapping that a path step names: the step without its
    filter and without its substring pattern. *)
Definition stepKey (segment : string) : string :=
  let '(path, _, _, _) := getFirstPathSegment segment in
  fst (extractSubstringPattern path).

(** A step that carries a filter, [name[key=value]]. *)
Definition isFilter (segment : string) : bool :=
  let '(_, _, _, isArray) := getFirstPathSegment segment in isArray.

(** A step that is a field name or an index and nothing more: no filter
    and no substring pattern is read out of it. *)
Definition plain (segment : string) : Prop :=
  getFirstPathSegment segment = (segment, "", "", false)
  /\ extractSubstringPattern segment = (segment, "").

(** The node a path of plain steps leads to: a field name in a mapping,
    an index in a sequence. *)
Fixpoint readPath (d : node) (path : list string) : option node :=
  match path with
  | [] => Some d
  | segment :: rest =>
      match d with
      | VMap m =>
          match m !! segment with
          | Some v => readPath v rest
          | None => None
          end
      | VSlice l =>
          match strconv.Atoi segment with
          | Some index =>
              if index <? 0 then None
              else
                match l !! Z.to_nat index with
                | Some v => readPath v rest
                | None => None
                end
          | None => None
          end
      | _ => None
      end
  end.

(** A field reference whose steps carry no filter and are fewer than
    the depth [fuel]. *)
Definition workedOff (fuel : nat) (p : string) : Prop :=
  Forall (fun segment => isFilter segment = false) (pathSlice p)
  /\ (length (pathSlice p) < fuel)%nat.





(** ** Results *)

(** *** Index steps on sequences *)

(** An index step on a sequence: a negative index or one beyond the
    length is reported, the index equal to the length passes the check
    and the access panics, an index within the sequence is used. *)
Lemma updateSliceField_index rec (m : list node) segment rest replacement index :
  getFirstPathSegment segment = (segment, "", "", false) ->
  strconv.Atoi segment = Some index ->
  updateSliceField rec m (segment :: rest) replacement =
    if (len m <? index) || (index <? 0)
    then (m, Err (ErrIndexOutOfBound index (len m)))
    else if index =? len m then (m, Panic (IndexOutOfRange index (len m)))
    else match rest with
         | [] => (<[Z.to_nat index := replacement]> m, Nil)
         | _ :: _ =>
             let '(v', st) := rec (default VNil (m !! Z.to_nat index)) rest replacement in
             (<[Z.to_nat index := v']> m, st)
         end.
Proof.
  intros Hseg Hidx. unfold updateSliceField. rewrite Hseg, Hidx. cbn [negb].
  destruct ((len m <? index) || (index <? 0)) eqn:Hb; [reflexivity|].
  apply orb_false_iff in Hb as [H1 H2].
  apply Z.ltb_ge in H1, H2. unfold len in *.
  destruct (index =? Z.of_nat (length m)) eqn:He.
  - apply Z.eqb_eq in He. subst index. rewrite Nat2Z.id.
    rewrite (lookup_ge_None_2 m (length m)) by lia. reflexivity.
  - apply Z.eqb_neq in He.
    destruct (lookup_lt_is_Some_2 m (Z.to_nat index)) as [item Hitem]; [lia|].
    rewrite Hitem. reflexivity.
Qed.

(** C1 (the code at the failing input).  Field [items] holds a sequence
    and the next step is the index 2: on a sequence of two elements the
    bounds check lets the index through and the access panics, no
    ErrIndexOutOfBound is returned; on a sequence of three elements the
    element at index 2 is overwritten; index 3 on two elements is
    reported.  An index step is written as a segment of its own
    ([items.2]); [items[2]] is no filter and names a field. *)
Theorem index_equal_to_length_panics (MustCompile : string -> option regexp.regex) :
  updateField MustCompile 2 Examples.items2 ["items"; "2"] (VStr "new")
    = (Examples.items2, Panic (IndexOutOfRange 2 2))
  /\ updateField MustCompile 2 Examples.items2 ["items"; "3"] (VStr "new")
    = (Examples.items2, Err (ErrIndexOutOfBound 3 2))
  /\ updateField MustCompile 2 Examples.items3 ["items"; "2"] (VStr "new")
    = (Examples.obj [("items", VSlice [VStr "a"; VStr "b"; VStr "new"])], Nil)
  /\ pathSlice "items.2" = ["items"; "2"]
  /\ pathSlice "items[2]" = ["items[2]"]
  /\ updateField MustCompile 2 Examples.items2 ["items[2]"] (VStr "new")
    = (Examples.obj [("items", VSlice [VStr "a"; VStr "b"]);
                     ("items[2]", VStr "new")], Nil).
Proof. repeat split; vm_compute; reflexivity. Qed.

(** *** Recursion depth

    A call that answers within some depth gives the same answer at every
    larger depth. *)

Lemma updateMapField_ext MustCompile rec1 rec2 m pathToField replacement :
  (forall v p, answers (rec1 v p replacement) ->
               rec2 v p replacement = rec1 v p replacement) ->
  answers (updateMapField MustCompile rec1 m pathToField replacement) ->
  updateMapField MustCompile rec2 m pathToField replacement
    = updateMapField MustCompile rec1 m pathToField replacement.
Proof.
  intros Hrec. unfold updateMapField, answers.
  destruct pathToField as [|segment rest]; [reflexivity|].
  destruct (getFirstPathSegment segment) as [[[p0 key] value] isArray].
  destruct (extractSubstringPattern p0) as [path pat].
  destruct (m !! path) as [v|]; destruct (isNil _); try reflexivity.
  all: destruct rest as [|s rest]; destruct isArray; cbn [negb]; try reflexivity.
  all: repeat match goal with
       | |- context [match ?v with VSlice _ => _ | _ => _ end] =>
           destruct v; try reflexivity
       | |- context [findItem ?k ?x ?l] =>
           destruct (findItem k x l) as [?|[[? ?]|]]; try reflexivity
       end.
  all: match goal with
       | H : forall v p, answers (?f v p ?x) -> _ |- context [?f ?v ?p ?x] =>
           intros Ha; rewrite (H v p);
           [reflexivity | unfold answers; destruct (f v p x); exact Ha]
       end.
Qed.

Lemma updateSliceField_ext rec1 rec2 m pathToField replacement :
  (forall v p, answers (rec1 v p replacement) ->
               rec2 v p replacement = rec1 v p replacement) ->
  answers (updateSliceField rec1 m pathToField replacement) ->
  updateSliceField rec2 m pathToField replacement
    = updateSliceField rec1 m pathToField replacement.
Proof.
  intros Hrec. unfold updateSliceField, answers.
  destruct pathToField as [|segment rest]; [reflexivity|].
  destruct (getFirstPathSegment segment) as [[[p0 key] value] isArray].
  destruct isArray.
  - destruct (findItem key value m) as [?|[[i it]|]]; try reflexivity.
    intros Ha. rewrite (Hrec (VMap it) rest); [reflexivity|].
    unfold answers. destruct (rec1 (VMap it) rest replacement). exact Ha.
  - destruct (strconv.Atoi segment) as [index|]; [|reflexivity].
    destruct (_ || _); [reflexivity|].
    destruct (m !! Z.to_nat index) as [item|]; [|reflexivity].
    destruct rest as [|s rest]; [reflexivity|].
    intros Ha. rewrite (Hrec item (s :: rest)); [reflexivity|].
    unfold answers. destruct (rec1 item (s :: rest) replacement). exact Ha.
Qed.

Lemma updateField_fuel_mono MustCompile fuel fuel' m pathToField replacement :
  (fuel <= fuel')%nat ->
  answers (updateField MustCompile fuel m pathToField replacement) ->
  updateField MustCompile fuel' m pathToField replacement
    = updateField MustCompile fuel m pathToField replacement.
Proof.
  revert fuel' m pathToField.
  induction fuel as [|fuel IH]; intros fuel' m pathToField Hle Ha.
  { exfalso. apply Ha. reflexivity. }
  destruct fuel' as [|fuel']; [lia|].
  cbn [updateField] in *.
  destruct pathToField as [|segment rest]; [reflexivity|].
  destruct m; try reflexivity.
  - rewrite (updateMapField_ext MustCompile (updateField MustCompile fuel)
               (updateField MustCompile fuel')); [reflexivity| |].
    + intros v p Hv. apply IH; [lia|exact Hv].
    + unfold answers in *.
      destruct (updateMapField _ _ _ _ _). exact Ha.
  - rewrite (updateSliceField_ext (updateField MustCompile fuel)
               (updateField MustCompile fuel')); [reflexivity| |].
    + intros v p Hv. apply IH; [lia|exact Hv].
    + unfold answers in *.
      destruct (updateSliceField _ _ _ _). exact Ha.
Qed.

(** A filter step that is not the last, on a field the mapping lacks:
    the call creates an empty mapping and calls itself on it with the
    same path, at every depth. *)
Lemma filter_on_absent_field_never_answers MustCompile fuel m segment p0 key value
    path pat s rest replacement :
  getFirstPathSegment segment = (p0, key, value, true) ->
  extractSubstringPattern p0 = (path, pat) ->
  m !! path = None ->
  snd (updateField MustCompile fuel (VMap m) (segment :: s :: rest) replacement)
    = OutOfFuel.
Proof.
  intros Hseg Hpath. revert m.
  induction fuel as [|fuel IH]; intros m Hnone; [reflexivity|].
  cbn [updateField]. unfold updateMapField.
  rewrite Hseg, Hpath, Hnone. cbn [isNil].
  specialize (IH ∅ (lookup_empty path)).
  destruct (updateField MustCompile fuel (VMap ∅) (segment :: s :: rest) replacement).
  exact IH.
Qed.

(** *** Mapping steps *)

Lemma eqb_empty_false (s : string) : s <> "" -> String.eqb s "" = false.
Proof. intros H. apply String.eqb_neq. exact H. Qed.

(** With a pattern attached, a target that is not a string is refused:
    for its kind when the replacement is a string or an integer, for the
    kind of the replacement otherwise. *)
Lemma applySubstringPattern_not_string MustCompile target replacement pat :
  pat <> "" ->
  (forall s, target <> VStr s) ->
  applySubstringPattern MustCompile target replacement pat
  = Err (ErrPatternSubstring
           match replacementString replacement with
           | Some _ => msgTargetKind
           | None => msgReplacementKind
           end).
Proof.
  intros Hpat Htgt. unfold applySubstringPattern.
  rewrite (eqb_empty_false _ Hpat).
  destruct replacement; try reflexivity;
    destruct target; try reflexivity;
    exfalso; eapply Htgt; reflexivity.
Qed.

(** C10.  The last step names a field that the mapping does not have and
    carries a substring pattern: the empty mapping created for the field
    stays in the document and the call returns ErrPatternSubstring (for
    a target that is no string, when the replacement is a string or an
    integer). *)
Theorem absent_field_with_pattern_keeps_empty_mapping
    (MustCompile : string -> option regexp.regex) (fuel : nat)
    (m : gmap string node) (segment p0 key value path pat : string)
    (replacement : node) :
  getFirstPathSegment segment = (p0, key, value, false) ->
  extractSubstringPattern p0 = (path, pat) ->
  pat <> "" ->
  m !! path = None ->
  updateField MustCompile (S fuel) (VMap m) [segment] replacement
    = (VMap (<[path := VMap ∅]> m),
       Err (ErrPatternSubstring
              match replacementString replacement with
              | Some _ => msgTargetKind
              | None => msgReplacementKind
              end))
  /\ <[path := VMap ∅]> m !! path = Some (VMap ∅).
Proof.
  intros Hseg Hpath Hpat Hnone.
  split; [|apply lookup_insert_eq].
  cbn [updateField]. unfold updateMapField.
  rewrite Hseg, Hpath, Hnone. cbn [isNil negb].
  rewrite (applySubstringPattern_not_string MustCompile (VMap ∅) replacement pat Hpat)
    by discriminate.
  reflexivity.
Qed.

Lemma absent_field_with_pattern_keeps_empty_mapping_witness :
  updateField regexp.Compile 1 (VMap Examples.cm) ["env%prod-\d+%"]
    (VStr "prod-2")
  = (VMap (<["env" := VMap ∅]> Examples.cm),
     Err (ErrPatternSubstring msgTargetKind))
  /\ <["env" := VMap ∅]> Examples.cm !! "env" = Some (VMap ∅).
Proof.
  apply (absent_field_with_pattern_keeps_empty_mapping regexp.Compile 0%nat
           Examples.cm "env%prod-\d+%" "env%prod-\d+%" "" ""
           "env" "prod-\d+" (VStr "prod-2")).
  - vm_compute. reflexivity.
  - vm_compute. reflexivity.
  - discriminate.
  - vm_compute. reflexivity.
Defined.

(** A step into a sequence never changes the length of the sequence. *)
Lemma updateSliceField_length rec (m : list node) pathToField replacement :
  length (fst (updateSliceField rec m pathToField replacement)) = length m.
Proof.
  unfold updateSliceField.
  destruct pathToField as [|segment rest]; [reflexivity|].
  destruct (getFirstPathSegment segment) as [[[p0 key] value] isArray].
  destruct isArray.
  - destruct (findItem key value m) as [?|[[i it]|]]; try reflexivity.
    destruct (rec (VMap it) rest replacement). cbn. apply length_insert.
  - destruct (strconv.Atoi segment) as [index|]; [|reflexivity].
    destruct (_ || _); [reflexivity|].
    destruct (m !! Z.to_nat index) as [item|]; [|reflexivity].
    destruct rest as [|s rest]; cbn; [apply length_insert|].
    destruct (rec item (s :: rest) replacement). cbn. apply length_insert.
Qed.

(** C7.  A field step that is not the last one and whose key the mapping
    lacks: an empty mapping is put at the key and the walk goes on inside
    it with the remaining steps.  Sequences are never extended: whatever
    the path, a sequence comes back with the length it had.  On a
    document without [labels], [metadata.labels.env] creates the mapping
    and sets [env]. *)
Theorem absent_key_is_created (MustCompile : string -> option regexp.regex) :
  (forall (fuel : nat) (m : gmap string node)
          (segment p0 key value path pat : string) (rest : list string)
          (replacement : node),
      getFirstPathSegment segment = (p0, key, value, false) ->
      extractSubstringPattern p0 = (path, pat) ->
      m !! path = None ->
      rest <> [] ->
      updateField MustCompile (S fuel) (VMap m) (segment :: rest) replacement
        = (VMap (<[path := fst (updateField MustCompile fuel (VMap ∅) rest replacement)]> m),
           snd (updateField MustCompile fuel (VMap ∅) rest replacement)))
  /\ (forall (fuel : nat) (l : list node) (pathToField : list string)
             (replacement : node),
        exists l',
          fst (updateField MustCompile fuel (VSlice l) pathToField replacement)
            = VSlice l'
          /\ length l' = length l)
  /\ (pathSlice "metadata.labels.env" = ["metadata"; "labels"; "env"]
      /\ updateField MustCompile 3 Examples.noLabels
           (pathSlice "metadata.labels.env") (VStr "prod")
         = (Examples.obj
              [("metadata",
                Examples.obj [("name", VStr "cm");
                              ("labels", Examples.obj [("env", VStr "prod")])])],
            Nil)).
Proof.
  split; [|split].
  - intros fuel m segment p0 key value path pat rest replacement
      Hseg Hpath Hnone Hrest.
    cbn [updateField]. unfold updateMapField.
    rewrite Hseg, Hpath, Hnone. cbn [isNil].
    destruct rest as [|s rest]; [congruence|].
    destruct (updateField MustCompile fuel (VMap ∅) (s :: rest) replacement)
      as [v' st].
    cbn [fst snd]. rewrite insert_insert_eq. reflexivity.
  - intros fuel l pathToField replacement.
    destruct fuel as [|fuel]; [exists l; split; reflexivity|].
    cbn [updateField].
    destruct pathToField as [|segment rest]; [exists l; split; reflexivity|].
    pose proof (updateSliceField_length (updateField MustCompile fuel) l
                  (segment :: rest) replacement) as Hlen.
    destruct (updateSliceField _ l (segment :: rest) replacement) as [l' st].
    exists l'. split; [reflexivity|exact Hlen].
  - split; vm_compute; reflexivity.
Qed.

Lemma absent_key_is_created_witness :
  updateField regexp.Compile 2 (VMap Examples.cm) ["labels"; "env"]
    (VStr "prod")
  = (VMap (<["labels" := VMap (<["env" := VStr "prod"]> ∅)]>
             Examples.cm), Nil).
Proof.
  rewrite (proj1 (absent_key_is_created regexp.Compile) 1%nat
             Examples.cm "labels" "labels" "" "" "labels" ""
             ["env"] (VStr "prod")).
  - vm_compute. reflexivity.
  - vm_compute. reflexivity.
  - vm_compute. reflexivity.
  - vm_compute. reflexivity.
  - discriminate.
Defined.

(** *** Filter steps on sequences *)

Lemma findItem_cons_map key value typedItem l :
  findItem key value (VMap typedItem :: l) =
    if holds key value (VMap typedItem) then inr (Some (O, typedItem))
    else match findItem key value l with
         | inr (Some (i, it)) => inr (Some (S i, it))
         | other => other
         end.
Proof.
  cbn [findItem holds].
  destruct (typedItem !! key) as [[]|]; reflexivity.
Qed.

Lemma findItem_none key value l :
  Forall (fun v => isMap v = true) l ->
  (forall v, v ∈ l -> holds key value v = false) ->
  findItem key value l = inr None.
Proof.
  induction 1 as [|v l Hv Hl IH]; intros Hno; [reflexivity|].
  destruct v; try discriminate.
  rewrite findItem_cons_map, (Hno (VMap m)) by apply list_elem_of_here.
  rewrite IH; [reflexivity|].
  intros v Hin. apply Hno. apply list_elem_of_further. exact Hin.
Qed.

Lemma findItem_first key value l i it :
  l !! i = Some (VMap it) ->
  holds key value (VMap it) = true ->
  (forall j v, (j < i)%nat -> l !! j = Some v ->
               isMap v = true /\ holds key value v = false) ->
  findItem key value l = inr (Some (i, it)).
Proof.
  revert i. induction l as [|v l IH]; intros i Hi Hit Hbefore; [discriminate|].
  destruct i as [|i].
  - cbn in Hi. injection Hi as ->. rewrite findItem_cons_map, Hit. reflexivity.
  - destruct (Hbefore O v) as [Hmap Hno]; [lia|reflexivity|].
    destruct v; try discriminate.
    rewrite findItem_cons_map, Hno.
    rewrite (IH i); [reflexivity|exact Hi|exact Hit|].
    intros j w Hj Hw. apply (Hbefore (S j) w); [lia|exact Hw].
Qed.

Lemma findItem_not_map key value l i v :
  l !! i = Some v ->
  isMap v = false ->
  (forall j w, (j < i)%nat -> l !! j = Some w ->
               isMap w = true /\ holds key value w = false) ->
  findItem key value l = inl (ErrTypeMismatch v msgMapExpected).
Proof.
  revert i. induction l as [|w l IH]; intros i Hi Hv Hbefore; [discriminate|].
  destruct i as [|i].
  - cbn in Hi. injection Hi as ->. destruct v; try discriminate; reflexivity.
  - destruct (Hbefore O w) as [Hmap Hno]; [lia|reflexivity|].
    destruct w; try discriminate.
    rewrite findItem_cons_map, Hno.
    rewrite (IH i); [reflexivity|exact Hi|exact Hv|].
    intros j x Hj Hx. apply (Hbefore (S j) x); [lia|exact Hx].
Qed.

(** A filter step on a field that holds a sequence. *)
Lemma filter_on_field (MustCompile : string -> option regexp.regex)
    (fuel : nat) (m : gmap string node)
    (segment path0 key value path pat : string) (rest : list string)
    (replacement : node) (l : list node) :
  getFirstPathSegment segment = (path0, key, value, true) ->
  extractSubstringPattern path0 = (path, pat) ->
  m !! path = Some (VSlice l) ->
  (Forall (fun v => isMap v = true) l ->
   (forall v, v ∈ l -> holds key value v = false) ->
   updateField MustCompile (S (S fuel)) (VMap m) (segment :: rest) replacement
     = (VMap m, Err (ErrMapNotFound key value path0)))
  /\ (forall i it,
       l !! i = Some (VMap it) ->
       holds key value (VMap it) = true ->
       (forall j v, (j < i)%nat -> l !! j = Some v ->
                    isMap v = true /\ holds key value v = false) ->
       updateField MustCompile (S (S fuel)) (VMap m) (segment :: rest) replacement
         = match rest with
           | [] => (VMap (<[path := VSlice (<[i := replacement]> l)]> m), Nil)
           | _ :: _ =>
               (VMap (<[path := VSlice
                          (<[i := fst (updateField MustCompile fuel (VMap it) rest
                                         replacement)]> l)]> m),
                snd (updateField MustCompile fuel (VMap it) rest replacement))
           end)
  /\ (forall i v,
       l !! i = Some v ->
       isMap v = false ->
       (forall j w, (j < i)%nat -> l !! j = Some w ->
                    isMap w = true /\ holds key value w = false) ->
       updateField MustCompile (S (S fuel)) (VMap m) (segment :: rest) replacement
         = (VMap m, Err (ErrTypeMismatch v msgMapExpected))).
Proof.
  intros Hseg Hpath Hl.
  assert (Hid : <[path := VSlice l]> m = m) by (apply insert_id; exact Hl).
  split; [|split].
  - intros Hmaps Hno.
    pose proof (findItem_none key value l Hmaps Hno) as Hfind.
    cbn [updateField]. unfold updateMapField.
    rewrite Hseg, Hpath, Hl. cbn [isNil negb].
    destruct rest as [|s rest].
    + rewrite Hfind. cbn [updateField]. unfold updateSliceField.
      rewrite Hseg, Hfind, Hid. reflexivity.
    + cbn [updateField]. unfold updateSliceField.
      rewrite Hseg, Hfind, Hid. reflexivity.
  - intros i it Hi Hit Hbefore.
    pose proof (findItem_first key value l i it Hi Hit Hbefore) as Hfind.
    cbn [updateField]. unfold updateMapField.
    rewrite Hseg, Hpath, Hl. cbn [isNil negb].
    destruct rest as [|s rest].
    + rewrite Hfind. reflexivity.
    + cbn [updateField]. unfold updateSliceField.
      rewrite Hseg, Hfind.
      destruct (updateField MustCompile fuel (VMap it) (s :: rest) replacement).
      reflexivity.
  - intros i v Hi Hv Hbefore.
    pose proof (findItem_not_map key value l i v Hi Hv Hbefore) as Hfind.
    cbn [updateField]. unfold updateMapField.
    rewrite Hseg, Hpath, Hl. cbn [isNil negb].
    destruct rest as [|s rest].
    + rewrite Hfind. reflexivity.
    + cbn [updateField]. unfold updateSliceField.
      rewrite Hseg, Hfind, Hid. reflexivity.
Qed.

(** A filter step on a sequence. *)
Lemma filter_on_sequence (MustCompile : string -> option regexp.regex)
    (fuel : nat) (segment path0 key value : string) (rest : list string)
    (replacement : node) (l : list node) :
  getFirstPathSegment segment = (path0, key, value, true) ->
  (Forall (fun v => isMap v = true) l ->
   (forall v, v ∈ l -> holds key value v = false) ->
   updateField MustCompile (S fuel) (VSlice l) (segment :: rest) replacement
     = (VSlice l, Err (ErrMapNotFound key value path0)))
  /\ (forall i it,
       l !! i = Some (VMap it) ->
       holds key value (VMap it) = true ->
       (forall j v, (j < i)%nat -> l !! j = Some v ->
                    isMap v = true /\ holds key value v = false) ->
       updateField MustCompile (S fuel) (VSlice l) (segment :: rest) replacement
         = (VSlice (<[i := fst (updateField MustCompile fuel (VMap it) rest
                                  replacement)]> l),
            snd (updateField MustCompile fuel (VMap it) rest replacement)))
  /\ (forall i v,
       l !! i = Some v ->
       isMap v = false ->
       (forall j w, (j < i)%nat -> l !! j = Some w ->
                    isMap w = true /\ holds key value w = false) ->
       updateField MustCompile (S fuel) (VSlice l) (segment :: rest) replacement
         = (VSlice l, Err (ErrTypeMismatch v msgMapExpected))).
Proof.
  intros Hseg. split; [|split].
  - intros Hmaps Hno. cbn [updateField]. unfold updateSliceField.
    rewrite Hseg, (findItem_none key value l Hmaps Hno). reflexivity.
  - intros i it Hi Hit Hbefore. cbn [updateField]. unfold updateSliceField.
    rewrite Hseg, (findItem_first key value l i it Hi Hit Hbefore).
    destruct (updateField MustCompile fuel (VMap it) rest replacement).
    reflexivity.
  - intros i v Hi Hv Hbefore. cbn [updateField]. unfold updateSliceField.
    rewrite Hseg, (findItem_not_map key value l i v Hi Hv Hbefore). reflexivity.
Qed.

(** C6 (amended).  A sequence reached by a step with the filter
    [key=value], as the node the step is applied to or as the value of
    the field the step names.  When the elements are all mappings and
    none holds the string [value] at [key], the call fails with
    ErrMapNotFound and the document is as it was.  When the first element
    holding [value] at [key] is at position [i] and the elements before
    it are mappings, the remaining steps are applied inside that
    element; on the sequence of a field, a last step puts the
    replacement at position [i].  An element that is not a mapping, met
    before any match, fails the call with ErrTypeMismatch. *)
Theorem filter_step (MustCompile : string -> option regexp.regex)
    (fuel : nat) (segment path0 key value : string) (rest : list string)
    (replacement : node) (l : list node) :
  getFirstPathSegment segment = (path0, key, value, true) ->
  ((Forall (fun v => isMap v = true) l ->
    (forall v, v ∈ l -> holds key value v = false) ->
    updateField MustCompile (S fuel) (VSlice l) (segment :: rest) replacement
      = (VSlice l, Err (ErrMapNotFound key value path0)))
   /\ (forall i it,
        l !! i = Some (VMap it) ->
        holds key value (VMap it) = true ->
        (forall j v, (j < i)%nat -> l !! j = Some v ->
                     isMap v = true /\ holds key value v = false) ->
        updateField MustCompile (S fuel) (VSlice l) (segment :: rest) replacement
          = (VSlice (<[i := fst (updateField MustCompile fuel (VMap it) rest
                                   replacement)]> l),
             snd (updateField MustCompile fuel (VMap it) rest replacement)))
   /\ (forall i v,
        l !! i = Some v ->
        isMap v = false ->
        (forall j w, (j < i)%nat -> l !! j = Some w ->
                     isMap w = true /\ holds key value w = false) ->
        updateField MustCompile (S fuel) (VSlice l) (segment :: rest) replacement
          = (VSlice l, Err (ErrTypeMismatch v msgMapExpected))))
  /\ (forall (m : gmap string node) (path pat : string),
        extractSubstringPattern path0 = (path, pat) ->
        m !! path = Some (VSlice l) ->
        (Forall (fun v => isMap v = true) l ->
         (forall v, v ∈ l -> holds key value v = false) ->
         updateField MustCompile (S (S fuel)) (VMap m) (segment :: rest) replacement
           = (VMap m, Err (ErrMapNotFound key value path0)))
        /\ (forall i it,
             l !! i = Some (VMap it) ->
             holds key value (VMap it) = true ->
             (forall j v, (j < i)%nat -> l !! j = Some v ->
                          isMap v = true /\ holds key value v = false) ->
             updateField MustCompile (S (S fuel)) (VMap m) (segment :: rest)
               replacement
             = match rest with
               | [] => (VMap (<[path := VSlice (<[i := replacement]> l)]> m), Nil)
               | _ :: _ =>
                   (VMap (<[path := VSlice
                              (<[i := fst (updateField MustCompile fuel (VMap it)
                                             rest replacement)]> l)]> m),
                    snd (updateField MustCompile fuel (VMap it) rest replacement))
               end)
        /\ (forall i v,
             l !! i = Some v ->
             isMap v = false ->
             (forall j w, (j < i)%nat -> l !! j = Some w ->
                          isMap w = true /\ holds key value w = false) ->
             updateField MustCompile (S (S fuel)) (VMap m) (segment :: rest)
               replacement
             = (VMap m, Err (ErrTypeMismatch v msgMapExpected)))).
Proof.
  intros Hseg. split.
  - exact (filter_on_sequence MustCompile fuel segment path0 key value rest
             replacement l Hseg).
  - intros m path pat Hpath Hl.
    exact (filter_on_field MustCompile fuel m segment path0 key value path pat
             rest replacement l Hseg Hpath Hl).
Qed.

Lemma filter_step_witness :
  updateField regexp.Compile 2 Examples.containers
    ["containers[name=web]"; "image"] (VStr "new")
  = (Examples.containers, Err (ErrMapNotFound "name" "web" "containers")).
Proof.
  refine (proj1 (proj2 (filter_step regexp.Compile 0%nat
                          "containers[name=web]" "containers" "name" "web"
                          ["image"] (VStr "new")
                          [Examples.obj [("name", VStr "db")];
                           Examples.obj [("name", VStr "app"); ("image", VStr "old")]]
                          _) _ "containers" "" _ _) _ _).
  - vm_compute. reflexivity.
  - vm_compute. reflexivity.
  - vm_compute. reflexivity.
  - repeat constructor.
  - intros v Hin. rewrite !elem_of_cons in Hin.
    destruct Hin as [->|[->|Hin]]; [vm_compute; reflexivity ..|].
    apply elem_of_nil in Hin. destruct Hin.
Defined.

(** C6 as stated fails: a sequence of scalars has no element whose
    [name] is [app], and the filter step fails with a type mismatch, not
    with ErrMapNotFound. *)
Lemma filter_over_scalars_is_type_mismatch :
  (forall v, v ∈ [VStr "db"] -> holds "name" "app" v = false)
  /\ snd (updateField regexp.Compile 3
            (Examples.obj [("containers", VSlice [VStr "db"])])
            (pathSlice "containers[name=app].image") (VStr "new"))
     = Err (ErrTypeMismatch (VStr "db") msgMapExpected)
  /\ forall Key Value ListKey,
       snd (updateField regexp.Compile 3
              (Examples.obj [("containers", VSlice [VStr "db"])])
              (pathSlice "containers[name=app].image") (VStr "new"))
       <> Err (ErrMapNotFound Key Value ListKey).
Proof.
  split; [|split].
  - intros v Hin. rewrite !elem_of_cons in Hin.
    destruct Hin as [->|Hin]; [reflexivity|].
    apply elem_of_nil in Hin. destruct Hin.
  - vm_compute. reflexivity.
  - intros Key Value ListKey. vm_compute. discriminate.
Qed.

(** *** Construction *)

Lemma malformed_dec (r : Replacement) : {malformed r} + {~ malformed r}.
Proof.
  unfold malformed. destruct r as [[[[objRef|] fieldRef value]|] [to|]]; cbn.
  all: try (left; tauto).
  - destruct (String.eqb_spec value "") as [->|Hv].
    + right. intros [H|[H|(src & o & [= <-] & _ & Hv)]]; try discriminate.
      apply Hv. reflexivity.
    + left. right. right. eexists _, objRef. repeat split. exact Hv.
  - right. intros [H|[H|(src & o & [= <-] & Ho & _)]]; discriminate.
Defined.

Lemma validate_cons_good r rs : ~ malformed r -> validate (r :: rs) = validate rs.
Proof.
  unfold malformed. destruct r as [[[[objRef|] fieldRef value]|] [to|]]; cbn.
  all: try tauto.
  intros Hr. destruct (String.eqb_spec value "") as [->|Hv]; [reflexivity|].
  exfalso. apply Hr. right. right. eexists _, objRef. repeat split. exact Hv.
Qed.

Lemma validate_cons_bad r rs :
  malformed r -> exists Msg, validate (r :: rs) = Some (ErrBadConfiguration Msg).
Proof.
  unfold malformed. destruct r as [[[[objRef|] fieldRef value]|] [to|]]; cbn.
  all: try (intros _; eexists; reflexivity).
  - intros [H|[H|(src & o & [= <-] & _ & Hv)]]; try discriminate.
    cbn in Hv. destruct (String.eqb_spec value "") as [->|_]; [congruence|].
    eexists. reflexivity.
  - intros [H|[H|(src & o & [= <-] & Ho & _)]]; discriminate.
Qed.

Lemma validate_none rs :
  validate rs = None <-> Forall (fun r => ~ malformed r) rs.
Proof.
  induction rs as [|r rs IH]; [split; [constructor|reflexivity]|].
  destruct (malformed_dec r) as [Hr|Hr].
  - destruct (validate_cons_bad r rs Hr) as [Msg ->]. split; [discriminate|].
    intros H. inversion H; subst. contradiction.
  - rewrite (validate_cons_good r rs Hr), IH. split.
    + intros H. constructor; assumption.
    + intros H. inversion H; subst. assumption.
Qed.

Lemma validate_some rs e :
  validate rs = Some e ->
  Exists malformed rs /\ exists Msg, e = ErrBadConfiguration Msg.
Proof.
  induction rs as [|r rs IH]; [discriminate|].
  destruct (malformed_dec r) as [Hr|Hr].
  - destruct (validate_cons_bad r rs Hr) as [Msg ->]. intros [= <-].
    split; [left; exact Hr|exists Msg; reflexivity].
  - rewrite (validate_cons_good r rs Hr). intros H.
    destruct (IH H) as [Hex HMsg]. split; [right; exact Hex|exact HMsg].
Qed.

(** C8.  [New] returns ErrBadConfiguration exactly when the decoded
    configuration has a rule without source, without target, or whose
    source gives both an object reference and a value.  The check is
    made on the rules alone, before any plugin exists: a plugin that
    [New] returns has no such rule. *)
Theorem New_rejects_malformed_rules
    (FromUnstructured : gmap string node -> string + plugin)
    (obj : gmap string node) :
  ((exists Msg, New FromUnstructured obj = inl (ErrBadConfiguration Msg))
   <-> exists p, FromUnstructured obj = inr p /\ Exists malformed (Replacements p))
  /\ (forall p, New FromUnstructured obj = inr p ->
        FromUnstructured obj = inr p
        /\ Forall (fun r => ~ malformed r) (Replacements p)).
Proof.
  unfold New. destruct (FromUnstructured obj) as [e|p].
  { split; [split|].
    - intros [Msg H]. discriminate.
    - intros (p & H & _). discriminate.
    - intros p H. discriminate. }
  destruct (validate (Replacements p)) as [e|] eqn:Hv.
  - destruct (validate_some _ _ Hv) as [Hex [Msg ->]].
    split; [split|].
    + intros _. exists p. split; [reflexivity|exact Hex].
    + intros _. exists Msg. reflexivity.
    + intros q H. discriminate.
  - apply validate_none in Hv. split; [split|].
    + intros [Msg H]. discriminate.
    + intros (q & [= <-] & Hex). exfalso.
      apply Exists_exists in Hex as (r & Hin & Hr).
      rewrite Forall_forall in Hv. exact (Hv r Hin Hr).
    + intros q [= <-]. split; [reflexivity|exact Hv].
Qed.

Lemma New_rejects_malformed_rules_witness :
  exists Msg,
    New (Examples.decoded
           [Examples.literal "prod" "Config" ["metadata.labels.env"];
            {| Source := Some {| srcObjRef := Some (Examples.ref "Cluster" "c1");
                                 FieldRef := ""; Value := "both" |};
               Target_ := Some {| toObjRef := Some (Examples.sel "Config" "");
                                  FieldRefs := ["metadata.name"] |} |}]) ∅
    = inl (ErrBadConfiguration Msg).
Proof.
  apply (proj2 (proj1 (New_rejects_malformed_rules _ _))).
  eexists. split; [reflexivity|].
  right. left. right. right. eexists _, _. cbn.
  repeat split. discriminate.
Defined.

(** *** Source resolution *)

Section Orchestrator.

Variable MustCompile : string -> option regexp.regex.
Variable Select : ResMap -> Selector -> string + list nat.
Variable GetFieldValue : node -> string -> string + node.

Lemma getReplacement_count m objRef fieldRef resources :
  Select m (sourceSelector objRef) = inr resources ->
  getReplacement Select GetFieldValue m objRef fieldRef =
    match resources with
    | [] => Err (ErrSourceNotFound objRef)
    | [r0] =>
        match m !! r0 with
        | None => Panic NilDereference
        | Some doc =>
            match GetFieldValue doc
                    (if String.eqb fieldRef "" then "metadata.name" else fieldRef) with
            | inl e => Err (ErrExternal e)
            | inr v => Ok v
            end
        end
    | _ :: _ :: _ => Err (ErrMultipleResources resources)
    end.
Proof.
  intros HS. unfold getReplacement. rewrite HS.
  destruct resources as [|r0 [|r1 resources]]; try reflexivity.
  replace (1 <? len (r0 :: r1 :: resources)) with true; [reflexivity|].
  symmetry. apply Z.ltb_lt. unfold len. cbn [length]. lia.
Qed.

Lemma transformOne_source_error fuel m r src objRef e :
  Source r = Some src ->
  srcObjRef src = Some objRef ->
  getReplacement Select GetFieldValue m objRef (FieldRef src) = Err e ->
  transformOne MustCompile Select GetFieldValue fuel m r = (m, Err e).
Proof.
  intros Hs Ho He. unfold transformOne. rewrite Hs, Ho, He. reflexivity.
Qed.

(** *** The loops of [Transform] and [substitute] *)

Lemma Transform_app fuel rs1 rs2 m :
  Transform MustCompile Select GetFieldValue fuel (rs1 ++ rs2) m =
    match Transform MustCompile Select GetFieldValue fuel rs1 m with
    | (m1, Ok _) => Transform MustCompile Select GetFieldValue fuel rs2 m1
    | other => other
    end.
Proof.
  revert m. induction rs1 as [|r rs1 IH]; intros m; [reflexivity|].
  cbn [app Transform].
  destruct (transformOne _ _ _ fuel m r) as [m' [[]| | |]]; try reflexivity.
  apply IH.
Qed.



End Orchestrator.

(** C5.  A rule whose source has an object reference: when the selector
    of the reference matches no document [Transform] returns
    ErrSourceNotFound, when it matches more than one it returns
    ErrMultipleResources, and in both cases the collection comes back as
    it was, whatever the target of the rule and the rules after it are;
    with exactly one match the value is read from that document. *)
Theorem source_needs_exactly_one_document
    (MustCompile : string -> option regexp.regex)
    (Select : ResMap -> Selector -> string + list nat)
    (GetFieldValue : node -> string -> string + node)
    (fuel : nat) (m : ResMap) (r : Replacement) (rs : list Replacement)
    (src : ReplSource) (objRef : Target) (resources : list nat) :
  Source r = Some src ->
  srcObjRef src = Some objRef ->
  Select m (sourceSelector objRef) = inr resources ->
  (resources = [] ->
   Transform MustCompile Select GetFieldValue fuel (r :: rs) m
     = (m, Err (ErrSourceNotFound objRef)))
  /\ ((1 < length resources)%nat ->
      Transform MustCompile Select GetFieldValue fuel (r :: rs) m
        = (m, Err (ErrMultipleResources resources)))
  /\ (forall r0 doc,
        resources = [r0] -> m !! r0 = Some doc ->
        getReplacement Select GetFieldValue m objRef (FieldRef src)
          = match GetFieldValue doc
                    (if String.eqb (FieldRef src) "" then "metadata.name"
                     else FieldRef src) with
            | inl e => Err (ErrExternal e)
            | inr v => Ok v
            end).
Proof.
  intros Hs Ho HS.
  pose proof (getReplacement_count Select GetFieldValue m objRef (FieldRef src)
                resources HS) as Hget.
  split; [|split].
  - intros ->. cbn [Transform].
    rewrite (transformOne_source_error MustCompile Select GetFieldValue fuel m r
               src objRef _ Hs Ho Hget). reflexivity.
  - intros Hlen. destruct resources as [|r0 [|r1 resources]]; cbn in Hlen; try lia.
    cbn [Transform].
    rewrite (transformOne_source_error MustCompile Select GetFieldValue fuel m r
               src objRef _ Hs Ho Hget). reflexivity.
  - intros r0 doc -> Hdoc. rewrite Hget, Hdoc. reflexivity.
Qed.

Lemma source_needs_exactly_one_document_witness :
  Transform regexp.Compile Examples.Select Examples.GetFieldValue 4
    [Examples.copy (Examples.ref "Cluster" "c1") "spec.host" "Missing" ["a[b"];
     Examples.literal "x" "Config" ["metadata.labels.a"]]
    Examples.twoClusters
  = (Examples.twoClusters, Err (ErrMultipleResources [0; 1]%nat)).
Proof.
  refine (proj1 (proj2 (source_needs_exactly_one_document regexp.Compile
            Examples.Select Examples.GetFieldValue 4%nat Examples.twoClusters
            _ _ _ (Examples.ref "Cluster" "c1") [0; 1]%nat _ _ _)) _).
  - reflexivity.
  - reflexivity.
  - vm_compute. reflexivity.
  - cbn. lia.
Defined.



(** *** Strings *)

Lemma app_empty_r (s : string) : s +:+ "" = s.
Proof. induction s as [|c s IH]; cbn; [reflexivity|]. rewrite IH. reflexivity. Qed.

Lemma app_assoc_s (a b c : string) : (a +:+ b) +:+ c = a +:+ (b +:+ c).
Proof. induction a as [|x a IH]; cbn; [reflexivity|]. rewrite IH. reflexivity. Qed.

Ltac by_assoc :=
  cbn [String.append andb negb]; rewrite ?app_empty_r, ?app_assoc_s;
  cbn [String.append]; rewrite ?app_assoc_s; reflexivity.

Lemma length_app_s (a b : string) :
  String.length (a +:+ b) = (String.length a + String.length b)%nat.
Proof. induction a as [|x a IH]; cbn; [reflexivity|]. rewrite IH. reflexivity. Qed.

Lemma app_inv_head_s (a b c : string) : a +:+ b = a +:+ c -> b = c.
Proof. induction a as [|x a IH]; cbn; [tauto|]. intros [= H]. exact (IH H). Qed.

(** Two ways of cutting one string. *)
Lemma app_eq_app_s (a b c d : string) :
  a +:+ b = c +:+ d ->
  (exists e, c = a +:+ e /\ b = e +:+ d) \/ (exists e, a = c +:+ e /\ d = e +:+ b).
Proof.
  revert c. induction a as [|x a IH]; intros c H; cbn in H.
  { left. exists c. split; [reflexivity|exact H]. }
  destruct c as [|y c]; cbn in H.
  { right. exists (String x a). split; [reflexivity|symmetry; exact H]. }
  injection H as -> H. destruct (IH c H) as [(e & -> & ->)|(e & -> & ->)].
  - left. exists e. split; reflexivity.
  - right. exists e. split; reflexivity.
Qed.

Lemma substring_app (a b : string) :
  String.substring 0 (String.length a) (a +:+ b) = a.
Proof. induction a as [|x a IH]; cbn; [destruct b; reflexivity|]. rewrite IH. reflexivity. Qed.

Lemma taken_app (a b : string) : regexp.taken (a +:+ b) b = a.
Proof.
  unfold regexp.taken. rewrite length_app_s.
  replace (String.length a + String.length b - String.length b)%nat
    with (String.length a) by lia.
  apply substring_app.
Qed.

Lemma taken_all (s : string) : regexp.taken s "" = s.
Proof. rewrite <- (app_empty_r s) at 1. apply taken_app. Qed.

Lemma occurs_app c a b : occurs c (a +:+ b) = occurs c a || occurs c b.
Proof.
  induction a as [|x a IH]; cbn; [reflexivity|].
  rewrite IH. apply orb_assoc.
Qed.

Lemma allChars_app p a b :
  strings.allChars p (a +:+ b) = strings.allChars p a && strings.allChars p b.
Proof.
  induction a as [|x a IH]; cbn; [reflexivity|].
  rewrite IH. apply andb_assoc.
Qed.

(** *** The matcher *)

Section Matcher.

Context {R : Type}.
Implicit Types (r : regexp.regex) (s a b : string) (c : regexp.caps).
Implicit Types (k : @regexp.cont R).

Lemma exec_ext r s c k1 k2 :
  (forall s' c', k1 s' c' = k2 s' c') ->
  regexp.exec r s c k1 = regexp.exec r s c k2.
Proof.
  revert s c k1 k2.
  induction r as [|x|cc|r1 IH1 r2 IH2|r1 IH1 r2 IH2|r1 IH1|n r1 IH1|];
    intros s c k1 k2 Hk; cbn [regexp.exec].
  - apply Hk.
  - destruct s as [|y s]; [reflexivity|]. destruct (Ascii.eqb x y); [apply Hk|reflexivity].
  - destruct s as [|y s]; [reflexivity|]. destruct (regexp.inClass cc y); [apply Hk|reflexivity].
  - apply IH1. intros s1 c1. apply IH2. exact Hk.
  - rewrite (IH1 s c k1 k2 Hk), (IH2 s c k1 k2 Hk). reflexivity.
  - generalize (S (String.length s)) as n. intros n. revert s c.
    induction n as [|n IHn]; intros s c; cbn [regexp.starLoop]; [apply Hk|].
    rewrite Hk.
    rewrite (IH1 s c _ (fun s1 c1 =>
               if (String.length s1 <? String.length s)%nat
               then regexp.starLoop (regexp.exec r1) n s1 c1 k2 else None)).
    + reflexivity.
    + intros s1 c1. destruct (_ <? _)%nat; [apply IHn|reflexivity].
  - apply IH1. intros s1 c1. apply Hk.
  - destruct s; [apply Hk|reflexivity].
Qed.

(** The bound on the rounds of a loop does not matter once it exceeds
    the length of the input. *)
Lemma starLoop_fuel r n n' s c k :
  (String.length s < n)%nat -> (String.length s < n')%nat ->
  regexp.starLoop (regexp.exec r) n s c k = regexp.starLoop (regexp.exec r) n' s c k.
Proof.
  revert n' s c. induction n as [|n IH]; intros n' s c Hn Hn'; [lia|].
  destruct n' as [|n']; [lia|]. cbn [regexp.starLoop].
  rewrite (exec_ext r s c _ (fun s1 c1 =>
             if (String.length s1 <? String.length s)%nat
             then regexp.starLoop (regexp.exec r) n' s1 c1 k else None)).
  - reflexivity.
  - intros s1 c1. destruct (String.length s1 <? String.length s)%nat eqn:Hlt;
      [|reflexivity].
    apply Nat.ltb_lt in Hlt. apply IH; lia.
Qed.

Lemma exec_star r s c k :
  regexp.exec (regexp.Star r) s c k =
    match regexp.exec r s c (fun s1 c1 =>
            if (String.length s1 <? String.length s)%nat
            then regexp.exec (regexp.Star r) s1 c1 k else None) with
    | Some x => Some x
    | None => k s c
    end.
Proof.
  cbn [regexp.exec regexp.starLoop].
  rewrite (exec_ext r s c _ (fun s1 c1 =>
             if (String.length s1 <? String.length s)%nat
             then regexp.starLoop (regexp.exec r) (S (String.length s1)) s1 c1 k
             else None)).
  - reflexivity.
  - intros s1 c1. destruct (String.length s1 <? String.length s)%nat eqn:Hlt;
      [|reflexivity].
    apply Nat.ltb_lt in Hlt. apply starLoop_fuel; lia.
Qed.

End Matcher.

Section MatcherLang.

Context {R : Type}.
Implicit Types (r : regexp.regex) (s a b : string) (c : regexp.caps).
Implicit Types (k : @regexp.cont R).

(** What the search returns is a match of the pattern. *)
Lemma exec_sound r : forall s c k x,
  regexp.exec r s c k = Some x ->
  exists a b c', s = a +:+ b /\ Lang r a b /\ k b c' = Some x.
Proof.
  induction r as [|y|cc|r1 IH1 r2 IH2|r1 IH1 r2 IH2|r1 IH1|n r1 IH1|];
    intros s c k x.
  - cbn. intros H. exists "", s, c. repeat split; [constructor|exact H].
  - cbn. destruct s as [|z s]; [discriminate|].
    destruct (Ascii.eqb_spec y z) as [<-|]; [|discriminate].
    intros H. exists (String y ""), s, c. repeat split; [constructor|exact H].
  - cbn. destruct s as [|z s]; [discriminate|].
    destruct (regexp.inClass cc z) eqn:Hz; [|discriminate].
    intros H. exists (String z ""), s, c. repeat split; [constructor; exact Hz|exact H].
  - cbn [regexp.exec]. intros H.
    destruct (IH1 _ _ _ _ H) as (a1 & b1 & c1 & -> & HL1 & H1).
    destruct (IH2 _ _ _ _ H1) as (a2 & b2 & c2 & -> & HL2 & H2).
    exists (a1 +:+ a2), b2, c2. rewrite app_assoc_s.
    repeat split; [constructor; assumption|exact H2].
  - cbn [regexp.exec]. destruct (regexp.exec r1 s c k) eqn:H1.
    + intros [= ->]. destruct (IH1 _ _ _ _ H1) as (a & b & c' & -> & HL & Hk).
      exists a, b, c'. repeat split; [apply Lang_AltL; exact HL|exact Hk].
    + intros H2. destruct (IH2 _ _ _ _ H2) as (a & b & c' & -> & HL & Hk).
      exists a, b, c'. repeat split; [apply Lang_AltR; exact HL|exact Hk].
  - remember (String.length s) as n eqn:Hn. revert s c Hn.
    induction n as [n IHn] using lt_wf_ind. intros s c Hn.
    rewrite exec_star.
    destruct (regexp.exec r1 s c _) eqn:H1.
    + intros [= ->]. destruct (IH1 _ _ _ _ H1) as (a1 & b1 & c1 & -> & HL1 & Hk1).
      destruct (String.length b1 <? String.length (a1 +:+ b1))%nat eqn:Hlt;
        [|discriminate].
      apply Nat.ltb_lt in Hlt.
      destruct (IHn (String.length b1) ltac:(lia) b1 c1 eq_refl Hk1)
        as (a2 & b2 & c2 & -> & HL2 & Hk2).
      exists (a1 +:+ a2), b2, c2. rewrite app_assoc_s.
      repeat split; [|exact Hk2].
      apply Lang_StarS; [|exact HL1|exact HL2].
      intros ->. cbn in Hlt. lia.
    + intros H. exists "", s, c. repeat split; [constructor|exact H].
  - cbn [regexp.exec]. intros H.
    destruct (IH1 _ _ _ _ H) as (a & b & c' & -> & HL & Hk).
    exists a, b, ((n, regexp.taken (a +:+ b) b) :: c').
    repeat split; [constructor; exact HL|exact Hk].
  - cbn. destruct s; [|discriminate]. intros H.
    exists "", "", c. repeat split; [constructor|exact H].
Qed.

(** A match of the pattern whose continuation succeeds is not missed. *)
Lemma exec_complete r a b :
  Lang r a b ->
  forall c k, (forall c', k b c' <> None) -> regexp.exec r (a +:+ b) c k <> None.
Proof.
  induction 1 as [b|x b|cc x b Hx|r1 r2 a1 a2 b _ IH1 _ IH2|r1 r2 a b _ IH
                  |r1 r2 a b _ IH|r b|r a1 a2 b Hne _ IH1 _ IH2|n r a b _ IH|];
    intros c k Hk.
  - cbn. apply Hk.
  - cbn. rewrite Ascii.eqb_refl. apply Hk.
  - cbn. rewrite Hx. apply Hk.
  - cbn [regexp.exec]. rewrite app_assoc_s. apply IH1.
    intros c'. apply IH2. exact Hk.
  - cbn [regexp.exec]. destruct (regexp.exec r1 (a +:+ b) c k) eqn:H1; [discriminate|].
    exfalso. exact (IH c k Hk H1).
  - cbn [regexp.exec]. destruct (regexp.exec r1 (a +:+ b) c k); [discriminate|].
    apply IH. exact Hk.
  - rewrite exec_star. destruct (regexp.exec r _ c _); [discriminate|]. apply Hk.
  - rewrite exec_star.
    destruct (regexp.exec r ((a1 +:+ a2) +:+ b) c _) eqn:H1; [discriminate|].
    exfalso. revert H1. rewrite app_assoc_s. apply IH1.
    intros c'.
    replace (String.length (a2 +:+ b) <? String.length (a1 +:+ a2 +:+ b))%nat with true.
    + apply IH2. exact Hk.
    + symmetry. apply Nat.ltb_lt. rewrite (length_app_s a1).
      destruct a1; [congruence|cbn; lia].
  - cbn [regexp.exec]. apply IH. intros c'. apply Hk.
  - cbn. apply Hk.
Qed.

End MatcherLang.

(** *** Searching *)

Lemma matchHere_sound r s f :
  regexp.matchHere r s = Some f ->
  regexp.before f = "" /\ s = regexp.matched f +:+ regexp.after f
  /\ Lang r (regexp.matched f) (regexp.after f).
Proof.
  unfold regexp.matchHere. intros H.
  destruct (exec_sound r _ _ _ _ H) as (a & b & c' & -> & HL & [= <-]).
  cbn. rewrite taken_app. repeat split. exact HL.
Qed.

Lemma matchHere_complete r a b :
  Lang r a b -> regexp.matchHere r (a +:+ b) <> None.
Proof.
  intros HL. unfold regexp.matchHere. apply (exec_complete r a b HL).
  intros c'. discriminate.
Qed.

Lemma find_sound r s f :
  regexp.find r s = Some f ->
  s = regexp.before f +:+ regexp.matched f +:+ regexp.after f
  /\ Lang r (regexp.matched f) (regexp.after f)
  /\ forall n, (n < String.length (regexp.before f))%nat -> noMatchAt r s n.
Proof.
  revert f. induction s as [|x s IH]; intros f; cbn [regexp.find].
  - destruct (regexp.matchHere r "") as [f0|] eqn:H0; [|discriminate].
    intros [= <-]. destruct (matchHere_sound r _ _ H0) as (Hb & Hs & HL).
    rewrite Hb. repeat split; [exact Hs|exact HL|cbn; lia].
  - destruct (regexp.matchHere r (String x s)) as [f0|] eqn:H0.
    + intros [= <-]. destruct (matchHere_sound r _ _ H0) as (Hb & Hs & HL).
      rewrite Hb. repeat split; [exact Hs|exact HL|cbn; lia].
    + destruct (regexp.find r s) as [f1|] eqn:H1; [|discriminate].
      intros [= <-]. destruct (IH f1 eq_refl) as (Hs & HL & Hleft).
      cbn. repeat split; [rewrite Hs at 1; reflexivity|exact HL|].
      intros n Hn p a b Heq Hp HLa. destruct p as [|y p].
      * cbn in Heq. apply (matchHere_complete r a b HLa). rewrite <- Heq. exact H0.
      * cbn in Heq, Hp. injection Heq as <- Heq.
        apply (Hleft (String.length p) ltac:(lia) p a b Heq eq_refl HLa).
Qed.



(** *** Replacement templates *)



(** *** Replacing all matches *)



(** *** Substring patterns *)

(** The last step on a field that the mapping has. *)
Lemma updateField_last MustCompile fuel m segment p0 key value path pat v replacement :
  getFirstPathSegment segment = (p0, key, value, false) ->
  extractSubstringPattern p0 = (path, pat) ->
  m !! path = Some v ->
  isNil v = false ->
  updateField MustCompile (S fuel) (VMap m) [segment] replacement =
    match applySubstringPattern MustCompile v replacement pat with
    | Ok renderedRepl => (VMap (<[path := renderedRepl]> m), Nil)
    | other => (VMap m, passOn other)
    end.
Proof.
  intros Hseg Hpath Hv Hnil. cbn [updateField]. unfold updateMapField.
  rewrite Hseg, Hpath, Hv, Hnil. cbn [negb].
  destruct (applySubstringPattern MustCompile v replacement pat); reflexivity.
Qed.

Lemma applySubstringPattern_string MustCompile tgt replacement pat re repl :
  pat <> "" ->
  MustCompile pat = Some re ->
  replacementString replacement = Some repl ->
  applySubstringPattern MustCompile (VStr tgt) replacement pat =
    if regexp.MatchString re tgt
    then Ok (VStr (regexp.ReplaceAllString re tgt repl))
    else Err (ErrPatternSubstring (msgNotFound pat tgt)).
Proof.
  intros Hpat Hre Hrepl. unfold applySubstringPattern.
  rewrite (eqb_empty_false _ Hpat).
  destruct replacement; try discriminate; injection Hrepl as <-;
    rewrite Hre; destruct (regexp.MatchString re tgt); reflexivity.
Qed.

(** C2 (amended).  The last step carries a substring pattern and names a
    field that is there and not nil.  An integer replacement acts as the
    string of its decimal digits: on a string field that the pattern
    matches, the matches are replaced by that string.  A replacement
    that is a boolean, nil, a mapping or a sequence fails the call with
    ErrPatternSubstring. *)
Theorem pattern_replacement_kinds (MustCompile : string -> option regexp.regex)
    (fuel : nat) (m : gmap string node)
    (segment p0 key value path pat : string) (v : node) :
  getFirstPathSegment segment = (p0, key, value, false) ->
  extractSubstringPattern p0 = (path, pat) ->
  pat <> "" ->
  m !! path = Some v ->
  isNil v = false ->
  (forall t,
      updateField MustCompile (S fuel) (VMap m) [segment] (VInt t)
      = updateField MustCompile (S fuel) (VMap m) [segment]
          (VStr (strconv.FormatInt t)))
  /\ (forall t re tgt,
        v = VStr tgt -> MustCompile pat = Some re ->
        regexp.MatchString re tgt = true ->
        updateField MustCompile (S fuel) (VMap m) [segment] (VInt t)
        = (VMap (<[path := VStr (regexp.ReplaceAllString re tgt
                                   (strconv.FormatInt t))]> m), Nil))
  /\ (forall replacement,
        match replacement with
        | VBool _ | VNil | VMap _ | VSlice _ => True
        | _ => False
        end ->
        updateField MustCompile (S fuel) (VMap m) [segment] replacement
        = (VMap m, Err (ErrPatternSubstring msgReplacementKind))).
Proof.
  intros Hseg Hpath Hpat Hv Hnil. split; [|split].
  - intros t.
    rewrite !(updateField_last MustCompile fuel m segment p0 key value path pat v
                _ Hseg Hpath Hv Hnil).
    unfold applySubstringPattern. rewrite (eqb_empty_false _ Hpat). reflexivity.
  - intros t re tgt -> Hre Hmatch.
    rewrite (updateField_last MustCompile fuel m segment p0 key value path pat _
               _ Hseg Hpath Hv Hnil).
    rewrite (applySubstringPattern_string MustCompile tgt (VInt t) pat re
               (strconv.FormatInt t) Hpat Hre eq_refl), Hmatch.
    reflexivity.
  - intros replacement Hkind.
    rewrite (updateField_last MustCompile fuel m segment p0 key value path pat v
               _ Hseg Hpath Hv Hnil).
    unfold applySubstringPattern. rewrite (eqb_empty_false _ Hpat).
    destruct replacement; try contradiction; reflexivity.
Qed.

Lemma pattern_replacement_kinds_witness :
  updateField regexp.Compile 1
    (VMap (<["endpoint" := VStr "host:10.0.0.5:8080"]> ∅))
    ["endpoint%\d+%"] (VInt 42)
  = (VMap (<["endpoint" := VStr "host:42.42.42.42:42"]>
             (<["endpoint" := VStr "host:10.0.0.5:8080"]> ∅)), Nil).
Proof.
  etransitivity.
  - refine (proj1 (proj2 (pattern_replacement_kinds regexp.Compile 0%nat
              (<["endpoint" := VStr "host:10.0.0.5:8080"]> ∅)
              "endpoint%\d+%" "endpoint%\d+%" "" "" "endpoint" "\d+"
              (VStr "host:10.0.0.5:8080") _ _ _ _ _))
              42 (regexp.Plus (regexp.Class regexp.Digit)) "host:10.0.0.5:8080"
              _ _ _);
      first [discriminate | vm_compute; reflexivity].
  - vm_compute. reflexivity.
Defined.

(** C2 as stated fails: a boolean replacement is not stringified, the
    call fails with ErrPatternSubstring and the field keeps its value. *)
Lemma boolean_replacement_is_refused :
  updateField regexp.Compile 2 Examples.endpoint
    (pathSlice "data.endpoint%\d+\.\d+\.\d+\.\d+%") (VBool true)
  = (Examples.endpoint, Err (ErrPatternSubstring msgReplacementKind)).
Proof. vm_compute. reflexivity. Qed.


(** *** The replaced matches, one by one *)
















(** *** Splitting and joining on one character *)

Lemma prefix_char c x s : String.prefix (String c "") (String x s) = Ascii.eqb c x.
Proof.
  cbn. destruct (ascii_dec c x) as [->|Hne].
  - rewrite Ascii.eqb_refl. destruct s; reflexivity.
  - symmetry. apply Ascii.eqb_neq. exact Hne.
Qed.

Lemma Split_char_cons c x s :
  strings.Split (String x s) (String c "") =
    if Ascii.eqb c x then "" :: strings.Split s (String c "")
    else strings.consHead x (strings.Split s (String c "")).
Proof.
  unfold strings.Split. cbn [strings.splitGo]. unfold strings.HasPrefix.
  rewrite prefix_char. reflexivity.
Qed.

Lemma Split_char_nonempty c s : strings.Split s (String c "") <> [].
Proof.
  induction s as [|x s IH]; [discriminate|].
  rewrite Split_char_cons. destruct (Ascii.eqb c x); [discriminate|].
  destruct (strings.Split s (String c "")); [congruence|discriminate].
Qed.

Lemma Join_cons x l sep :
  l <> [] -> strings.Join (x :: l) sep = x +:+ sep +:+ strings.Join l sep.
Proof. destruct l; [congruence|reflexivity]. Qed.

Lemma Join_consHead x l sep :
  l <> [] -> strings.Join (strings.consHead x l) sep = String x (strings.Join l sep).
Proof.
  destruct l as [|h [|h' t]]; [congruence|reflexivity|reflexivity].
Qed.

Lemma Join_Split_char c s : strings.Join (strings.Split s (String c "")) (String c "") = s.
Proof.
  induction s as [|x s IH]; [reflexivity|].
  rewrite Split_char_cons. destruct (Ascii.eqb_spec c x) as [->|Hne].
  - rewrite Join_cons by apply Split_char_nonempty. rewrite IH. reflexivity.
  - rewrite Join_consHead by apply Split_char_nonempty. rewrite IH. reflexivity.
Qed.

Lemma Split_char_none c s :
  occurs c s = false -> strings.Split s (String c "") = [s].
Proof.
  induction s as [|x s IH]; [reflexivity|].
  cbn [occurs]. intros H. apply orb_false_iff in H as [Hx Hs].
  rewrite Split_char_cons, Hx, (IH Hs). reflexivity.
Qed.

Lemma consHead_app x l1 l2 :
  l1 <> [] -> strings.consHead x (l1 ++ l2) = strings.consHead x l1 ++ l2.
Proof. destruct l1; [congruence|reflexivity]. Qed.

Lemma Split_char_app c a b :
  strings.Split (a +:+ String c b) (String c "")
  = strings.Split a (String c "") ++ strings.Split b (String c "").
Proof.
  induction a as [|x a IH].
  - cbn [String.append]. rewrite Split_char_cons, Ascii.eqb_refl. reflexivity.
  - cbn [String.append]. rewrite !Split_char_cons, IH.
    destruct (Ascii.eqb c x); [reflexivity|].
    apply consHead_app, Split_char_nonempty.
Qed.

Lemma Join_app l1 l2 sep :
  l1 <> [] -> l2 <> [] ->
  strings.Join (l1 ++ l2) sep = strings.Join l1 sep +:+ sep +:+ strings.Join l2 sep.
Proof.
  intros H1 H2. induction l1 as [|x l1 IH]; [congruence|].
  destruct l1 as [|y l1].
  - cbn [app]. apply Join_cons. exact H2.
  - change ((x :: y :: l1) ++ l2) with (x :: (y :: l1) ++ l2).
    rewrite !Join_cons by discriminate. rewrite IH by discriminate.
    by_assoc.
Qed.

(** *** Protecting and restoring dots *)

Lemma protectDots_cons x s :
  protectDots (String x s) =
    if Ascii.eqb "." x then dotReplacer +:+ protectDots s
    else String x (protectDots s).
Proof.
  unfold protectDots, strings.ReplaceAll. cbn [strings.replaceGo].
  unfold strings.HasPrefix. rewrite prefix_char. reflexivity.
Qed.

Lemma restoreDots_sentinel s :
  restoreDots (dotReplacer +:+ s) = String "." (restoreDots s).
Proof.
  unfold restoreDots, strings.ReplaceAll, dotReplacer.
  cbn [String.append strings.replaceGo]. unfold strings.HasPrefix.
  replace (String.prefix "$$$$" (String "$" (String "$" (String "$" (String "$" s)))))
    with true by (destruct s; reflexivity).
  reflexivity.
Qed.

Lemma restoreDots_cons x s :
  Ascii.eqb "$" x = false -> restoreDots (String x s) = String x (restoreDots s).
Proof.
  intros Hx. unfold restoreDots, strings.ReplaceAll, dotReplacer.
  cbn [strings.replaceGo]. unfold strings.HasPrefix.
  replace (String.prefix "$$$$" (String x s)) with false; [reflexivity|].
  symmetry. cbn [String.prefix].
  destruct (ascii_dec "$" x) as [<-|Hne]; [|reflexivity].
  rewrite Ascii.eqb_refl in Hx. discriminate.
Qed.

Lemma Protected_refl s : Protected s s.
Proof. induction s; constructor; assumption. Qed.

Lemma Protected_app a a' b b' :
  Protected a a' -> Protected b b' -> Protected (a +:+ b) (a' +:+ b').
Proof.
  induction 1 as [|x p t _ IH|p t _ IH]; intros Hb.
  - exact Hb.
  - cbn [String.append]. constructor. apply IH. exact Hb.
  - unfold dotReplacer. cbn [String.append].
    apply (Protected_dot (p +:+ b) (t +:+ b')). apply IH. exact Hb.
Qed.

Lemma Protected_protectDots s : Protected s (protectDots s).
Proof.
  induction s as [|x s IH]; [constructor|].
  rewrite protectDots_cons. destruct (Ascii.eqb_spec "." x) as [<-|Hne].
  - apply Protected_dot. exact IH.
  - apply Protected_keep. exact IH.
Qed.

(** Restoring undoes protecting on a text without [$]. *)
Lemma restoreDots_Protected p t :
  Protected p t -> occurs "$" p = false -> restoreDots t = p.
Proof.
  induction 1 as [|x p t _ IH|p t _ IH]; intros Hp.
  - reflexivity.
  - cbn [occurs] in Hp. apply orb_false_iff in Hp as [Hx Hp].
    rewrite (restoreDots_cons x t Hx), (IH Hp). reflexivity.
  - cbn [occurs] in Hp. apply orb_false_iff in Hp as [_ Hp].
    rewrite restoreDots_sentinel, (IH Hp). reflexivity.
Qed.

Lemma Protected_allChars f p t :
  f "$"%char = true -> Protected p t ->
  strings.allChars f p = true -> strings.allChars f t = true.
Proof.
  intros Hf. induction 1 as [|x p t _ IH|p t _ IH]; intros Hp.
  - reflexivity.
  - cbn [strings.allChars] in *. apply andb_true_iff in Hp as [Hx Hp].
    rewrite Hx, (IH Hp). reflexivity.
  - cbn [strings.allChars] in Hp. apply andb_true_iff in Hp as [_ Hp].
    unfold dotReplacer. cbn [String.append strings.allChars].
    rewrite Hf, (IH Hp). reflexivity.
Qed.

Lemma Protected_protectFilter part : Protected part (protectFilter part).
Proof.
  unfold protectFilter. destruct (strings.Contains part "]"); [|apply Protected_refl].
  pose proof (Join_Split_char "]" part) as Hjoin.
  destruct (strings.Split part "]") as [|f0 filter]; [apply Protected_refl|].
  destruct filter as [|f1 filter].
  - cbn in Hjoin. subst f0. apply Protected_protectDots.
  - rewrite Join_cons in Hjoin by discriminate. rewrite <- Hjoin.
    change (strings.ReplaceAll f0 "." dotReplacer) with (protectDots f0).
    rewrite (Join_cons (protectDots f0)) by discriminate.
    apply Protected_app; [apply Protected_protectDots|apply Protected_refl].
Qed.

Lemma Protected_Join parts :
  Protected (strings.Join parts "[") (strings.Join (map protectFilter parts) "[").
Proof.
  induction parts as [|x parts IH]; [constructor|].
  destruct parts as [|y parts].
  - apply Protected_protectFilter.
  - change (map protectFilter (x :: y :: parts))
      with (protectFilter x :: map protectFilter (y :: parts)).
    rewrite Join_cons by discriminate.
    rewrite (Join_cons (protectFilter x)) by discriminate.
    apply Protected_app; [apply Protected_protectFilter|].
    apply Protected_app; [apply Protected_refl|exact IH].
Qed.

Lemma Protected_protectPath p : Protected p (protectPath p).
Proof.
  unfold protectPath. rewrite <- (Join_Split_char "[" p) at 1.
  apply Protected_Join.
Qed.

(** *** Repetition of a character class *)

Section ClassLoop.

Context {R : Type}.
Implicit Types (s a b : string) (c : regexp.caps) (k : @regexp.cont R).

Lemma exec_star_class_cons cc x s c k :
  regexp.exec (regexp.Star (regexp.Class cc)) (String x s) c k =
    if regexp.inClass cc x
    then match regexp.exec (regexp.Star (regexp.Class cc)) s c k with
         | Some r => Some r
         | None => k (String x s) c
         end
    else k (String x s) c.
Proof.
  rewrite exec_star. cbn [regexp.exec].
  destruct (regexp.inClass cc x); [|reflexivity].
  replace (String.length s <? String.length (String x s))%nat with true;
    [reflexivity|].
  symmetry. apply Nat.ltb_lt. cbn. lia.
Qed.

Lemma exec_star_class_nil cc c k :
  regexp.exec (regexp.Star (regexp.Class cc)) "" c k = k "" c.
Proof. rewrite exec_star. reflexivity. Qed.

(** The loop fails only when the continuation fails after every run of
    class characters at the start of the text. *)
Lemma exec_star_class_none cc s c k :
  regexp.exec (regexp.Star (regexp.Class cc)) s c k = None ->
  forall a b, s = a +:+ b -> strings.allChars (regexp.inClass cc) a = true ->
              k b c = None.
Proof.
  induction s as [|x s IH]; intros H a b Hs Ha.
  - rewrite exec_star_class_nil in H.
    destruct a; [|discriminate]. cbn in Hs. subst b. exact H.
  - rewrite exec_star_class_cons in H. destruct a as [|y a].
    + cbn in Hs. subst b.
      destruct (regexp.inClass cc x); [|exact H].
      destruct (regexp.exec _ s c k); [discriminate|exact H].
    + cbn in Hs. injection Hs as <- Hs. cbn in Ha.
      apply andb_true_iff in Ha as [Hx Ha]. rewrite Hx in H.
      destruct (regexp.exec _ s c k) eqn:Hrec; [discriminate|].
      exact (IH eq_refl a b Hs Ha).
Qed.

(** The loop takes the longest run of class characters after which the
    continuation succeeds. *)
Lemma exec_star_class_some cc s c k x :
  regexp.exec (regexp.Star (regexp.Class cc)) s c k = Some x ->
  exists a b,
    s = a +:+ b /\ strings.allChars (regexp.inClass cc) a = true
    /\ k b c = Some x
    /\ forall a' b', s = a' +:+ b' ->
         strings.allChars (regexp.inClass cc) a' = true ->
         (String.length a < String.length a')%nat -> k b' c = None.
Proof.
  revert x. induction s as [|y s IH]; intros x H.
  - rewrite exec_star_class_nil in H. exists "", "".
    repeat split; [exact H|].
    intros a' b' Hs _ Hlen. destruct a'; [cbn in Hlen; lia|discriminate].
  - rewrite exec_star_class_cons in H.
    destruct (regexp.inClass cc y) eqn:Hy.
    + destruct (regexp.exec _ s c k) as [x0|] eqn:Hrec.
      * injection H as <-.
        destruct (IH x0 eq_refl) as (a & b & -> & Ha & Hk & Hlong).
        exists (String y a), b. cbn [strings.allChars String.append].
        rewrite Hy, Ha. repeat split; [exact Hk|].
        intros a' b' Hs Ha' Hlen. destruct a' as [|z a']; [cbn in Hlen; lia|].
        cbn in Hs. injection Hs as <- Hs. cbn in Ha'.
        apply andb_true_iff in Ha' as [_ Ha'].
        apply (Hlong a' b' Hs Ha'). cbn in Hlen. lia.
      * exists "", (String y s). repeat split; [exact H|].
        intros a' b' Hs Ha' Hlen. destruct a' as [|z a']; [cbn in Hlen; lia|].
        cbn in Hs. injection Hs as <- Hs. cbn in Ha'.
        apply andb_true_iff in Ha' as [_ Ha'].
        exact (exec_star_class_none cc s c k Hrec a' b' Hs Ha').
    + exists "", (String y s). repeat split; [exact H|].
      intros a' b' Hs Ha' Hlen. destruct a' as [|z a']; [cbn in Hlen; lia|].
      cbn in Hs. injection Hs as <- Hs. cbn in Ha'. rewrite Hy in Ha'. discriminate.
Qed.

Lemma exec_plus_class_none cc s c k :
  regexp.exec (regexp.Plus (regexp.Class cc)) s c k = None ->
  forall a b, s = a +:+ b -> a <> "" ->
              strings.allChars (regexp.inClass cc) a = true -> k b c = None.
Proof.
  unfold regexp.Plus. cbn [regexp.exec]. intros H a b Hs Hne Ha.
  destruct a as [|y a]; [congruence|]. cbn in Hs. subst s. cbn in Ha.
  apply andb_true_iff in Ha as [Hy Ha]. rewrite Hy in H.
  exact (exec_star_class_none cc _ c k H a b eq_refl Ha).
Qed.

Lemma exec_plus_class_some cc s c k x :
  regexp.exec (regexp.Plus (regexp.Class cc)) s c k = Some x ->
  exists a b,
    s = a +:+ b /\ a <> "" /\ strings.allChars (regexp.inClass cc) a = true
    /\ k b c = Some x
    /\ forall a' b', s = a' +:+ b' ->
         strings.allChars (regexp.inClass cc) a' = true ->
         (String.length a < String.length a')%nat -> k b' c = None.
Proof.
  unfold regexp.Plus. cbn [regexp.exec]. intros H.
  destruct s as [|y s]; [discriminate|].
  destruct (regexp.inClass cc y) eqn:Hy; [|discriminate].
  destruct (exec_star_class_some cc s c k x H) as (a & b & -> & Ha & Hk & Hlong).
  exists (String y a), b. cbn [strings.allChars String.append].
  rewrite Hy, Ha. repeat split; [discriminate|exact Hk|].
  intros a' b' Hs Ha' Hlen. destruct a' as [|z a']; [cbn in Hlen; lia|].
  cbn in Hs. injection Hs as <- Hs. cbn in Ha'.
  apply andb_true_iff in Ha' as [_ Ha'].
  apply (Hlong a' b' Hs Ha'). cbn in Hlen. lia.
Qed.

End ClassLoop.

(** *** The substring-pattern suffix of a path *)

Section Suffix.

Context {R : Type}.
Implicit Types (s a b : string) (c : regexp.caps) (k : @regexp.cont R).

Lemma exec_patternSuffix_some b c k x :
  regexp.exec patternSuffix b c k = Some x ->
  exists g2,
    b = String "%" (g2 +:+ "%") /\ g2 <> ""
    /\ strings.allChars notSpace g2 = true
    /\ k "" ((2%nat, g2) :: c) = Some x.
Proof.
  unfold patternSuffix. cbn [regexp.exec]. intros H.
  destruct b as [|y b]; [discriminate|].
  destruct (Ascii.eqb_spec "%" y) as [<-|]; [|discriminate].
  apply exec_plus_class_some in H as (g2 & b2 & -> & Hne & Hg2 & Hk & _).
  destruct b2 as [|z b2]; [discriminate|].
  destruct (Ascii.eqb_spec "%" z) as [<-|]; [|discriminate].
  destruct b2; [|discriminate].
  rewrite taken_app in Hk. exists g2. repeat split; assumption.
Qed.

Lemma exec_patternSuffix_none b c k :
  regexp.exec patternSuffix b c k = None ->
  forall g2, b = String "%" (g2 +:+ "%") -> g2 <> "" ->
             strings.allChars notSpace g2 = true ->
             k "" ((2%nat, g2) :: c) = None.
Proof.
  unfold patternSuffix. cbn [regexp.exec]. intros H g2 -> Hne Hg2.
  rewrite Ascii.eqb_refl in H.
  pose proof (exec_plus_class_none _ _ _ _ H g2 "%" eq_refl Hne Hg2) as Hk.
  cbn in Hk. rewrite taken_app in Hk. exact Hk.
Qed.

End Suffix.

Lemma matchHere_substringPattern t :
  regexp.matchHere substringPatternRegex t =
    regexp.exec (regexp.Plus (regexp.Class regexp.NotSpace)) t []
      (fun s1 c1 =>
         regexp.exec patternSuffix s1 ((1%nat, regexp.taken t s1) :: c1)
           (fun s' c => Some (regexp.Found "" (regexp.taken t s') s' c))).
Proof. reflexivity. Qed.

Lemma matchHere_substringPattern_some t f :
  regexp.matchHere substringPatternRegex t = Some f ->
  exists g1 g2,
    endsWithPattern t g1 g2
    /\ f = regexp.Found "" t "" [(2%nat, g2); (1%nat, g1)]
    /\ forall g1' g2', endsWithPattern t g1' g2' ->
                       (String.length g1' <= String.length g1)%nat.
Proof.
  rewrite matchHere_substringPattern. intros H.
  apply exec_plus_class_some in H as (g1 & b & -> & Hne1 & Hg1 & Hk & Hlong).
  apply exec_patternSuffix_some in Hk as (g2 & -> & Hne2 & Hg2 & [= <-]).
  rewrite taken_app. exists g1, g2. split; [|split].
  - repeat split; assumption.
  - f_equal. apply taken_all.
  - intros g1' g2' (Ht & Hne1' & Hne2' & Hg1' & Hg2').
    destruct (Nat.le_gt_cases (String.length g1') (String.length g1)) as [|Hlt];
      [assumption|exfalso].
    pose proof (Hlong g1' _ Ht Hg1' Hlt) as Hnone.
    pose proof (exec_patternSuffix_none _ _ _ Hnone g2' eq_refl Hne2' Hg2') as Hk.
    discriminate.
Qed.

Lemma matchHere_substringPattern_none t :
  regexp.matchHere substringPatternRegex t = None ->
  forall g1 g2, ~ endsWithPattern t g1 g2.
Proof.
  rewrite matchHere_substringPattern. intros H g1 g2 (Ht & Hne1 & Hne2 & Hg1 & Hg2).
  pose proof (exec_plus_class_none _ _ _ _ H g1 _ Ht Hne1 Hg1) as Hnone.
  pose proof (exec_patternSuffix_none _ _ _ Hnone g2 eq_refl Hne2 Hg2) as Hk.
  discriminate.
Qed.

(** In a text without white space the pattern is found at the start or
    nowhere. *)
Lemma find_substringPattern_none t :
  strings.allChars notSpace t = true ->
  regexp.matchHere substringPatternRegex t = None ->
  regexp.find substringPatternRegex t = None.
Proof.
  induction t as [|x t IH]; intros Ht H0; cbn [regexp.find]; rewrite H0;
    [reflexivity|].
  cbn [strings.allChars] in Ht. apply andb_true_iff in Ht as [Hx Ht].
  rewrite IH; [reflexivity|exact Ht|].
  destruct (regexp.matchHere substringPatternRegex t) as [f|] eqn:Hf; [|reflexivity].
  exfalso.
  apply matchHere_substringPattern_some in Hf
    as (g1 & g2 & (-> & Hne1 & Hne2 & Hg1 & Hg2) & _).
  apply (matchHere_substringPattern_none _ H0 (String x g1) g2).
  repeat split; try assumption; [discriminate|].
  cbn [strings.allChars]. rewrite Hx, Hg1. reflexivity.
Qed.

(** What [extractSubstringPattern] returns on a text without white
    space: the text itself and no pattern, or the two parts of a text
    that ends with a pattern, the first as long as can be. *)
Lemma extractSubstringPattern_shape t :
  strings.allChars notSpace t = true ->
  (extractSubstringPattern t = (t, "") /\ forall g1 g2, ~ endsWithPattern t g1 g2)
  \/ exists g1 g2,
       extractSubstringPattern t = (g1, g2)
       /\ endsWithPattern t g1 g2
       /\ forall g1' g2', endsWithPattern t g1' g2' ->
                          (String.length g1' <= String.length g1)%nat.
Proof.
  intros Ht. unfold extractSubstringPattern, regexp.FindStringSubmatch.
  destruct (regexp.matchHere substringPatternRegex t) as [f|] eqn:Hf.
  - right.
    assert (Hfind : regexp.find substringPatternRegex t = Some f).
    { destruct t; cbn [regexp.find]; rewrite Hf; reflexivity. }
    rewrite Hfind.
    destruct (matchHere_substringPattern_some t f Hf) as (g1 & g2 & Hends & -> & Hlong).
    exists g1, g2. split; [reflexivity|split; assumption].
  - left. rewrite (find_substringPattern_none t Ht Hf).
    split; [reflexivity|apply matchHere_substringPattern_none; exact Hf].
Qed.

(** *** Restoring dots segment by segment *)

Lemma prefix_empty s : String.prefix "" s = true.
Proof. destruct s; reflexivity. Qed.

Lemma prefix_app_other w a x b :
  occurs x w = false ->
  String.prefix w a = false ->
  String.prefix w (a +:+ String x b) = false.
Proof.
  revert a. induction w as [|d w IH]; intros a Hw Ha.
  - rewrite prefix_empty in Ha. discriminate.
  - cbn [occurs] in Hw. apply orb_false_iff in Hw as [Hd Hw].
    destruct a as [|y a]; cbn [String.append String.prefix] in *.
    + destruct (ascii_dec d x) as [->|]; [|reflexivity].
      rewrite Ascii.eqb_refl in Hd. discriminate.
    + destruct (ascii_dec d y); [|reflexivity]. apply IH; assumption.
Qed.

Lemma prefix_true w s : String.prefix w s = true -> exists s', s = w +:+ s'.
Proof.
  revert s. induction w as [|d w IH]; intros s H.
  - exists s. reflexivity.
  - destruct s as [|y s]; cbn [String.prefix] in H; [discriminate|].
    destruct (ascii_dec d y) as [<-|]; [|discriminate].
    destruct (IH s H) as [s' ->]. exists s'. reflexivity.
Qed.

Lemma restoreDots_step y s :
  String.prefix dotReplacer (String y s) = false ->
  restoreDots (String y s) = String y (restoreDots s).
Proof.
  intros H. unfold restoreDots, strings.ReplaceAll.
  change (match dotReplacer with "" => _ | String _ _ => ?f end) with f.
  cbn [strings.replaceGo]. unfold strings.HasPrefix. rewrite H. reflexivity.
Qed.

(** A character other than [$] separates what is restored before it
    from what is restored after it. *)
Lemma restoreDots_app_char a x b :
  Ascii.eqb "$" x = false ->
  restoreDots (a +:+ String x b) = restoreDots a +:+ String x (restoreDots b).
Proof.
  intros Hx. remember (String.length a) as n eqn:Hn. revert a Hn.
  induction n as [n IH] using lt_wf_ind. intros a Hn.
  destruct (String.prefix dotReplacer a) eqn:Hpre.
  - destruct (prefix_true _ _ Hpre) as [a' ->].
    rewrite app_assoc_s, !restoreDots_sentinel.
    rewrite (IH (String.length a')); [reflexivity| |reflexivity].
    rewrite Hn, length_app_s. cbn. lia.
  - destruct a as [|y a].
    + cbn [String.append]. apply restoreDots_cons. exact Hx.
    + cbn [String.append].
      rewrite (restoreDots_step y (a +:+ String x b)).
      * rewrite (restoreDots_step y a Hpre).
        rewrite (IH (String.length a)); [reflexivity| |reflexivity].
        rewrite Hn. cbn. lia.
      * apply (prefix_app_other dotReplacer (String y a) x b); [|exact Hpre].
        cbn [occurs dotReplacer]. rewrite Ascii.eqb_sym, Hx. reflexivity.
Qed.

Lemma Join_map_restoreDots segs :
  strings.Join (map restoreDots segs) "." = restoreDots (strings.Join segs ".").
Proof.
  induction segs as [|x segs IH]; [reflexivity|].
  destruct segs as [|y segs]; [reflexivity|].
  change (map restoreDots (x :: y :: segs))
    with (restoreDots x :: map restoreDots (y :: segs)).
  rewrite (Join_cons (restoreDots x)) by discriminate.
  rewrite (Join_cons x) by discriminate.
  rewrite IH. cbn [String.append].
  rewrite restoreDots_app_char by reflexivity. reflexivity.
Qed.

Lemma pathSlice_segments p :
  pathSlice p = map restoreDots (segments (protectPath p)).
Proof.
  unfold pathSlice, segments, protectPath.
  destruct (extractSubstringPattern _) as [q pat]. reflexivity.
Qed.

Lemma Join_appendLast l suffix sep :
  l <> [] -> strings.Join (appendLast l suffix) sep = strings.Join l sep +:+ suffix.
Proof.
  induction l as [|x l IH]; [congruence|]. intros _.
  destruct l as [|y l]; [reflexivity|].
  change (appendLast (x :: y :: l) suffix) with (x :: appendLast (y :: l) suffix).
  assert (Hne : appendLast (y :: l) suffix <> []) by (destruct l; discriminate).
  rewrite (Join_cons x _ sep Hne), (Join_cons x (y :: l)) by discriminate.
  rewrite IH by discriminate. by_assoc.
Qed.

Lemma length_pos_nonempty s : s <> "" -> (0 <? String.length s)%nat = true.
Proof. destruct s; [congruence|reflexivity]. Qed.

Lemma Join_segments t :
  strings.allChars notSpace t = true -> strings.Join (segments t) "." = t.
Proof.
  intros Ht. unfold segments.
  destruct (extractSubstringPattern_shape t Ht)
    as [[-> _]|(g1 & g2 & -> & (Heq & _ & Hne2 & _) & _)].
  - cbn [String.length Nat.ltb Nat.leb]. apply Join_Split_char.
  - rewrite (length_pos_nonempty g2 Hne2).
    rewrite Join_appendLast by apply Split_char_nonempty.
    rewrite Join_Split_char. rewrite Heq. reflexivity.
Qed.

Lemma notSpace_dollar : notSpace "$" = true.
Proof. reflexivity. Qed.

(** Joining the path slice with dots gives the path back. *)
Lemma Join_pathSlice p :
  strings.allChars notSpace p = true ->
  occurs "$" p = false ->
  strings.Join (pathSlice p) "." = p.
Proof.
  intros Hns Hdollar.
  pose proof (Protected_protectPath p) as Hprot.
  rewrite pathSlice_segments, Join_map_restoreDots, Join_segments.
  - apply restoreDots_Protected; assumption.
  - apply (Protected_allChars notSpace p _ notSpace_dollar Hprot Hns).
Qed.

(** *** A bracketed filter stays in one segment *)

Lemma Contains_char s c : strings.Contains s (String c "") = occurs c s.
Proof.
  induction s as [|x s IH]; [reflexivity|].
  cbn [strings.Contains occurs]. unfold strings.HasPrefix.
  rewrite prefix_char, IH. reflexivity.
Qed.

Lemma Split_char_prefix c a s h t :
  occurs c a = false ->
  strings.Split s (String c "") = h :: t ->
  strings.Split (a +:+ s) (String c "") = (a +:+ h) :: t.
Proof.
  intros Ha Hs. induction a as [|x a IH]; [exact Hs|].
  cbn [occurs] in Ha. apply orb_false_iff in Ha as [Hx Ha].
  cbn [String.append]. rewrite Split_char_cons, Hx, (IH Ha). reflexivity.
Qed.

Lemma protectFilter_filter f h :
  occurs "]" f = false ->
  protectFilter (f +:+ String "]" h) = protectDots f +:+ String "]" h.
Proof.
  intros Hf. unfold protectFilter.
  rewrite Contains_char, occurs_app. cbn [occurs].
  rewrite Ascii.eqb_refl, orb_true_r. cbn [orb].
  rewrite Split_char_app, (Split_char_none "]" f Hf). cbn [app].
  change (strings.ReplaceAll f "." dotReplacer) with (protectDots f).
  rewrite Join_cons by apply Split_char_nonempty.
  rewrite Join_Split_char. reflexivity.
Qed.

(** The filter of a path, with its dots protected, is in the protected
    path. *)
Lemma protectPath_filter pre f post :
  occurs "[" f = false ->
  occurs "]" f = false ->
  exists X Y,
    protectPath (pre +:+ String "[" (f +:+ String "]" post))
    = X +:+ String "[" (protectDots f +:+ String "]" Y).
Proof.
  intros Hopen Hclose. unfold protectPath.
  pose proof (Split_char_nonempty "[" post) as Hpost.
  destruct (strings.Split post "[") as [|h t] eqn:Hsplit; [congruence|].
  rewrite Split_char_app.
  rewrite (Split_char_prefix "[" f (String "]" post) (String "]" h) t Hopen).
  2:{ rewrite Split_char_cons, Hsplit. reflexivity. }
  rewrite map_app. cbn [map].
  rewrite (protectFilter_filter f h Hclose).
  rewrite Join_app; [|intros H; apply map_eq_nil in H;
                       exact (Split_char_nonempty "[" pre H)|discriminate].
  exists (strings.Join (map protectFilter (strings.Split pre "[")) "[").
  destruct t as [|t0 t].
  - exists h. reflexivity.
  - exists (h +:+ "[" +:+ strings.Join (map protectFilter (t0 :: t)) "[").
    change (map protectFilter (t0 :: t)) with (protectFilter t0 :: map protectFilter t).
    rewrite (Join_cons (protectDots f +:+ String "]" h)) by discriminate.
    by_assoc.
Qed.

Lemma protectDots_no_dot f : occurs "." (protectDots f) = false.
Proof.
  induction f as [|x f IH]; [reflexivity|].
  rewrite protectDots_cons. destruct (Ascii.eqb "." x) eqn:Hx.
  - unfold dotReplacer. cbn [String.append occurs]. rewrite IH. reflexivity.
  - cbn [occurs]. rewrite Hx, IH. reflexivity.
Qed.

(** A text without the separator, found in a joined list, lies in one
    element of the list. *)
Lemma Join_holds segs X M Y :
  segs <> [] -> M <> "" -> occurs "." M = false ->
  strings.Join segs "." = X +:+ M +:+ Y ->
  exists l1 x y l2, segs = l1 ++ [x +:+ M +:+ y] ++ l2.
Proof.
  intros Hsegs HM Hdot. revert X Hsegs.
  induction segs as [|s segs IH]; intros X Hsegs Hjoin; [congruence|].
  assert (Hhere : forall e J, M +:+ Y = e +:+ String "." J ->
            exists y, e = M +:+ y).
  { intros e J He. destruct (app_eq_app_s _ _ _ _ He) as [(e2 & -> & _)|(e2 & -> & H2)].
    - exists e2. reflexivity.
    - destruct e2 as [|z e2]; [exists ""; by_assoc|].
      cbn in H2. injection H2 as <- _. rewrite occurs_app in Hdot.
      cbn [occurs] in Hdot. rewrite Ascii.eqb_refl, orb_true_r in Hdot. discriminate. }
  destruct segs as [|s' segs].
  - cbn in Hjoin. subst s. exists [], X, Y, []. reflexivity.
  - rewrite Join_cons in Hjoin by discriminate. cbn [String.append] in Hjoin.
    destruct (app_eq_app_s _ _ _ _ Hjoin) as [(e & -> & He)|(e & -> & He)].
    + destruct e as [|z e].
      * cbn in He. destruct M as [|m0 M]; [congruence|].
        cbn in He. injection He as <- _. cbn [occurs] in Hdot.
        rewrite Ascii.eqb_refl in Hdot. discriminate.
      * cbn in He. injection He as <- He.
        destruct (IH e ltac:(discriminate) He) as (l1 & x & y & l2 & Hl).
        exists (s :: l1), x, y, l2. rewrite Hl. reflexivity.
    + destruct (Hhere e _ He) as [y ->].
      exists [], X, y, (s' :: segs). reflexivity.
Qed.

Lemma segments_nonempty t : segments t <> [].
Proof.
  unfold segments. destruct (extractSubstringPattern t) as [q pat].
  pose proof (Split_char_nonempty "." q) as Hq.
  destruct (_ <? _)%nat; [|exact Hq].
  destruct (strings.Split q ".") as [|x [|y l]]; [congruence|discriminate..].
Qed.

Lemma pathSlice_keeps_filter p pre f post :
  strings.allChars notSpace p = true ->
  occurs "$" p = false ->
  p = pre +:+ String "[" (f +:+ String "]" post) ->
  occurs "[" f = false ->
  occurs "]" f = false ->
  exists l1 x y l2,
    pathSlice p = l1 ++ [x +:+ String "[" (f +:+ String "]" y)] ++ l2.
Proof.
  intros Hns Hdollar Hp Hopen Hclose.
  destruct (protectPath_filter pre f post Hopen Hclose) as (X & Y & Ht).
  rewrite <- Hp in Ht.
  pose proof (Protected_allChars notSpace p _ notSpace_dollar
                (Protected_protectPath p) Hns) as Hnst.
  pose proof (Join_segments _ Hnst) as Hjoin.
  destruct (Join_holds (segments (protectPath p)) X
              (String "[" (protectDots f +:+ "]")) Y) as (l1 & x & y & l2 & Hsegs).
  - apply segments_nonempty.
  - discriminate.
  - cbn [occurs]. rewrite occurs_app, protectDots_no_dot. reflexivity.
  - rewrite Hjoin, Ht. by_assoc.
  - exists (map restoreDots l1), (restoreDots x), (restoreDots y), (map restoreDots l2).
    rewrite pathSlice_segments, Hsegs, !map_app. cbn [map].
    do 3 f_equal. cbn [String.append]. rewrite app_assoc_s. cbn [String.append].
    rewrite !restoreDots_app_char by reflexivity.
    rewrite (restoreDots_Protected f (protectDots f) (Protected_protectDots f)).
    + reflexivity.
    + rewrite Hp, !occurs_app in Hdollar. cbn [occurs] in Hdollar.
      rewrite occurs_app in Hdollar.
      apply orb_false_iff in Hdollar as [_ Hdollar].
      apply orb_false_iff in Hdollar as [_ Hdollar].
      apply orb_false_iff in Hdollar as [Hdollar _]. exact Hdollar.
Qed.

(** *** The substring pattern stays at the end of the last segment *)

Lemma Protected_cons_inv x p t :
  Ascii.eqb "." x = false -> Protected (String x p) t ->
  exists t', t = String x t' /\ Protected p t'.
Proof.
  intros Hx H. inversion H; subst.
  - eexists. split; [reflexivity|assumption].
  - rewrite Ascii.eqb_refl in Hx. discriminate.
Qed.

Lemma Protected_app_inv a b t :
  Protected (a +:+ b) t ->
  exists a' b', t = a' +:+ b' /\ Protected a a' /\ Protected b b'.
Proof.
  revert t. induction a as [|x a IH]; intros t H.
  - exists "", t. repeat split; [constructor|exact H].
  - cbn [String.append] in H. inversion H as [|? ? t' Hrec|? t' Hrec]; subst.
    + destruct (IH _ Hrec) as (a' & b' & -> & Ha & Hb).
      exists (String x a'), b'. repeat split; [constructor; exact Ha|exact Hb].
    + destruct (IH _ Hrec) as (a' & b' & -> & Ha & Hb).
      exists (dotReplacer +:+ a'), b'. split; [by_assoc|].
      split; [constructor; exact Ha|exact Hb].
Qed.

Lemma Protected_occurs c p t :
  Ascii.eqb c "$" = false -> Protected p t ->
  occurs c p = false -> occurs c t = false.
Proof.
  intros Hc. induction 1 as [|x p t _ IH|p t _ IH]; intros Hp.
  - reflexivity.
  - cbn [occurs] in *. apply orb_false_iff in Hp as [Hx Hp].
    rewrite Hx, (IH Hp). reflexivity.
  - cbn [occurs] in Hp. apply orb_false_iff in Hp as [_ Hp].
    unfold dotReplacer. cbn [String.append occurs]. rewrite Hc, (IH Hp). reflexivity.
Qed.

Lemma Protected_nonempty p t : Protected p t -> p <> "" -> t <> "".
Proof. destruct 1; [congruence|discriminate|discriminate]. Qed.

Lemma appendLast_last l suffix :
  l <> [] ->
  exists l0 x, l = l0 ++ [x] /\ appendLast l suffix = l0 ++ [x +:+ suffix].
Proof.
  induction l as [|y l IH]; [congruence|]. intros _.
  destruct l as [|z l].
  - exists [], y. split; reflexivity.
  - destruct (IH ltac:(discriminate)) as (l0 & x & Hl & Happ).
    exists (y :: l0), x.
    change (appendLast (y :: z :: l) suffix) with (y :: appendLast (z :: l) suffix).
    rewrite Happ, Hl. split; reflexivity.
Qed.

(** Two cuts of one text before a pattern without [%]: the longer first
    part is the one before the pattern. *)
Lemma endsWithPattern_unique t q pat g1 g2 :
  endsWithPattern t q pat ->
  endsWithPattern t g1 g2 ->
  occurs "%" pat = false ->
  (String.length q <= String.length g1)%nat ->
  g1 = q /\ g2 = pat.
Proof.
  intros (Hq & _) (Hg & _ & Hne2 & _) Hpat Hlen.
  rewrite Hq in Hg.
  assert (Hsame : g1 = q).
  { destruct (app_eq_app_s _ _ _ _ Hg) as [(e & -> & He)|(e & -> & He)].
    - destruct e as [|z e]; [apply app_empty_r|exfalso].
      cbn in He. injection He as <- He.
      destruct (app_eq_app_s _ _ _ _ He) as [(e2 & -> & H2)|(e2 & -> & H2)].
      + destruct e2 as [|z e2]; cbn in H2.
        * injection H2 as H2. destruct g2; discriminate.
        * injection H2 as _ H2. destruct e2; discriminate.
      + destruct e2 as [|z e2]; cbn in H2.
        * injection H2 as H2. destruct g2; discriminate.
        * injection H2 as <- _. rewrite occurs_app in Hpat. cbn [occurs] in Hpat.
          rewrite Ascii.eqb_refl, orb_true_r in Hpat. discriminate.
    - rewrite length_app_s in Hlen.
      destruct e; [symmetry; apply app_empty_r|cbn in Hlen; lia]. }
  split; [exact Hsame|]. subst g1.
  apply app_inv_head_s in Hg. injection Hg as Hg.
  destruct (app_eq_app_s _ _ _ _ Hg) as [(e & -> & He)|(e & -> & He)].
  - destruct e as [|z e]; [apply app_empty_r|].
    cbn in He. injection He as _ He. destruct e; discriminate.
  - destruct e as [|z e]; [symmetry; apply app_empty_r|].
    cbn in He. injection He as _ He. destruct e; discriminate.
Qed.

Lemma pathSlice_keeps_pattern p q pat :
  strings.allChars notSpace p = true ->
  occurs "$" p = false ->
  p = q +:+ String "%" (pat +:+ "%") ->
  q <> "" -> pat <> "" ->
  occurs "%" pat = false ->
  exists l x, pathSlice p = l ++ [x +:+ String "%" (pat +:+ "%")].
Proof.
  intros Hns Hdollar Hp Hq Hpat Hpercent.
  pose proof (Protected_protectPath p) as Hprot.
  pose proof (Protected_allChars notSpace p _ notSpace_dollar Hprot Hns) as Hnst.
  rewrite Hp in Hprot at 1.
  apply Protected_app_inv in Hprot as (q' & b' & Ht & Hq' & Hb').
  apply Protected_cons_inv in Hb' as (b'' & -> & Hb'); [|reflexivity].
  apply Protected_app_inv in Hb' as (pat' & e' & -> & Hpat' & He').
  apply Protected_cons_inv in He' as (e'' & -> & He'); [|reflexivity].
  inversion He'; subst e''. clear He'.
  assert (Hends : endsWithPattern (protectPath p) q' pat').
  { rewrite Ht, !allChars_app in Hnst. cbn [strings.allChars] in Hnst.
    rewrite allChars_app in Hnst.
    apply andb_true_iff in Hnst as [Hnq Hnst].
    apply andb_true_iff in Hnst as [_ Hnst].
    apply andb_true_iff in Hnst as [Hnp _].
    repeat split; try assumption.
    - apply (Protected_nonempty q q' Hq' Hq).
    - apply (Protected_nonempty pat pat' Hpat' Hpat). }
  rewrite pathSlice_segments. unfold segments.
  destruct (extractSubstringPattern_shape _ Hnst)
    as [[_ Hno]|(g1 & g2 & -> & Hg & Hlong)]; [exfalso; exact (Hno _ _ Hends)|].
  destruct (endsWithPattern_unique _ q' pat' g1 g2 Hends Hg) as [-> ->].
  { apply (Protected_occurs "%" pat pat'); [reflexivity|exact Hpat'|exact Hpercent]. }
  { apply (Hlong q' pat' Hends). }
  rewrite length_pos_nonempty by (apply (Protected_nonempty pat pat' Hpat' Hpat)).
  destruct (appendLast_last (strings.Split q' ".") ("%" +:+ pat' +:+ "%")
              (Split_char_nonempty "." q')) as (l0 & x & _ & ->).
  exists (map restoreDots l0), (restoreDots x).
  rewrite map_app. cbn [map]. do 2 f_equal. cbn [String.append].
  rewrite !restoreDots_app_char by reflexivity.
  rewrite (restoreDots_Protected pat pat' Hpat'); [reflexivity|].
  rewrite Hp, occurs_app in Hdollar. cbn [occurs] in Hdollar.
  rewrite occurs_app in Hdollar.
  apply orb_false_iff in Hdollar as [_ Hdollar].
  apply orb_false_iff in Hdollar as [_ Hdollar].
  apply orb_false_iff in Hdollar as [Hdollar _]. exact Hdollar.
Qed.

(** C4 (amended).  A path expression without white space and without
    the character [$] (the sentinel that stands for a protected dot is
    the text [$$$$]): the segments of its path slice, joined by dots,
    give the path back character for character; a bracketed filter of
    the path lies whole, with its dots, in one segment; and a trailing
    [%pattern%] ends the last segment, with its dots. *)
Theorem dots_survive_splitting (p : string) :
  strings.allChars notSpace p = true ->
  occurs "$" p = false ->
  strings.Join (pathSlice p) "." = p
  /\ (forall pre f post,
        p = pre +:+ String "[" (f +:+ String "]" post) ->
        occurs "[" f = false -> occurs "]" f = false ->
        exists l1 x y l2,
          pathSlice p = l1 ++ [x +:+ String "[" (f +:+ String "]" y)] ++ l2)
  /\ (forall q pat,
        p = q +:+ String "%" (pat +:+ "%") ->
        q <> "" -> pat <> "" -> occurs "%" pat = false ->
        exists l x, pathSlice p = l ++ [x +:+ String "%" (pat +:+ "%")]).
Proof.
  intros Hns Hdollar. split; [|split].
  - apply Join_pathSlice; assumption.
  - intros pre f post Hp Hopen Hclose.
    apply (pathSlice_keeps_filter p pre f post); assumption.
  - intros q pat Hp Hq Hpat Hpercent.
    apply (pathSlice_keeps_pattern p q pat); assumption.
Qed.

Lemma dots_survive_splitting_witness :
  strings.Join (pathSlice "a[ip=10.0.0.1].b") "." = "a[ip=10.0.0.1].b"
  /\ pathSlice "a[ip=10.0.0.1].b" = ["a[ip=10.0.0.1]"; "b"]
  /\ getFirstPathSegment "a[ip=10.0.0.1]" = ("a", "ip", "10.0.0.1", true)
  /\ pathSlice "data.endpoint%\d+\.\d+\.\d+\.\d+%"
     = ["data"; "endpoint%\d+\.\d+\.\d+\.\d+%"].
Proof.
  split; [|repeat split; vm_compute; reflexivity].
  apply (proj1 (dots_survive_splitting "a[ip=10.0.0.1].b" eq_refl eq_refl)).
Defined.

(** C4 as stated fails.  A filter value with a dot after a [$]: the dot
    comes back before the [$].  A path with white space before a
    trailing pattern: the steps before the white space are lost. *)
Lemma sentinel_and_space_break_the_round_trip :
  pathSlice "a[k=$.x].b" = ["a[k=.$x]"; "b"]
  /\ getFirstPathSegment "a[k=.$x]" = ("a", "k", ".$x", true)
  /\ strings.Join (pathSlice "a[k=$.x].b") "." <> "a[k=$.x].b"
  /\ pathSlice "x.a b%c.d%" = ["b%c.d%"]
  /\ strings.Join (pathSlice "x.a b%c.d%") "." <> "x.a b%c.d%".
Proof.
  repeat split; try (vm_compute; reflexivity); vm_compute; discriminate.
Qed.

(** *** Termination *)

Lemma applySubstringPattern_answers MustCompile target replacement pat :
  applySubstringPattern MustCompile target replacement pat <> OutOfFuel.
Proof.
  unfold applySubstringPattern.
  repeat case_match; discriminate.
Qed.

Lemma updateField_without_filters MustCompile fuel m pathToField replacement :
  Forall (fun segment => isFilter segment = false) pathToField ->
  (length pathToField < fuel)%nat ->
  answers (updateField MustCompile fuel m pathToField replacement).
Proof.
  revert m pathToField.
  induction fuel as [|fuel IH]; intros m pathToField Hplain Hlen; [lia|].
  destruct pathToField as [|segment rest]; [cbn; discriminate|].
  apply Forall_cons in Hplain as [Hseg Hrest]. cbn [length] in Hlen.
  assert (Hrec : forall v, snd (updateField MustCompile fuel v rest replacement)
                           <> OutOfFuel).
  { intros v. apply IH; [exact Hrest|lia]. }
  unfold answers. cbn [updateField]. unfold isFilter in Hseg.
  destruct m; try (cbn; discriminate).
  - unfold updateMapField.
    destruct (getFirstPathSegment segment) as [[[p0 key] value] isArray].
    subst isArray. destruct (extractSubstringPattern p0) as [path pat].
    cbn [negb].
    pose proof (applySubstringPattern_answers MustCompile) as Happly.
    destruct (m !! path) as [v|];
      (destruct (isNil _); [cbn; discriminate|]);
      (destruct rest as [|s rest];
       [ match goal with
         | |- context [applySubstringPattern ?a ?b ?c ?d] =>
             specialize (Happly b c d);
             destruct (applySubstringPattern a b c d)
         end; cbn; congruence
       | match goal with
         | |- context [updateField ?a ?b ?c ?d ?e] =>
             specialize (Hrec c); destruct (updateField a b c d e)
         end; exact Hrec ]).
  - unfold updateSliceField.
    destruct (getFirstPathSegment segment) as [[[p0 key] value] isArray].
    subst isArray.
    destruct (strconv.Atoi segment) as [index|]; [|cbn; discriminate].
    destruct (_ || _); [cbn; discriminate|].
    destruct (l !! Z.to_nat index) as [item|]; [|cbn; discriminate].
    destruct rest as [|s rest]; [cbn; discriminate|].
    specialize (Hrec item).
    destruct (updateField _ _ item _ _). exact Hrec.
Qed.

(** X3. A path without filter steps is always worked off: the call
    answers as soon as it may recurse deeper than the path is long, and
    what it answers is the same at every such depth. *)
Theorem paths_without_filters_are_worked_off
    (MustCompile : string -> option regexp.regex) (m : node)
    (pathToField : list string) (replacement : node) :
  Forall (fun segment => isFilter segment = false) pathToField ->
  exists outcome,
    snd outcome <> OutOfFuel
    /\ forall fuel, (length pathToField < fuel)%nat ->
         updateField MustCompile fuel m pathToField replacement = outcome.
Proof.
  intros Hsteps.
  pose proof (updateField_without_filters MustCompile (S (length pathToField)) m
                pathToField replacement Hsteps (Nat.lt_succ_diag_r _)) as Hanswers.
  exists (updateField MustCompile (S (length pathToField)) m pathToField replacement).
  split; [exact Hanswers|].
  intros fuel Hfuel. apply updateField_fuel_mono; [lia|exact Hanswers].
Qed.

Lemma paths_without_filters_are_worked_off_witness :
  exists outcome,
    snd outcome <> OutOfFuel
    /\ forall fuel, (3 < fuel)%nat ->
         updateField regexp.Compile fuel Examples.noLabels
           ["metadata"; "labels"; "env"] (VStr "prod") = outcome.
Proof.
  apply (paths_without_filters_are_worked_off regexp.Compile Examples.noLabels
           ["metadata"; "labels"; "env"] (VStr "prod")).
  repeat constructor.
Defined.

(** X4. A filter step on a field the mapping lacks.  The field is
    created as an empty mapping first.  When the step is the last one the
    call fails on that mapping, which stays in the document; when more
    steps follow, the call goes on calling itself on the new mapping with
    the same path and answers at no depth. *)
Theorem filter_on_absent_field
    (MustCompile : string -> option regexp.regex) (m : gmap string node)
    (segment p0 key value path pat : string) (replacement : node) :
  getFirstPathSegment segment = (p0, key, value, true) ->
  extractSubstringPattern p0 = (path, pat) ->
  m !! path = None ->
  (forall fuel,
      updateField MustCompile (S fuel) (VMap m) [segment] replacement
      = (VMap (<[path := VMap ∅]> m), Err (ErrTypeMismatch (VMap ∅) msgPrimitive)))
  /\ (forall fuel s rest,
        snd (updateField MustCompile fuel (VMap m) (segment :: s :: rest) replacement)
        = OutOfFuel).
Proof.
  intros Hseg Hpath Hnone. split.
  - intros fuel. cbn [updateField]. unfold updateMapField.
    rewrite Hseg, Hpath, Hnone. reflexivity.
  - intros fuel s rest.
    exact (filter_on_absent_field_never_answers MustCompile fuel m segment p0 key
             value path pat s rest replacement Hseg Hpath Hnone).
Qed.

Lemma filter_on_absent_field_witness :
  updateField regexp.Compile 1 (VMap Examples.cm) ["containers[name=app]"]
    (VStr "new")
  = (VMap (<["containers" := VMap ∅]> Examples.cm),
     Err (ErrTypeMismatch (VMap ∅) msgPrimitive))
  /\ snd (updateField regexp.Compile 1000 (VMap Examples.cm)
            ["containers[name=app]"; "image"] (VStr "new"))
     = OutOfFuel.
Proof.
  assert (Hseg : getFirstPathSegment "containers[name=app]"
                 = ("containers", "name", "app", true))
    by (vm_compute; reflexivity).
  assert (Hpath : extractSubstringPattern "containers" = ("containers", ""))
    by (vm_compute; reflexivity).
  assert (Hnone : Examples.cm !! "containers" = None)
    by (vm_compute; reflexivity).
  destruct (filter_on_absent_field regexp.Compile Examples.cm _ _ _ _ _ _
              (VStr "new") Hseg Hpath Hnone) as [Hlast Hmore].
  split; [exact (Hlast O)|exact (Hmore 1000%nat "image" [])].
Defined.

(** *** Writing and reading back *)

Lemma updateField_keeps_kind MustCompile fuel m pathToField replacement :
  pathToField <> [] ->
  snd (updateField MustCompile fuel m pathToField replacement) = Nil ->
  isNil (fst (updateField MustCompile fuel m pathToField replacement)) = false.
Proof.
  intros Hne. destruct fuel as [|fuel]; [discriminate|].
  destruct pathToField as [|segment rest]; [congruence|]. cbn [updateField].
  destruct m; try discriminate.
  - destruct (updateMapField _ _ _ _ _). reflexivity.
  - destruct (updateSliceField _ _ _ _). reflexivity.
Qed.

(** One plain step into a mapping. *)
Lemma updateMapField_plain MustCompile rec m segment rest replacement :
  plain segment ->
  updateMapField MustCompile rec m (segment :: rest) replacement =
    let '(m1, v) :=
      match m !! segment with
      | Some v => (m, v)
      | None => (<[segment := VMap ∅]> m, VMap ∅)
      end in
    if isNil v then (m1, Err (ErrTypeMismatch v msgNil))
    else
      match rest with
      | [] => (<[segment := replacement]> m1, Nil)
      | _ :: _ =>
          let '(v', st) := rec v rest replacement in (<[segment := v']> m1, st)
      end.
Proof.
  intros [Hseg Hpat]. unfold updateMapField. rewrite Hseg, Hpat.
  destruct (m !! segment) as [v|]; destruct (isNil _); try reflexivity;
    destruct rest; reflexivity.
Qed.

(** One plain step into a sequence. *)
Lemma updateSliceField_plain rec (m : list node) segment rest replacement :
  plain segment ->
  updateSliceField rec m (segment :: rest) replacement =
    match strconv.Atoi segment with
    | None => (m, Err (ErrNumError segment))
    | Some index =>
        if (len m <? index) || (index <? 0)
        then (m, Err (ErrIndexOutOfBound index (len m)))
        else
          match m !! Z.to_nat index with
          | None => (m, Panic (IndexOutOfRange index (len m)))
          | Some item =>
              match rest with
              | [] => (<[Z.to_nat index := replacement]> m, Nil)
              | _ :: _ =>
                  let '(v', st) := rec item rest replacement in
                  (<[Z.to_nat index := v']> m, st)
              end
          end
    end.
Proof. intros [Hseg _]. unfold updateSliceField. rewrite Hseg. reflexivity. Qed.

(** X5. What a path of plain steps writes can be read back: after a
    successful update along field names and indices, following the same
    names and indices from the root leads to the replacement. *)
Theorem written_value_is_read_back
    (MustCompile : string -> option regexp.regex) (fuel : nat) (m m' : node)
    (pathToField : list string) (replacement : node) :
  pathToField <> [] ->
  Forall plain pathToField ->
  updateField MustCompile fuel m pathToField replacement = (m', Nil) ->
  readPath m' pathToField = Some replacement.
Proof.
  revert m m' pathToField.
  induction fuel as [|fuel IH]; intros m m' pathToField Hne Hplain Hrun;
    [discriminate|].
  destruct pathToField as [|segment rest]; [congruence|].
  apply Forall_cons in Hplain as [Hseg Hrest].
  cbn [updateField] in Hrun. destruct m; try discriminate.
  - rewrite (updateMapField_plain _ _ _ _ _ _ Hseg) in Hrun.
    destruct (match m !! segment with
              | Some v => (m, v)
              | None => (<[segment := VMap ∅]> m, VMap ∅)
              end) as [m1 v].
    destruct (isNil v); [discriminate|].
    destruct rest as [|s rest].
    + injection Hrun as <-. cbn [readPath]. rewrite lookup_insert_eq. reflexivity.
    + destruct (updateField MustCompile fuel v (s :: rest) replacement)
        as [v' st] eqn:Hrec.
      injection Hrun as <- ->. cbn [readPath]. rewrite lookup_insert_eq.
      exact (IH v v' (s :: rest) ltac:(discriminate) Hrest Hrec).
  - rewrite (updateSliceField_plain _ _ _ _ _ Hseg) in Hrun.
    cbn [readPath].
    destruct (strconv.Atoi segment) as [index|]; [|discriminate].
    destruct (len l <? index); [discriminate|].
    destruct (index <? 0); [discriminate|]. cbn [orb] in Hrun.
    destruct (l !! Z.to_nat index) as [item|] eqn:Hitem; [|discriminate].
    apply lookup_lt_Some in Hitem.
    destruct rest as [|s rest].
    + injection Hrun as <-.
      rewrite list_lookup_insert_eq by exact Hitem. reflexivity.
    + destruct (updateField MustCompile fuel item (s :: rest) replacement)
        as [v' st] eqn:Hrec.
      injection Hrun as <- ->.
      rewrite list_lookup_insert_eq by exact Hitem.
      exact (IH item v' (s :: rest) ltac:(discriminate) Hrest Hrec).
Qed.

Lemma written_value_is_read_back_witness :
  readPath
    (Examples.obj [("items", VSlice [VStr "a"; VStr "new"; VStr "c"])])
    ["items"; "1"]
  = Some (VStr "new").
Proof.
  apply (written_value_is_read_back regexp.Compile 2 Examples.items3).
  - discriminate.
  - repeat constructor.
  - vm_compute. reflexivity.
Defined.

(** X6. Writing twice is writing once: after a successful update along
    plain steps with a replacement that is not nil, the same update
    succeeds again and changes nothing. *)
Theorem plain_update_is_idempotent
    (MustCompile : string -> option regexp.regex) (fuel : nat) (m m' : node)
    (pathToField : list string) (replacement : node) :
  Forall plain pathToField ->
  replacement <> VNil ->
  updateField MustCompile fuel m pathToField replacement = (m', Nil) ->
  updateField MustCompile fuel m' pathToField replacement = (m', Nil).
Proof.
  intros Hplain Hrepl. revert m m' pathToField Hplain.
  induction fuel as [|fuel IH]; intros m m' pathToField Hplain Hrun;
    [discriminate|].
  destruct pathToField as [|segment rest];
    [injection Hrun as <-; reflexivity|].
  apply Forall_cons in Hplain as [Hseg Hrest].
  cbn [updateField] in Hrun. destruct m; try discriminate.
  - rewrite (updateMapField_plain _ _ _ _ _ _ Hseg) in Hrun.
    destruct (match m !! segment with
              | Some v => (m, v)
              | None => (<[segment := VMap ∅]> m, VMap ∅)
              end) as [m1 v].
    destruct (isNil v); [discriminate|].
    destruct rest as [|s rest].
    + injection Hrun as <-. cbn [updateField].
      rewrite (updateMapField_plain _ _ _ _ _ _ Hseg), lookup_insert_eq.
      destruct replacement; try congruence; cbn [isNil];
        rewrite insert_insert_eq; reflexivity.
    + destruct (updateField MustCompile fuel v (s :: rest) replacement)
        as [v' st] eqn:Hrec.
      injection Hrun as <- ->. cbn [updateField].
      rewrite (updateMapField_plain _ _ _ _ _ _ Hseg), lookup_insert_eq.
      pose proof (updateField_keeps_kind MustCompile fuel v (s :: rest) replacement
                    ltac:(discriminate)) as Hkind.
      rewrite Hrec in Hkind. cbn [fst snd] in Hkind. rewrite (Hkind eq_refl).
      rewrite (IH v v' (s :: rest) Hrest Hrec).
      rewrite insert_insert_eq. reflexivity.
  - rewrite (updateSliceField_plain _ _ _ _ _ Hseg) in Hrun.
    destruct (strconv.Atoi segment) as [index|] eqn:Hindex; [|discriminate].
    destruct ((len l <? index) || (index <? 0)) eqn:Hbound; [discriminate|].
    destruct (l !! Z.to_nat index) as [item|] eqn:Hitem; [|discriminate].
    apply lookup_lt_Some in Hitem.
    destruct rest as [|s rest].
    + injection Hrun as <-. cbn [updateField].
      rewrite (updateSliceField_plain _ _ _ _ _ Hseg), Hindex.
      unfold len in *. rewrite length_insert, Hbound.
      rewrite list_lookup_insert_eq by exact Hitem.
      rewrite list_insert_insert_eq. reflexivity.
    + destruct (updateField MustCompile fuel item (s :: rest) replacement)
        as [v' st] eqn:Hrec.
      injection Hrun as <- ->. cbn [updateField].
      rewrite (updateSliceField_plain _ _ _ _ _ Hseg), Hindex.
      unfold len in *. rewrite length_insert, Hbound.
      rewrite list_lookup_insert_eq by exact Hitem.
      rewrite (IH item v' (s :: rest) Hrest Hrec).
      rewrite list_insert_insert_eq. reflexivity.
Qed.

Lemma plain_update_is_idempotent_witness :
  updateField regexp.Compile 2
    (Examples.obj [("items", VSlice [VStr "a"; VStr "new"; VStr "c"])])
    ["items"; "1"] (VStr "new")
  = (Examples.obj [("items", VSlice [VStr "a"; VStr "new"; VStr "c"])], Nil).
Proof.
  apply (plain_update_is_idempotent regexp.Compile 2 Examples.items3).
  - repeat constructor.
  - discriminate.
  - vm_compute. reflexivity.
Defined.

(** *** Steps without a filter and without a pattern *)

Lemma Lang_pattern_bracket a b : Lang pattern a b -> occurs "[" a = true.
Proof.
  unfold pattern. intros H.
  inversion H as [| | |r1 r2 a1 a2 b' _ H2| | | | | |]; subst.
  inversion H2 as [| | |r1 r2 a3 a4 b' H3 _| | | | | |]; subst.
  inversion H3; subst.
  rewrite occurs_app. cbn. apply orb_true_r.
Qed.

Lemma Lang_substringPattern_percent a b :
  Lang substringPatternRegex a b -> occurs "%" a = true.
Proof.
  unfold substringPatternRegex. intros H.
  inversion H as [| | |r1 r2 a1 a2 b' _ H2| | | | | |]; subst.
  inversion H2 as [| | |r1 r2 a3 a4 b' H3 _| | | | | |]; subst.
  inversion H3; subst.
  rewrite occurs_app. cbn. apply orb_true_r.
Qed.

Lemma find_nowhere r s :
  (forall p a b, s = p +:+ a +:+ b -> ~ Lang r a b) -> regexp.find r s = None.
Proof.
  intros Hno. destruct (regexp.find r s) as [f|] eqn:Hf; [|reflexivity].
  destruct (find_sound r s f Hf) as (Hs & Hlang & _).
  destruct (Hno _ _ _ Hs Hlang).
Qed.

Lemma getFirstPathSegment_no_bracket segment :
  occurs "[" segment = false ->
  getFirstPathSegment segment = (segment, "", "", false).
Proof.
  intros Hno. unfold getFirstPathSegment, regexp.FindStringSubmatch.
  rewrite find_nowhere; [reflexivity|].
  intros p a b -> Hlang. apply Lang_pattern_bracket in Hlang.
  rewrite !occurs_app, Hlang, orb_true_r in Hno. discriminate.
Qed.

Lemma extractSubstringPattern_no_percent path :
  occurs "%" path = false -> extractSubstringPattern path = (path, "").
Proof.
  intros Hno. unfold extractSubstringPattern, regexp.FindStringSubmatch.
  rewrite find_nowhere; [reflexivity|].
  intros p a b -> Hlang. apply Lang_substringPattern_percent in Hlang.
  rewrite !occurs_app, Hlang, orb_true_r in Hno. discriminate.
Qed.

(** X7. A step is read as a filter only when it holds an opening
    bracket and as carrying a substring pattern only when it holds a
    percent sign: a step with neither is taken as the field name or index
    it spells. *)
Theorem step_without_bracket_and_percent_is_plain (segment : string) :
  (occurs "[" segment = false ->
   getFirstPathSegment segment = (segment, "", "", false))
  /\ (occurs "%" segment = false ->
      extractSubstringPattern segment = (segment, ""))
  /\ (occurs "[" segment = false -> occurs "%" segment = false ->
      plain segment /\ isFilter segment = false /\ stepKey segment = segment).
Proof.
  split; [apply getFirstPathSegment_no_bracket|].
  split; [apply extractSubstringPattern_no_percent|].
  intros Hb Hp. unfold plain, isFilter, stepKey.
  rewrite (getFirstPathSegment_no_bracket _ Hb),
    (extractSubstringPattern_no_percent _ Hp).
  repeat split.
Qed.

Lemma step_without_bracket_and_percent_is_plain_witness :
  plain "metadata" /\ isFilter "metadata" = false /\ stepKey "metadata" = "metadata".
Proof.
  apply (step_without_bracket_and_percent_is_plain "metadata"); reflexivity.
Defined.

(** *** Reading a filter step *)

Section Words.

Context {R : Type}.
Implicit Types (s a b : string) (c : regexp.caps) (k : @regexp.cont R).

(** A group [(\S+)] followed by [r]: the group takes the longest run
    without white space after which [r] and the rest succeed. *)
Lemma exec_word_some n r s c k x :
  regexp.exec
    (regexp.Cat (regexp.Group n (regexp.Plus (regexp.Class regexp.NotSpace))) r)
    s c k = Some x ->
  exists g b,
    s = g +:+ b /\ g <> "" /\ strings.allChars notSpace g = true
    /\ regexp.exec r b ((n, g) :: c) k = Some x
    /\ forall g' b', s = g' +:+ b' -> strings.allChars notSpace g' = true ->
         (String.length g < String.length g')%nat ->
         regexp.exec r b' ((n, g') :: c) k = None.
Proof.
  cbn [regexp.exec]. intros H.
  apply exec_plus_class_some in H as (g & b & -> & Hne & Hg & Hk & Hlong).
  rewrite taken_app in Hk. exists g, b. repeat split; try assumption.
  intros g' b' Hs Hg' Hlen. specialize (Hlong g' b' Hs Hg' Hlen).
  rewrite Hs, taken_app in Hlong. exact Hlong.
Qed.

Lemma exec_word_none n r s c k :
  regexp.exec
    (regexp.Cat (regexp.Group n (regexp.Plus (regexp.Class regexp.NotSpace))) r)
    s c k = None ->
  forall g b, s = g +:+ b -> g <> "" -> strings.allChars notSpace g = true ->
              regexp.exec r b ((n, g) :: c) k = None.
Proof.
  cbn [regexp.exec]. intros H g b Hs Hne Hg.
  pose proof (exec_plus_class_none _ _ _ _ H g b Hs Hne Hg) as Hk.
  cbn beta in Hk. rewrite Hs, taken_app in Hk. exact Hk.
Qed.

Lemma exec_lit_cat x r s c k :
  regexp.exec (regexp.Cat (regexp.Lit x) r) s c k =
    match s with
    | String y s' => if Ascii.eqb x y then regexp.exec r s' c k else None
    | "" => None
    end.
Proof. destruct s; reflexivity. Qed.

End Words.

(** Two ways to cut a text at a character that does not occur after the
    first cut: the second cut is not further right than the first. *)
Lemma cut_at_last x a b a' b' :
  a +:+ String x b = a' +:+ String x b' ->
  occurs x b = false ->
  (String.length a <= String.length a')%nat ->
  a' = a /\ b' = b.
Proof.
  intros Heq Hno Hlen.
  destruct (app_eq_app_s _ _ _ _ Heq) as [(e & -> & He)|(e & -> & He)].
  - destruct e as [|z e].
    + cbn in He. injection He as <-. rewrite app_empty_r. split; reflexivity.
    + cbn in He. injection He as <- ->.
      rewrite occurs_app in Hno. cbn in Hno.
      rewrite Ascii.eqb_refl, orb_true_r in Hno. discriminate.
  - rewrite length_app_s in Hlen. destruct e as [|z e]; [|cbn in Hlen; lia].
    cbn in He. injection He as ->. rewrite app_empty_r. split; reflexivity.
Qed.

(** The step [name[key=value]] as a text. *)
Lemma matchHere_filter name key value :
  name <> "" -> key <> "" -> value <> "" ->
  strings.allChars notSpace name = true ->
  strings.allChars notSpace key = true ->
  strings.allChars notSpace value = true ->
  occurs "[" key = false -> occurs "[" value = false ->
  occurs "=" value = false ->
  regexp.matchHere pattern
    (name +:+ String "[" (key +:+ String "=" (value +:+ "]")))
  = Some (regexp.Found ""
            (name +:+ String "[" (key +:+ String "=" (value +:+ "]"))) ""
            [(3%nat, value); (2%nat, key); (1%nat, name)]).
Proof.
  intros Hn Hk Hv Hname Hkey Hvalue Hbk Hbv Hev.
  set (t := name +:+ String "[" (key +:+ String "=" (value +:+ "]"))).
  set (k0 := fun s' c => Some (regexp.Found "" (regexp.taken t s') s' c)).
  set (r3 := regexp.Lit "]").
  set (r2 := regexp.Cat (regexp.Lit "=")
               (regexp.Cat
                  (regexp.Group 3 (regexp.Plus (regexp.Class regexp.NotSpace))) r3)).
  set (r1 := regexp.Cat (regexp.Lit "[")
               (regexp.Cat
                  (regexp.Group 2 (regexp.Plus (regexp.Class regexp.NotSpace))) r2)).
  assert (Hok3 : forall c, regexp.exec r3 "]" c k0 <> None) by (intros c; discriminate).
  assert (Hok2 : forall c,
             regexp.exec r2 (String "=" (value +:+ "]")) c k0 <> None).
  { intros c H. unfold r2 in H. rewrite exec_lit_cat, Ascii.eqb_refl in H.
    exact (Hok3 _ (exec_word_none _ _ _ _ _ H value "]" eq_refl Hv Hvalue)). }
  assert (Hok1 : forall c,
             regexp.exec r1 (String "[" (key +:+ String "=" (value +:+ "]"))) c k0
             <> None).
  { intros c H. unfold r1 in H. rewrite exec_lit_cat, Ascii.eqb_refl in H.
    exact (Hok2 _ (exec_word_none _ _ _ _ _ H key _ eq_refl Hk Hkey)). }
  change (regexp.matchHere pattern t)
    with (regexp.exec
            (regexp.Cat
               (regexp.Group 1 (regexp.Plus (regexp.Class regexp.NotSpace))) r1)
            t [] k0).
  destruct (regexp.exec _ t [] k0) as [f|] eqn:H.
  2:{ destruct (Hok1 _ (exec_word_none _ _ _ _ _ H name _ eq_refl Hn Hname)). }
  apply exec_word_some in H as (g1 & b1 & Ht & _ & _ & H1 & Hlong1).
  unfold r1 in H1. rewrite exec_lit_cat in H1.
  destruct b1 as [|y b1]; [discriminate|].
  destruct (Ascii.eqb_spec "[" y) as [<-|]; [|discriminate].
  assert (Hlen1 : (String.length name <= String.length g1)%nat).
  { destruct (Nat.le_gt_cases (String.length name) (String.length g1)) as [|Hlt];
      [assumption|].
    destruct (Hok1 _ (Hlong1 name _ eq_refl Hname Hlt)). }
  destruct (cut_at_last "[" name _ g1 b1 Ht) as [-> ->]; [|exact Hlen1|].
  { rewrite occurs_app, Hbk. cbn. rewrite occurs_app, Hbv. reflexivity. }
  apply exec_word_some in H1 as (g2 & b2 & Ht2 & _ & _ & H2 & Hlong2).
  unfold r2 in H2. rewrite exec_lit_cat in H2.
  destruct b2 as [|y b2]; [discriminate|].
  destruct (Ascii.eqb_spec "=" y) as [<-|]; [|discriminate].
  assert (Hlen2 : (String.length key <= String.length g2)%nat).
  { destruct (Nat.le_gt_cases (String.length key) (String.length g2)) as [|Hlt];
      [assumption|].
    destruct (Hok2 _ (Hlong2 key _ eq_refl Hkey Hlt)). }
  destruct (cut_at_last "=" key _ g2 b2 Ht2) as [-> ->]; [|exact Hlen2|].
  { rewrite occurs_app, Hev. reflexivity. }
  apply exec_word_some in H2 as (g3 & b3 & Ht3 & _ & _ & H3 & Hlong3).
  unfold r3 in H3. cbn [regexp.exec] in H3.
  destruct b3 as [|y b3]; [discriminate|].
  destruct (Ascii.eqb_spec "]" y) as [<-|]; [|discriminate].
  assert (Hlen3 : (String.length value <= String.length g3)%nat).
  { destruct (Nat.le_gt_cases (String.length value) (String.length g3)) as [|Hlt];
      [assumption|].
    destruct (Hok3 _ (Hlong3 value _ eq_refl Hvalue Hlt)). }
  destruct (cut_at_last "]" value "" g3 b3 Ht3) as [-> ->];
    [reflexivity|exact Hlen3|].
  unfold k0 in H3. rewrite taken_all in H3. symmetry. exact H3.
Qed.

(** X8. A step of the form [name[key=value]] is read as a filter on
    [name] with that key and value, when the three parts are not empty
    and hold no white space, neither the key nor the value holds an
    opening bracket, and the value holds no equals sign. *)
Theorem filter_step_is_read_back (name key value : string) :
  name <> "" -> key <> "" -> value <> "" ->
  strings.allChars notSpace name = true ->
  strings.allChars notSpace key = true ->
  strings.allChars notSpace value = true ->
  occurs "[" key = false -> occurs "[" value = false ->
  occurs "=" value = false ->
  getFirstPathSegment (name +:+ "[" +:+ key +:+ "=" +:+ value +:+ "]")
  = (name, key, value, true).
Proof.
  intros Hn Hk Hv Hname Hkey Hvalue Hbk Hbv Hev.
  pose proof (matchHere_filter name key value Hn Hk Hv Hname Hkey Hvalue Hbk Hbv Hev)
    as Hm.
  change (name +:+ "[" +:+ key +:+ "=" +:+ value +:+ "]")
    with (name +:+ String "[" (key +:+ String "=" (value +:+ "]"))).
  unfold getFirstPathSegment, regexp.FindStringSubmatch.
  replace (regexp.find pattern _) with
    (Some (regexp.Found ""
            (name +:+ String "[" (key +:+ String "=" (value +:+ "]"))) ""
            [(3%nat, value); (2%nat, key); (1%nat, name)])).
  2:{ destruct name; [congruence|]. cbn [String.append regexp.find] in Hm |- *.
      rewrite Hm. reflexivity. }
  cbn. rewrite (eqb_empty_false key Hk). reflexivity.
Qed.

Lemma filter_step_is_read_back_witness :
  getFirstPathSegment "containers[name=app]" = ("containers", "name", "app", true).
Proof.
  apply (filter_step_is_read_back "containers" "name" "app");
    first [discriminate | reflexivity].
Defined.

(** *** What a step is read as *)

Lemma find_matchHere r s f :
  regexp.find r s = Some f ->
  exists p s' f',
    s = p +:+ s' /\ regexp.matchHere r s' = Some f'
    /\ regexp.groups f = regexp.groups f'
    /\ regexp.matched f = regexp.matched f'
    /\ regexp.after f = regexp.after f'.
Proof.
  revert f. induction s as [|a s IH]; intros f Hf; cbn [regexp.find] in Hf.
  - destruct (regexp.matchHere r "") as [f0|] eqn:H0; [|discriminate].
    injection Hf as <-. exists "", "", f0. repeat split. exact H0.
  - destruct (regexp.matchHere r (String a s)) as [f0|] eqn:H0.
    + injection Hf as <-. exists "", (String a s), f0. repeat split. exact H0.
    + destruct (regexp.find r s) as [f1|]; [|discriminate].
      injection Hf as <-.
      destruct (IH f1 eq_refl) as (p & s' & f' & -> & Hm & Hg & Hmt & Ha).
      exists (String a p), s', f'. repeat split; assumption.
Qed.

Lemma matchHere_pattern_some s f :
  regexp.matchHere pattern s = Some f ->
  exists g1 g2 g3 rest,
    s = g1 +:+ String "[" (g2 +:+ String "=" (g3 +:+ String "]" rest))
    /\ (g1 <> "" /\ g2 <> "" /\ g3 <> "")
    /\ (strings.allChars notSpace g1 = true
        /\ strings.allChars notSpace g2 = true
        /\ strings.allChars notSpace g3 = true)
    /\ regexp.groups f = [(3%nat, g3); (2%nat, g2); (1%nat, g1)].
Proof.
  unfold regexp.matchHere, pattern. intros H.
  apply exec_word_some in H as (g1 & b1 & -> & Hn1 & Hg1 & H & _).
  rewrite exec_lit_cat in H. destruct b1 as [|y b1]; [discriminate|].
  destruct (Ascii.eqb_spec "[" y) as [<-|]; [|discriminate].
  apply exec_word_some in H as (g2 & b2 & -> & Hn2 & Hg2 & H & _).
  rewrite exec_lit_cat in H. destruct b2 as [|y b2]; [discriminate|].
  destruct (Ascii.eqb_spec "=" y) as [<-|]; [|discriminate].
  apply exec_word_some in H as (g3 & b3 & -> & Hn3 & Hg3 & H & _).
  cbn [regexp.exec] in H. destruct b3 as [|y b3]; [discriminate|].
  destruct (Ascii.eqb_spec "]" y) as [<-|]; [|discriminate].
  injection H as <-. exists g1, g2, g3, b3. repeat split; assumption.
Qed.

(** X9. What a step is read as.  Either no filter is found and the
    step is taken whole, or the step holds a text [name[key=value]] whose
    three parts are not empty and without white space, and these are the
    field, key and value of a filter; what stands before that text and
    after its closing bracket is dropped.  The flag that tells a filter
    is thus set whenever the three parts are found. *)
Theorem step_is_whole_or_filter (segment : string) :
  getFirstPathSegment segment = (segment, "", "", false)
  \/ exists front name key value rest,
       segment = front +:+ name +:+ "[" +:+ key +:+ "=" +:+ value +:+ "]" +:+ rest
       /\ (name <> "" /\ key <> "" /\ value <> "")
       /\ (strings.allChars notSpace name = true
           /\ strings.allChars notSpace key = true
           /\ strings.allChars notSpace value = true)
       /\ getFirstPathSegment segment = (name, key, value, true).
Proof.
  unfold getFirstPathSegment, regexp.FindStringSubmatch.
  destruct (regexp.find pattern segment) as [f|] eqn:Hf; [right|left; reflexivity].
  destruct (find_matchHere _ _ _ Hf) as (front & s' & f' & -> & Hm & Hg & _).
  destruct (matchHere_pattern_some _ _ Hm)
    as (name & key & value & rest & -> & Hne & Hns & Hgroups).
  exists front, name, key, value, rest.
  split; [reflexivity|]. split; [exact Hne|]. split; [exact Hns|].
  rewrite Hg, Hgroups. cbn.
  destruct Hne as (_ & Hk & _). rewrite (eqb_empty_false key Hk). reflexivity.
Qed.

(** *** Reading a substring pattern *)

(** X10. A path of the form [q%pat%] is cut into [q] and the substring
    pattern [pat], when both are not empty and hold no white space and
    the pattern holds no percent sign; [q] may hold percent signs.  When
    the path holds no opening bracket either, it is a step without a
    filter that names the key [q]. *)
Theorem substring_pattern_is_read_back (q pat : string) :
  q <> "" -> pat <> "" ->
  strings.allChars notSpace q = true ->
  strings.allChars notSpace pat = true ->
  occurs "%" pat = false ->
  extractSubstringPattern (q +:+ "%" +:+ pat +:+ "%") = (q, pat)
  /\ (occurs "[" q = false -> occurs "[" pat = false ->
      isFilter (q +:+ "%" +:+ pat +:+ "%") = false
      /\ stepKey (q +:+ "%" +:+ pat +:+ "%") = q).
Proof.
  intros Hq Hpat Hnq Hnp Hpercent.
  change (q +:+ "%" +:+ pat +:+ "%") with (q +:+ String "%" (pat +:+ "%")).
  assert (Hends : endsWithPattern (q +:+ String "%" (pat +:+ "%")) q pat)
    by (repeat split; assumption).
  assert (Hns : strings.allChars notSpace (q +:+ String "%" (pat +:+ "%")) = true).
  { rewrite allChars_app, Hnq. cbn [strings.allChars andb].
    rewrite allChars_app, Hnp. reflexivity. }
  assert (Hcut : extractSubstringPattern (q +:+ String "%" (pat +:+ "%")) = (q, pat)).
  { destruct (extractSubstringPattern_shape _ Hns)
      as [[_ Hno]|(g1 & g2 & -> & Hg & Hlong)]; [destruct (Hno _ _ Hends)|].
    destruct (endsWithPattern_unique _ q pat g1 g2 Hends Hg Hpercent
                (Hlong q pat Hends)) as [-> ->].
    reflexivity. }
  split; [exact Hcut|]. intros Hbq Hbp. unfold isFilter, stepKey.
  rewrite getFirstPathSegment_no_bracket, Hcut; [split; reflexivity|].
  rewrite occurs_app, Hbq. cbn. rewrite occurs_app, Hbp. reflexivity.
Qed.

Lemma substring_pattern_is_read_back_witness :
  extractSubstringPattern "endpoint%\d+\.\d+%" = ("endpoint", "\d+\.\d+").
Proof.
  apply (substring_pattern_is_read_back "endpoint" "\d+\.\d+");
    first [discriminate | reflexivity].
Defined.

(** *** Paths of field names and indices *)

Lemma Split_char_keeps_absent c d s :
  occurs c s = false ->
  Forall (fun segment => occurs c segment = false) (strings.Split s (String d "")).
Proof.
  induction s as [|x s IH]; intros Hno; [repeat constructor|].
  cbn [occurs] in Hno. apply orb_false_iff in Hno as [Hx Hno].
  specialize (IH Hno). rewrite Split_char_cons.
  destruct (Ascii.eqb d x); [constructor; [reflexivity|exact IH]|].
  destruct (strings.Split s (String d "")) as [|h t]; cbn [strings.consHead].
  - repeat constructor. cbn. rewrite Hx. reflexivity.
  - apply Forall_cons in IH as [Hh Ht]. constructor; [|exact Ht].
    cbn [occurs]. rewrite Hx, Hh. reflexivity.
Qed.

Lemma restoreDots_no_dollar s : occurs "$" s = false -> restoreDots s = s.
Proof. apply restoreDots_Protected, Protected_refl. Qed.

(** X11. A path expression made of field names and indices only, that
    is, without brackets, percent signs and dollar signs, is cut at every
    dot and nowhere else, and each of its steps is a plain one. *)
Theorem dotted_path_is_split_at_dots (p : string) :
  occurs "[" p = false -> occurs "]" p = false ->
  occurs "%" p = false -> occurs "$" p = false ->
  pathSlice p = strings.Split p "." /\ Forall plain (pathSlice p).
Proof.
  intros Hopen Hclose Hpercent Hdollar.
  assert (Hslice : pathSlice p = strings.Split p ".").
  { unfold pathSlice. rewrite (Split_char_none "[" p Hopen). cbn [map].
    unfold protectFilter. rewrite Contains_char, Hclose.
    change (strings.Join [p] "[") with p.
    rewrite (extractSubstringPattern_no_percent p Hpercent). cbn [String.length Nat.ltb Nat.leb].
    pose proof (Split_char_keeps_absent "$" "." p Hdollar) as Hsegs.
    induction Hsegs as [|segment l Hseg _ IH]; [reflexivity|].
    cbn [map]. rewrite IH. f_equal. apply (restoreDots_no_dollar _ Hseg). }
  split; [exact Hslice|]. rewrite Hslice.
  pose proof (Split_char_keeps_absent "[" "." p Hopen) as H1.
  pose proof (Split_char_keeps_absent "%" "." p Hpercent) as H2.
  rewrite Forall_forall in H1, H2. apply Forall_forall. intros segment Hin.
  split.
  - apply getFirstPathSegment_no_bracket, H1, Hin.
  - apply extractSubstringPattern_no_percent, H2, Hin.
Qed.

Lemma dotted_path_is_split_at_dots_witness :
  pathSlice "spec.sans.0" = strings.Split "spec.sans.0" "."
  /\ Forall plain (pathSlice "spec.sans.0").
Proof.
  apply (dotted_path_is_split_at_dots "spec.sans.0"); reflexivity.
Defined.

(** *** A field that holds nil *)

(** X12. Nil is written like any other value by a plain last step, and
    the field is closed from then on: every later update through that
    field, whatever it is to write and whatever steps follow, fails with
    a type mismatch and leaves the mapping as it is. *)
Theorem nil_closes_the_field
    (MustCompile : string -> option regexp.regex) (m : gmap string node)
    (segment : string) :
  plain segment ->
  m !! segment <> Some VNil ->
  (forall fuel,
      updateField MustCompile (S fuel) (VMap m) [segment] VNil
      = (VMap (<[segment := VNil]> m), Nil))
  /\ (forall fuel rest replacement,
        updateField MustCompile (S fuel) (VMap (<[segment := VNil]> m))
          (segment :: rest) replacement
        = (VMap (<[segment := VNil]> m), Err (ErrTypeMismatch VNil msgNil))).
Proof.
  intros Hseg Hm. split.
  - intros fuel. cbn [updateField]. rewrite (updateMapField_plain _ _ _ _ _ _ Hseg).
    destruct (m !! segment) as [v|].
    + destruct v; try congruence; reflexivity.
    + cbn [isNil]. rewrite insert_insert_eq. reflexivity.
  - intros fuel rest replacement. cbn [updateField].
    rewrite (updateMapField_plain _ _ _ _ _ _ Hseg), lookup_insert_eq.
    reflexivity.
Qed.

Lemma nil_closes_the_field_witness :
  updateField regexp.Compile 1 (VMap Examples.cm) ["name"] VNil
  = (VMap (<["name" := VNil]> Examples.cm), Nil)
  /\ updateField regexp.Compile 1 (VMap (<["name" := VNil]> Examples.cm))
       ["name"] (VStr "again")
     = (VMap (<["name" := VNil]> Examples.cm), Err (ErrTypeMismatch VNil msgNil)).
Proof.
  assert (Hseg : plain "name") by (split; vm_compute; reflexivity).
  assert (Hm : Examples.cm !! "name" <> Some VNil) by (vm_compute; discriminate).
  destruct (nil_closes_the_field regexp.Compile Examples.cm "name" Hseg Hm)
    as [Hwrite Hclosed].
  split; [exact (Hwrite O)|exact (Hclosed O [] (VStr "again"))].
Defined.

(** *** The collection under [substitute] and [Transform] *)

Section Collection.

Variable MustCompile : string -> option regexp.regex.
Variable Select : ResMap -> Selector -> string + list nat.
Variable GetFieldValue : node -> string -> string + node.

Lemma substituteFields_length fuel m r fieldRefs replacement :
  length (fst (substituteFields MustCompile fuel m r fieldRefs replacement))
  = length m.
Proof.
  revert m. induction fieldRefs as [|p fieldRefs IH]; intros m; [reflexivity|].
  cbn [substituteFields]. destruct (m !! r) as [doc|]; [|reflexivity].
  destruct (updateField MustCompile fuel doc (pathSlice p) replacement) as [doc' st].
  destruct st; try apply length_insert.
  rewrite IH. apply length_insert.
Qed.

Lemma substituteResources_length fuel m resources fieldRefs replacement :
  length (fst (substituteResources MustCompile fuel m resources fieldRefs replacement))
  = length m.
Proof.
  revert m. induction resources as [|r resources IH]; intros m; [reflexivity|].
  cbn [substituteResources].
  pose proof (substituteFields_length fuel m r fieldRefs replacement) as Hlen.
  destruct (substituteFields MustCompile fuel m r fieldRefs replacement) as [m1 st].
  cbn [fst] in Hlen. destruct st as [[]| | |]; try exact Hlen.
  rewrite IH. exact Hlen.
Qed.

Lemma substitute_length fuel m to replacement :
  length (fst (substitute MustCompile Select fuel m to replacement)) = length m.
Proof.
  unfold substitute. destruct to as [to|]; [|reflexivity].
  destruct (toObjRef to) as [objRef|]; [|reflexivity].
  destruct (Select m objRef) as [e|resources]; [reflexivity|].
  destruct resources as [|r resources]; [reflexivity|].
  apply substituteResources_length.
Qed.

Lemma transformOne_length fuel m r :
  length (fst (transformOne MustCompile Select GetFieldValue fuel m r)) = length m.
Proof.
  unfold transformOne. destruct (Source r) as [src|]; [|reflexivity].
  destruct (match srcObjRef src with
            | Some objRef => getReplacement Select GetFieldValue m objRef (FieldRef src)
            | None => Ok VNil
            end); try reflexivity.
  apply substitute_length.
Qed.

End Collection.

(** X13. No document is added to the collection or removed from it:
    whatever the rules are and however the run ends, the collection
    holds as many documents afterwards as before. *)
Theorem Transform_keeps_the_number_of_documents
    (MustCompile : string -> option regexp.regex)
    (Select : ResMap -> Selector -> string + list nat)
    (GetFieldValue : node -> string -> string + node)
    (fuel : nat) (rs : list Replacement) (m : ResMap) :
  length (fst (Transform MustCompile Select GetFieldValue fuel rs m)) = length m.
Proof.
  revert m. induction rs as [|r rs IH]; intros m; [reflexivity|].
  cbn [Transform].
  pose proof (transformOne_length MustCompile Select GetFieldValue fuel m r) as Hlen.
  destruct (transformOne MustCompile Select GetFieldValue fuel m r) as [m1 st].
  cbn [fst] in Hlen. destruct st as [[]| | |]; try exact Hlen.
  rewrite IH. exact Hlen.
Qed.

(** X15. A target selector that selects nothing ends the run with
    [ErrTargetNotFound], once the source of the rule is resolved: no
    field reference of the rule is looked at, no document changes and
    the rules after it are not run. *)
Theorem unmatched_target_ends_the_run
    (MustCompile : string -> option regexp.regex)
    (Select : ResMap -> Selector -> string + list nat)
    (GetFieldValue : node -> string -> string + node)
    (fuel : nat) (m : ResMap) (r : Replacement) (rs : list Replacement)
    (src : ReplSource) (to : ReplTarget) (objRef : Selector) :
  Source r = Some src ->
  (forall from, srcObjRef src = Some from ->
     exists v, getReplacement Select GetFieldValue m from (FieldRef src) = Ok v) ->
  Target_ r = Some to ->
  toObjRef to = Some objRef ->
  Select m objRef = inr [] ->
  Transform MustCompile Select GetFieldValue fuel (r :: rs) m
  = (m, Err (ErrTargetNotFound objRef)).
Proof.
  intros Hsrc Hres Htgt Hto Hsel. cbn [Transform]. unfold transformOne.
  rewrite Hsrc, Htgt.
  assert (Hsub : forall replacement,
             substitute MustCompile Select fuel m (Some to) replacement
             = (m, Err (ErrTargetNotFound objRef))).
  { intros replacement. unfold substitute. rewrite Hto, Hsel. reflexivity. }
  destruct (srcObjRef src) as [from|].
  - destruct (Hres from eq_refl) as [v ->]. rewrite Hsub. reflexivity.
  - rewrite Hsub. reflexivity.
Qed.

Lemma unmatched_target_ends_the_run_witness :
  Transform regexp.Compile Examples.Select Examples.GetFieldValue 3
    [Examples.literal "prod" "Secret" ["metadata.labels.env"];
     Examples.literal "x" "Config" ["metadata.labels.a"]]
    Examples.collection
  = (Examples.collection, Err (ErrTargetNotFound (Examples.sel "Secret" ""))).
Proof.
  eapply unmatched_target_ends_the_run.
  - reflexivity.
  - intros from Hfrom. discriminate Hfrom.
  - reflexivity.
  - reflexivity.
  - vm_compute. reflexivity.
Defined.

(** X16. Running two lists of rules one after the other is running
    their concatenation: when the first list succeeds, the second list
    run on the collection it leaves gives the outcome of the whole; and a
    successful run of a concatenation is a successful run of its first
    part followed by a successful run of its second part. *)
Theorem Transform_composes
    (MustCompile : string -> option regexp.regex)
    (Select : ResMap -> Selector -> string + list nat)
    (GetFieldValue : node -> string -> string + node)
    (fuel : nat) (rs1 rs2 : list Replacement) (m : ResMap) :
  (forall m1,
      Transform MustCompile Select GetFieldValue fuel rs1 m = (m1, Nil) ->
      Transform MustCompile Select GetFieldValue fuel (rs1 ++ rs2) m
      = Transform MustCompile Select GetFieldValue fuel rs2 m1)
  /\ (forall m2,
        Transform MustCompile Select GetFieldValue fuel (rs1 ++ rs2) m = (m2, Nil) ->
        exists m1,
          Transform MustCompile Select GetFieldValue fuel rs1 m = (m1, Nil)
          /\ Transform MustCompile Select GetFieldValue fuel rs2 m1 = (m2, Nil)).
Proof.
  split.
  - intros m1 H1. rewrite Transform_app, H1. reflexivity.
  - intros m2 H. rewrite Transform_app in H.
    destruct (Transform MustCompile Select GetFieldValue fuel rs1 m) as [m1 st].
    destruct st as [[]| | |]; try discriminate.
    exists m1. split; [reflexivity|exact H].
Qed.

Lemma Transform_composes_witness :
  Transform regexp.Compile Examples.Select Examples.GetFieldValue 3
    ([Examples.literal "x" "Config" ["metadata.labels.a"]]
     ++ [Examples.literal "y" "Config" ["metadata.labels.b"]])
    Examples.collection
  = Transform regexp.Compile Examples.Select Examples.GetFieldValue 3
      [Examples.literal "y" "Config" ["metadata.labels.b"]]
      (fst (Transform regexp.Compile Examples.Select Examples.GetFieldValue 3
              [Examples.literal "x" "Config" ["metadata.labels.a"]]
              Examples.collection)).
Proof.
  apply Transform_composes. vm_compute. reflexivity.
Defined.

(** X17. A rule with a literal value and no object reference reads no
    document: a run of such rules is the same whatever the field reader
    of the resources answers. *)
Theorem literal_rules_read_no_document
    (MustCompile : string -> option regexp.regex)
    (Select : ResMap -> Selector -> string + list nat)
    (GetFieldValue1 GetFieldValue2 : node -> string -> string + node)
    (fuel : nat) (rs : list Replacement) (m : ResMap) :
  Forall (fun r => forall src, Source r = Some src -> srcObjRef src = None) rs ->
  Transform MustCompile Select GetFieldValue1 fuel rs m
  = Transform MustCompile Select GetFieldValue2 fuel rs m.
Proof.
  intros Hrs. revert m. induction Hrs as [|r rs Hr _ IH]; intros m; [reflexivity|].
  cbn [Transform].
  assert (Hone : transformOne MustCompile Select GetFieldValue1 fuel m r
                 = transformOne MustCompile Select GetFieldValue2 fuel m r).
  { unfold transformOne. destruct (Source r) as [src|]; [|reflexivity].
    rewrite (Hr src eq_refl). reflexivity. }
  rewrite Hone.
  destruct (transformOne MustCompile Select GetFieldValue2 fuel m r) as [m1 st].
  destruct st as [[]| | |]; try reflexivity. apply IH.
Qed.

Lemma literal_rules_read_no_document_witness :
  Transform regexp.Compile Examples.Select Examples.GetFieldValue 3
    [Examples.literal "x" "Config" ["metadata.labels.a"]] Examples.collection
  = Transform regexp.Compile Examples.Select (fun _ _ => inl "unreadable") 3
      [Examples.literal "x" "Config" ["metadata.labels.a"]] Examples.collection.
Proof.
  apply literal_rules_read_no_document.
  repeat constructor. intros src [= <-]. reflexivity.
Defined.

(** *** Runs that answer *)

Section Answers.

Variable MustCompile : string -> option regexp.regex.
Variable Select : ResMap -> Selector -> string + list nat.
Variable GetFieldValue : node -> string -> string + node.

Lemma substituteFields_answers fuel m r fieldRefs replacement :
  Forall (workedOff fuel) fieldRefs ->
  answers (substituteFields MustCompile fuel m r fieldRefs replacement).
Proof.
  intros Hrefs. revert m.
  induction Hrefs as [|p fieldRefs [Hsteps Hlen] _ IH]; intros m; [discriminate|].
  cbn [substituteFields]. destruct (m !! r) as [doc|]; [|discriminate].
  pose proof (updateField_without_filters MustCompile fuel doc (pathSlice p)
                replacement Hsteps Hlen) as Hdoc.
  unfold answers in Hdoc.
  destruct (updateField MustCompile fuel doc (pathSlice p) replacement) as [doc' st].
  destruct st; try discriminate; [apply IH|]. cbn in Hdoc. congruence.
Qed.

Lemma substituteResources_answers fuel m resources fieldRefs replacement :
  Forall (workedOff fuel) fieldRefs ->
  answers (substituteResources MustCompile fuel m resources fieldRefs replacement).
Proof.
  intros Hrefs. revert m.
  induction resources as [|r resources IH]; intros m; [discriminate|].
  cbn [substituteResources].
  pose proof (substituteFields_answers fuel m r fieldRefs replacement Hrefs) as Hr.
  unfold answers in Hr.
  destruct (substituteFields MustCompile fuel m r fieldRefs replacement) as [m1 st].
  destruct st as [[]| | |]; try discriminate; [apply IH|]. cbn in Hr. congruence.
Qed.

Lemma getReplacement_answers m objRef fieldRef :
  getReplacement Select GetFieldValue m objRef fieldRef <> OutOfFuel.
Proof. unfold getReplacement. repeat case_match; discriminate. Qed.

Lemma transformOne_answers fuel m r :
  (forall to, Target_ r = Some to -> Forall (workedOff fuel) (FieldRefs to)) ->
  answers (transformOne MustCompile Select GetFieldValue fuel m r).
Proof.
  intros Hr. unfold transformOne. destruct (Source r) as [src|]; [|discriminate].
  assert (Hsub : forall replacement,
             answers (substitute MustCompile Select fuel m (Target_ r) replacement)).
  { intros replacement. unfold substitute.
    destruct (Target_ r) as [to|]; [|discriminate].
    destruct (toObjRef to); [|discriminate].
    destruct (Select m _) as [e|[|r0 resources]]; try discriminate.
    apply substituteResources_answers, Hr. reflexivity. }
  destruct (srcObjRef src) as [objRef|]; [|apply Hsub].
  pose proof (getReplacement_answers m objRef (FieldRef src)) as Hget.
  destruct (getReplacement Select GetFieldValue m objRef (FieldRef src));
    try discriminate; [apply Hsub|congruence].
Qed.

End Answers.

(** X18. A run whose field references carry no filter comes to an
    end: when every field reference of every rule splits into steps
    without a filter, fewer than the depth the run may recurse to, the
    run answers with success, an error or a panic. *)
Theorem Transform_without_filters_answers
    (MustCompile : string -> option regexp.regex)
    (Select : ResMap -> Selector -> string + list nat)
    (GetFieldValue : node -> string -> string + node)
    (fuel : nat) (rs : list Replacement) (m : ResMap) :
  Forall (fun r => forall to, Target_ r = Some to ->
                     Forall (workedOff fuel) (FieldRefs to)) rs ->
  answers (Transform MustCompile Select GetFieldValue fuel rs m).
Proof.
  intros Hrs. revert m. induction Hrs as [|r rs Hr _ IH]; intros m; [discriminate|].
  cbn [Transform].
  pose proof (transformOne_answers MustCompile Select GetFieldValue fuel m r Hr) as H1.
  unfold answers in H1.
  destruct (transformOne MustCompile Select GetFieldValue fuel m r) as [m1 st].
  destruct st as [[]| | |]; try discriminate; [apply IH|]. cbn in H1. congruence.
Qed.

Lemma Transform_without_filters_answers_witness :
  answers
    (Transform regexp.Compile Examples.Select Examples.GetFieldValue 4
       [Examples.copy (Examples.ref "Cluster" "c1") "spec.host" "Config"
          ["spec.sans.0"; "metadata.labels.host"]]
       Examples.collection).
Proof.
  apply Transform_without_filters_answers.
  repeat constructor; intros to [= <-]; cbn [FieldRefs];
    repeat constructor; vm_compute; lia.
Defined.

(** *** Validation of the command-line options *)

Lemma given_true s : config.given s = true <-> s <> "".
Proof.
  unfold config.given. destruct (String.eqb_spec s ""); cbn; split; congruence.
Qed.

Lemma given_false s : config.given s = false <-> s = "".
Proof.
  unfold config.given. destruct (String.eqb_spec s ""); cbn; split; congruence.
Qed.

Lemma checkExists_passes Stat flagName path :
  config.checkExists Stat flagName path = None <-> path <> "" /\ Stat path = None.
Proof.
  unfold config.checkExists. destruct (String.eqb_spec path "") as [->|Hne].
  - split; [discriminate|intros [H _]; congruence].
  - destruct (Stat path); split; try discriminate; try tauto.
    intros [_ H]. discriminate.
Qed.

Ltac by_cases :=
  cbn; split; intros;
  repeat match goal with
         | H : _ /\ _ |- _ => destruct H
         | H : _ <-> _ |- _ => destruct H
         | H : _ \/ _ |- _ => destruct H
         | H : ?a = ?a -> _ |- _ => specialize (H eq_refl)
         | H : ?P -> _, H' : ?P |- _ => specialize (H H')
         end;
  try discriminate; try congruence; try tauto;
  repeat split; intros; try discriminate; try congruence; try tauto; auto.

(** X19. Manifest options pass validation exactly when the manifest
    has a name, no remote reference is asked for, a primary repository
    has a name, and at most one of commit hash, branch and tag is
    given. *)
Theorem manifest_options_pass (o : config.ManifestOptions.t) :
  config.ManifestOptions.Validate o = None
  <-> config.ManifestOptions.Name o <> ""
      /\ config.ManifestOptions.RemoteRef o = ""
      /\ (config.ManifestOptions.IsPrimary o = true ->
          config.ManifestOptions.RepoName o <> "")
      /\ ((config.ManifestOptions.CommitHash o = ""
           /\ config.ManifestOptions.Branch o = "")
          \/ (config.ManifestOptions.CommitHash o = ""
              /\ config.ManifestOptions.Tag o = "")
          \/ (config.ManifestOptions.Branch o = ""
              /\ config.ManifestOptions.Tag o = "")).
Proof.
  unfold config.ManifestOptions.Validate.
  cbn [config.ManifestOptions.countGiven].
  rewrite <- (given_false (config.ManifestOptions.RemoteRef o)).
  rewrite <- !(given_false (config.ManifestOptions.CommitHash o)).
  rewrite <- !(given_false (config.ManifestOptions.Branch o)).
  rewrite <- !(given_false (config.ManifestOptions.Tag o)).
  destruct (String.eqb_spec (config.ManifestOptions.Name o) "") as [Hn|Hn];
    destruct (config.given (config.ManifestOptions.RemoteRef o));
    destruct (config.ManifestOptions.IsPrimary o);
    destruct (String.eqb_spec (config.ManifestOptions.RepoName o) "") as [Hr|Hr];
    destruct (config.given (config.ManifestOptions.CommitHash o));
    destruct (config.given (config.ManifestOptions.Branch o));
    destruct (config.given (config.ManifestOptions.Tag o));
    by_cases.
Qed.

Lemma manifest_options_pass_witness :
  config.ManifestOptions.Validate
    {| config.ManifestOptions.Name := "primary";
       config.ManifestOptions.RepoName := "site";
       config.ManifestOptions.URL := "";
       config.ManifestOptions.Branch := "main";
       config.ManifestOptions.CommitHash := "";
       config.ManifestOptions.Tag := "";
       config.ManifestOptions.RemoteRef := "";
       config.ManifestOptions.Force := false;
       config.ManifestOptions.IsPrimary := true;
       config.ManifestOptions.SubPath := "";
       config.ManifestOptions.TargetPath := "" |}
  = None.
Proof.
  apply manifest_options_pass. cbn.
  split; [discriminate|]. split; [reflexivity|].
  split; [intros _; discriminate|]. right. left. split; reflexivity.
Defined.


(** X20. Encryption options pass validation exactly when the
    configuration has a name and is backed by the file system alone,
    with both key paths given and the encryption key file in place, or by
    the API server alone, with secret name and namespace given.  The
    decryption key file is never looked for: the outcome is the same on
    two file systems that agree on the encryption key path. *)
Theorem encryption_options_pass (Stat : string -> option string)
    (o : config.EncryptionConfigOptions.t) :
  (config.EncryptionConfigOptions.Validate Stat o = None
   <-> config.EncryptionConfigOptions.Name o <> ""
       /\ ((config.EncryptionConfigOptions.EncryptionKeyPath o <> ""
            /\ config.EncryptionConfigOptions.DecryptionKeyPath o <> ""
            /\ config.EncryptionConfigOptions.KeySecretName o = ""
            /\ config.EncryptionConfigOptions.KeySecretNamespace o = ""
            /\ Stat (config.EncryptionConfigOptions.EncryptionKeyPath o) = None)
           \/ (config.EncryptionConfigOptions.EncryptionKeyPath o = ""
               /\ config.EncryptionConfigOptions.DecryptionKeyPath o = ""
               /\ config.EncryptionConfigOptions.KeySecretName o <> ""
               /\ config.EncryptionConfigOptions.KeySecretNamespace o <> "")))
  /\ (forall Stat',
        Stat' (config.EncryptionConfigOptions.EncryptionKeyPath o)
        = Stat (config.EncryptionConfigOptions.EncryptionKeyPath o) ->
        config.EncryptionConfigOptions.Validate Stat' o
        = config.EncryptionConfigOptions.Validate Stat o).
Proof.
  split.
  - unfold config.EncryptionConfigOptions.Validate,
      config.EncryptionConfigOptions.validateKind,
      config.EncryptionConfigOptions.backedByFileSystem,
      config.EncryptionConfigOptions.backedByAPIServer,
      config.checkExists, config.given.
    destruct (String.eqb_spec (config.EncryptionConfigOptions.Name o) "");
      destruct (String.eqb_spec
                  (config.EncryptionConfigOptions.EncryptionKeyPath o) "");
      destruct (String.eqb_spec
                  (config.EncryptionConfigOptions.DecryptionKeyPath o) "");
      destruct (String.eqb_spec (config.EncryptionConfigOptions.KeySecretName o) "");
      destruct (String.eqb_spec
                  (config.EncryptionConfigOptions.KeySecretNamespace o) "");
      cbn;
      try destruct (Stat (config.EncryptionConfigOptions.EncryptionKeyPath o));
      by_cases.
  - intros Stat' Hsame.
    unfold config.EncryptionConfigOptions.Validate, config.checkExists.
    rewrite Hsame. reflexivity.
Qed.

Lemma encryption_options_pass_witness :
  config.EncryptionConfigOptions.Validate
    (fun path => if String.eqb path "/keys/enc" then None else Some "no such file")
    {| config.EncryptionConfigOptions.Name := "enc";
       config.EncryptionConfigOptions.EncryptionKeyPath := "/keys/enc";
       config.EncryptionConfigOptions.DecryptionKeyPath := "/keys/gone";
       config.EncryptionConfigOptions.KeySecretName := "";
       config.EncryptionConfigOptions.KeySecretNamespace := "" |}
  = config.EncryptionConfigOptions.Validate (fun _ => None)
      {| config.EncryptionConfigOptions.Name := "enc";
         config.EncryptionConfigOptions.EncryptionKeyPath := "/keys/enc";
         config.EncryptionConfigOptions.DecryptionKeyPath := "/keys/gone";
         config.EncryptionConfigOptions.KeySecretName := "";
         config.EncryptionConfigOptions.KeySecretNamespace := "" |}.
Proof.
  apply (encryption_options_pass (fun _ => None)). reflexivity.
Defined.

(** X21. Credential options pass validation exactly when a token does
    not come with a user name or a password and, if the certificate data
    is to be embedded, the client certificate and the client key are
    given and in place.  Without embedding, the file system is not looked
    at. *)
Theorem auth_options_pass (Stat : string -> option string)
    (o : config.AuthInfoOptions.t) :
  config.AuthInfoOptions.Validate Stat o = None
  <-> (config.AuthInfoOptions.Token o = ""
       \/ (config.AuthInfoOptions.Username o = ""
           /\ config.AuthInfoOptions.Password o = ""))
      /\ (config.AuthInfoOptions.EmbedCertData o = true ->
          (config.AuthInfoOptions.ClientCertificate o <> ""
           /\ Stat (config.AuthInfoOptions.ClientCertificate o) = None)
          /\ (config.AuthInfoOptions.ClientKey o <> ""
              /\ Stat (config.AuthInfoOptions.ClientKey o) = None)).
Proof.
  unfold config.AuthInfoOptions.Validate.
  rewrite <- (checkExists_passes Stat "client-certificate"
                (config.AuthInfoOptions.ClientCertificate o)).
  rewrite <- (checkExists_passes Stat "client-key"
                (config.AuthInfoOptions.ClientKey o)).
  rewrite <- !given_false.
  destruct (config.given (config.AuthInfoOptions.Token o));
    destruct (config.given (config.AuthInfoOptions.Username o));
    destruct (config.given (config.AuthInfoOptions.Password o));
    destruct (config.AuthInfoOptions.EmbedCertData o);
    destruct (config.checkExists Stat "client-certificate" _);
    destruct (config.checkExists Stat "client-key" _);
    by_cases.
Qed.

Lemma auth_options_pass_witness :
  config.AuthInfoOptions.Validate (fun _ => Some "no such file")
    {| config.AuthInfoOptions.Name := "admin";
       config.AuthInfoOptions.ClientCertificate := "";
       config.AuthInfoOptions.ClientKey := "";
       config.AuthInfoOptions.Token := "secret";
       config.AuthInfoOptions.Username := "";
       config.AuthInfoOptions.Password := "";
       config.AuthInfoOptions.EmbedCertData := false |}
  = None.
Proof.
  apply auth_options_pass. cbn.
  split; [right; split; reflexivity|]. intros H. discriminate H.
Defined.


(** X22. Context options pass validation only when exactly one of the
    current-context flag and a name is given; beyond that, a cluster type
    that is given has to be a valid one, unless the call is to change the
    current context only. *)
Theorem context_options_pass (ValidClusterType : string -> option config.error)
    (o : config.ContextOptions.t) :
  config.ContextOptions.Validate ValidClusterType o = None
  <-> (config.ContextOptions.Current o = true <-> config.ContextOptions.Name o = "")
      /\ (config.ContextOptions.CurrentContext o = true
          \/ config.ContextOptions.ClusterType o = ""
          \/ ValidClusterType (config.ContextOptions.ClusterType o) = None).
Proof.
  unfold config.ContextOptions.Validate, config.given.
  destruct (config.ContextOptions.Current o);
    destruct (String.eqb_spec (config.ContextOptions.Name o) "") as [Hn|Hn];
    destruct (config.ContextOptions.CurrentContext o);
    destruct (String.eqb_spec (config.ContextOptions.ClusterType o) "") as [Hc|Hc];
    destruct (ValidClusterType (config.ContextOptions.ClusterType o));
    by_cases.
Qed.

Lemma context_options_pass_witness :
  config.ContextOptions.Validate (fun _ => Some config.ErrEmptyClusterName)
    {| config.ContextOptions.Name := "ephemeral";
       config.ContextOptions.ClusterType := "";
       config.ContextOptions.CurrentContext := false;
       config.ContextOptions.Cluster := "";
       config.ContextOptions.AuthInfo := "";
       config.ContextOptions.Manifest := "";
       config.ContextOptions.EncryptionConfig := "";
       config.ContextOptions.Namespace := "";
       config.ContextOptions.Current := false |}
  = None.
Proof.
  apply context_options_pass. cbn.
  split; [split; intros H; discriminate H|]. right. left. reflexivity.
Defined.


(** X23. Cluster options pass validation exactly when the cluster has
    a name and a valid type, a certificate authority is not given
    together with the flag that skips TLS verification, and, if the
    authority data is to be embedded, the authority file is given and in
    place. *)
Theorem cluster_options_pass (ValidClusterType : string -> option config.error)
    (Stat : string -> option string) (o : config.ClusterOptions.t) :
  config.ClusterOptions.Validate ValidClusterType Stat o = None
  <-> config.ClusterOptions.Name o <> ""
      /\ ValidClusterType (config.ClusterOptions.ClusterType o) = None
      /\ (config.ClusterOptions.InsecureSkipTLSVerify o = false
          \/ config.ClusterOptions.CertificateAuthority o = "")
      /\ (config.ClusterOptions.EmbedCAData o = true ->
          config.ClusterOptions.CertificateAuthority o <> ""
          /\ Stat (config.ClusterOptions.CertificateAuthority o) = None).
Proof.
  unfold config.ClusterOptions.Validate, config.checkExists, config.given.
  destruct (String.eqb_spec (config.ClusterOptions.Name o) "") as [Hn|Hn];
    destruct (ValidClusterType (config.ClusterOptions.ClusterType o));
    destruct (config.ClusterOptions.InsecureSkipTLSVerify o);
    destruct (String.eqb_spec (config.ClusterOptions.CertificateAuthority o) "")
      as [Ha|Ha];
    destruct (config.ClusterOptions.EmbedCAData o);
    destruct (Stat (config.ClusterOptions.CertificateAuthority o));
    by_cases.
Qed.

Lemma cluster_options_pass_witness :
  config.ClusterOptions.Validate (fun _ => None) (fun _ => Some "no such file")
    {| config.ClusterOptions.Name := "target";
       config.ClusterOptions.ClusterType := "target";
       config.ClusterOptions.Server := "";
       config.ClusterOptions.InsecureSkipTLSVerify := true;
       config.ClusterOptions.CertificateAuthority := "";
       config.ClusterOptions.EmbedCAData := false |}
  = None.
Proof.
  apply cluster_options_pass. cbn.
  split; [discriminate|]. split; [reflexivity|].
  split; [right; reflexivity|]. intros H. discriminate H.
Defined.


(** *** The volume of the ISO builder *)

Lemma Split_char_one c s v :
  strings.Split s (String c "") = [v] -> s = v /\ occurs c s = false.
Proof.
  intros Hsplit. split.
  - rewrite <- (Join_Split_char c s), Hsplit. reflexivity.
  - revert v Hsplit. induction s as [|x s IH]; intros v Hsplit; [reflexivity|].
    rewrite Split_char_cons in Hsplit. cbn [occurs].
    destruct (Ascii.eqb c x).
    + pose proof (Split_char_nonempty c s) as Hne.
      destruct (strings.Split s (String c "")); [congruence|discriminate].
    + destruct (strings.Split s (String c "")) as [|h t] eqn:Hs.
      * destruct (Split_char_nonempty c s Hs).
      * cbn in Hsplit. injection Hsplit as _ ->. exact (IH h eq_refl).
Qed.

Lemma verifyInputs_passed cfg cfg' :
  isogen.verifyInputs cfg = (cfg', isogen.Passed) ->
  exists container builder,
    isogen.Container_ cfg = Some container
    /\ isogen.Builder_ cfg = Some builder
    /\ isogen.Volume container <> ""
    /\ isogen.UserDataFileName builder <> ""
    /\ isogen.NetworkConfigFileName builder <> ""
    /\ ((occurs ":" (isogen.Volume container) = false
         /\ cfg' = isogen.withVolume cfg container
                     (isogen.Volume container +:+ ":" +:+ isogen.Volume container))
        \/ (exists host cont,
              strings.Split (isogen.Volume container) ":" = [host; cont]
              /\ cfg' = cfg)).
Proof.
  unfold isogen.verifyInputs. intros H.
  destruct (isogen.Container_ cfg) as [container|]; [|discriminate].
  destruct (String.eqb_spec (isogen.Volume container) "") as [|Hv]; [discriminate|].
  destruct (isogen.Builder_ cfg) as [builder|]; [|discriminate].
  destruct (String.eqb_spec (isogen.UserDataFileName builder) "") as [|Hu];
    [discriminate|].
  destruct (String.eqb_spec (isogen.NetworkConfigFileName builder) "") as [|Hn];
    [discriminate|].
  cbn [orb] in H. exists container, builder. repeat split; try assumption.
  destruct (strings.Split (isogen.Volume container) ":") as [|a [|b [|c t]]] eqn:Hs.
  - destruct (Split_char_nonempty ":" _ Hs).
  - destruct (Split_char_one ":" _ _ Hs) as [<- Hno].
    left. cbn in H. injection H as <-. split; [exact Hno|reflexivity].
  - right. cbn in H. injection H as <-. exists a, b. split; reflexivity.
  - exfalso. unfold len in H. cbn [length] in H.
    destruct (Z.eqb_spec (Z.of_nat (S (S (S (length t))))) 1); [lia|].
    destruct (Z.ltb_spec 2 (Z.of_nat (S (S (S (length t)))))); [discriminate|lia].
Qed.

Lemma Split_doubled v :
  occurs ":" v = false -> strings.Split (v +:+ ":" +:+ v) ":" = [v; v].
Proof.
  intros Hno. change (v +:+ ":" +:+ v) with (v +:+ String ":" v).
  rewrite Split_char_app, (Split_char_none ":" v Hno). reflexivity.
Qed.

(** X24. After [verifyInputs] has passed, the volume of the container
    has exactly two parts, the host path and the container path,
    separated by one colon, so that taking either part cannot fail; a
    volume given as one path is bound to the same path in the container,
    and a volume given with both parts is left as it is. *)
Theorem verified_volume_has_two_parts (cfg cfg' : isogen.ImageConfiguration) :
  isogen.verifyInputs cfg = (cfg', isogen.Passed) ->
  exists host cont,
    isogen.volumePart cfg' 0 = Some host
    /\ isogen.volumePart cfg' 1 = Some cont
    /\ isogen.volumePart cfg' 2 = None
    /\ isogen.volumePart cfg 0 = Some host
    /\ (isogen.volumePart cfg 1 = None -> cont = host)
    /\ (isogen.volumePart cfg 1 <> None -> cfg' = cfg).
Proof.
  intros H.
  destruct (verifyInputs_passed cfg cfg' H)
    as (container & builder & Hc & _ & _ & _ & _ & [[Hno ->]|(host & cont & Hs & ->)]).
  - exists (isogen.Volume container), (isogen.Volume container).
    unfold isogen.volumePart, isogen.withVolume. cbn [isogen.Container_ isogen.Volume].
    rewrite Hc, (Split_doubled _ Hno), (Split_char_none ":" _ Hno).
    repeat split; try reflexivity. intros Hsome. destruct (Hsome eq_refl).
  - exists host, cont. unfold isogen.volumePart. rewrite Hc, Hs.
    repeat split; try reflexivity. discriminate.
Qed.

Lemma verified_volume_has_two_parts_witness :
  exists host cont,
    isogen.volumePart
      {| isogen.Container_ :=
           Some {| isogen.Volume := "/srv/iso:/srv/iso"; isogen.Image := "";
                   isogen.ContainerRuntime := "docker" |};
         isogen.Builder_ :=
           Some {| isogen.UserDataFileName := "user-data";
                   isogen.NetworkConfigFileName := "net-conf";
                   isogen.OutputMetadataFileName := "" |} |} 0 = Some host
    /\ isogen.volumePart
         {| isogen.Container_ :=
              Some {| isogen.Volume := "/srv/iso:/srv/iso"; isogen.Image := "";
                      isogen.ContainerRuntime := "docker" |};
            isogen.Builder_ :=
              Some {| isogen.UserDataFileName := "user-data";
                      isogen.NetworkConfigFileName := "net-conf";
                      isogen.OutputMetadataFileName := "" |} |} 1 = Some cont.
Proof.
  destruct (verified_volume_has_two_parts
              {| isogen.Container_ :=
                   Some {| isogen.Volume := "/srv/iso"; isogen.Image := "";
                           isogen.ContainerRuntime := "docker" |};
                 isogen.Builder_ :=
                   Some {| isogen.UserDataFileName := "user-data";
                           isogen.NetworkConfigFileName := "net-conf";
                           isogen.OutputMetadataFileName := "" |} |}
              _ eq_refl) as (host & cont & H0 & H1 & _).
  exists host, cont. split; [exact H0|exact H1].
Defined.

(** X25. Verifying twice is verifying once: inputs that have passed
    pass again, and the second call changes nothing. *)
Theorem verifyInputs_is_idempotent (cfg cfg' : isogen.ImageConfiguration) :
  isogen.verifyInputs cfg = (cfg', isogen.Passed) ->
  isogen.verifyInputs cfg' = (cfg', isogen.Passed).
Proof.
  intros H.
  destruct (verifyInputs_passed cfg cfg' H)
    as (container & builder & Hc & Hb & Hv & Hu & Hn
        & [[Hno ->]|(host & cont & Hs & ->)]).
  - unfold isogen.verifyInputs at 1, isogen.withVolume.
    cbn [isogen.Container_ isogen.Builder_ isogen.Volume]. rewrite Hb.
    rewrite (eqb_empty_false (isogen.UserDataFileName builder) Hu).
    rewrite (eqb_empty_false (isogen.NetworkConfigFileName builder) Hn).
    rewrite (Split_doubled _ Hno).
    destruct (isogen.Volume container) eqn:Hvol; [congruence|]. reflexivity.
  - exact H.
Qed.

Lemma verifyInputs_is_idempotent_witness :
  isogen.verifyInputs
    {| isogen.Container_ :=
         Some {| isogen.Volume := "/srv/iso:/srv/iso"; isogen.Image := "";
                 isogen.ContainerRuntime := "docker" |};
       isogen.Builder_ :=
         Some {| isogen.UserDataFileName := "user-data";
                 isogen.NetworkConfigFileName := "net-conf";
                 isogen.OutputMetadataFileName := "" |} |}
  = ({| isogen.Container_ :=
          Some {| isogen.Volume := "/srv/iso:/srv/iso"; isogen.Image := "";
                  isogen.ContainerRuntime := "docker" |};
        isogen.Builder_ :=
          Some {| isogen.UserDataFileName := "user-data";
                  isogen.NetworkConfigFileName := "net-conf";
                  isogen.OutputMetadataFileName := "" |} |}, isogen.Passed).
Proof.
  apply (verifyInputs_is_idempotent
           {| isogen.Container_ :=
                Some {| isogen.Volume := "/srv/iso"; isogen.Image := "";
                        isogen.ContainerRuntime := "docker" |};
              isogen.Builder_ :=
                Some {| isogen.UserDataFileName := "user-data";
                        isogen.NetworkConfigFileName := "net-conf";
                        isogen.OutputMetadataFileName := "" |} |}).
  reflexivity.
Defined.
